(** * The review harvester of [src/scraping/scrape_reviews_selenium.py]

    A shallow embedding of the [Scraper] class: the paging loop of
    [scrape_reviews_for_series], the block locator, the block parser, the
    pagination helper and the review identifier, over an abstract Selenium
    session.

    Conventions of the embedding.
    - A Python [str] is a [string]; one [ascii] stands for one character, so
      [len] counts characters as Python's [len] does.
    - A Python [int] is a [Z].
    - The browser is an oracle: every WebDriver call is a function of an
      abstract world [W] that returns a value or raises, together with the
      next world.  Every call is also appended to a trace, the observable
      behaviour of a run.
    - Python exceptions leave the local variables and the browser as they
      were when raised: the monad [M] returns the state on both outcomes.
    - [print] calls are not modelled. *)

From Stdlib Require Import ZArith List String Ascii Bool Lia.
From Stdlib Require Import DecimalString.
Import ListNotations.

Local Open Scope string_scope.
Local Open Scope Z_scope.

(* ===================================================================== *)
(** ** Python strings *)
(* ===================================================================== *)

Module PyStr.

(** [len(s)] *)
Definition len (s : string) : Z := Z.of_nat (String.length s).

(** [c.isspace()] for a character below 256: TAB, LF, VT, FF, CR, the four
    separators FS GS RS US, SPACE, NEL and NBSP. *)
Definition isspace (c : ascii) : bool :=
  let n := N_of_ascii c in
  (((9 <=? n) && (n <=? 13)) || ((28 <=? n) && (n <=? 32))
   || (n =? 133) || (n =? 160))%N.

Definition is_empty (s : string) : bool :=
  match s with EmptyString => true | String _ _ => false end.

Fixpoint lstrip (s : string) : string :=
  match s with
  | EmptyString => EmptyString
  | String c s' => if isspace c then lstrip s' else s
  end.

Fixpoint rstrip (s : string) : string :=
  match s with
  | EmptyString => EmptyString
  | String c s' =>
      let r := rstrip s' in
      if isspace c && is_empty r then EmptyString else String c r
  end.

(** [s.strip()] *)
Definition strip (s : string) : string := rstrip (lstrip s).

(** [s.split()]: the maximal runs of non-space characters, in order.
    [cur] is the run being read. *)
Fixpoint split_from (cur : string) (s : string) : list string :=
  match s with
  | EmptyString => if is_empty cur then [] else [cur]
  | String c s' =>
      if isspace c
      then (if is_empty cur then split_from EmptyString s'
            else cur :: split_from EmptyString s')
      else split_from (cur ++ String c EmptyString) s'
  end.

Definition split (s : string) : list string := split_from EmptyString s.

(** [sep.join(parts)] *)
Definition join (sep : string) (parts : list string) : string :=
  String.concat sep parts.

(** [s.replace(a, b)] for one-character [a] and [b]. *)
Fixpoint replace_char (a b : ascii) (s : string) : string :=
  match s with
  | EmptyString => EmptyString
  | String c s' =>
      String (if Ascii.eqb c a then b else c) (replace_char a b s')
  end.

(** [sub in s] *)
Fixpoint contains (sub s : string) : bool :=
  String.prefix sub s ||
  match s with
  | EmptyString => false
  | String _ s' => contains sub s'
  end.

(** [s[:n]] for [n >= 0] *)
Definition take (n : nat) (s : string) : string := String.substring 0 n s.

(** [c.lower()] for a character below 256: A-Z and the accented capitals
    192..222 (without the multiplication sign 215) move up by 32. *)
Definition lower_char (c : ascii) : ascii :=
  let n := N_of_ascii c in
  if (((65 <=? n) && (n <=? 90))
      || ((192 <=? n) && (n <=? 222) && negb (n =? 215)))%N
  then ascii_of_N (n + 32) else c.

Fixpoint lower (s : string) : string :=
  match s with
  | EmptyString => EmptyString
  | String c s' => String (lower_char c) (lower s')
  end.

(** [str(n)] for an integer *)
Definition of_int (n : Z) : string := NilZero.string_of_int (Z.to_int n).

Definition is_ascii_digit (c : ascii) : bool :=
  let n := N_of_ascii c in ((48 <=? n) && (n <=? 57))%N.

(** [c.isdigit()] below 256 also accepts the superscripts 178, 179, 185. *)
Definition isdigit_char (c : ascii) : bool :=
  let n := N_of_ascii c in
  is_ascii_digit c || ((n =? 178) || (n =? 179) || (n =? 185))%N.

Fixpoint all_chars (p : ascii -> bool) (s : string) : bool :=
  match s with
  | EmptyString => true
  | String c s' => p c && all_chars p s'
  end.

(** [s.isdigit()] *)
Definition isdigit (s : string) : bool :=
  negb (is_empty s) && all_chars isdigit_char s.

Fixpoint digits_value (acc : Z) (s : string) : Z :=
  match s with
  | EmptyString => acc
  | String c s' => digits_value (10 * acc + (Z.of_N (N_of_ascii c) - 48)) s'
  end.

(** The limit of [int] on the digits of a decimal string
    ([sys.int_info.default_max_str_digits]). *)
Definition MAX_STR_DIGITS : Z := 4300.

(** [int(s)] on a token that passed [isdigit]: [None] stands for the
    [ValueError] that a superscript digit raises, and that a token of more
    than 4300 digits raises. *)
Definition to_int (s : string) : option Z :=
  if negb (is_empty s) && all_chars is_ascii_digit s && (len s <=? MAX_STR_DIGITS)
  then Some (digits_value 0 s) else None.

End PyStr.

Import PyStr.

(** The carriage return, line feed and tab that [clean_review_text] replaces. *)
Definition CR : ascii := ascii_of_nat 13.
Definition LF : ascii := ascii_of_nat 10.
Definition TAB : ascii := ascii_of_nat 9.
Definition SPACE : ascii := ascii_of_nat 32.

(** [clean_review_text(text)] *)
Definition clean_review_text (text : string) : string :=
  if is_empty text then ""
  else
    let t := replace_char TAB SPACE (replace_char LF SPACE (replace_char CR SPACE text)) in
    let t := join " " (split t) in
    strip t.


(** [normalize_whitespace(s)] of [src/utils/text_cleaning.py]; [None] is
    Python's [None]. *)
Definition normalize_whitespace (s : option string) : string :=
  match s with
  | None => ""
  | Some s => join " " (split s)
  end.

(* ===================================================================== *)
(** ** State and exceptions *)
(* ===================================================================== *)

(** A raised Python [Exception]. *)
Inductive exn : Type :=
| Exception (msg : string).

Inductive result (A : Type) : Type :=
| Ok (a : A)
| Raise (e : exn).
Arguments Ok {A} a.
Arguments Raise {A} e.

(** A computation over a state [S]: the state survives a raise, as Python's
    local variables and the browser do. *)
Definition M (S A : Type) : Type := S -> result A * S.

Definition ret {S A} (a : A) : M S A := fun s => (Ok a, s).

Definition raise {S A} (e : exn) : M S A := fun s => (Raise e, s).

Definition bind {S A B} (m : M S A) (k : A -> M S B) : M S B :=
  fun s =>
    match m s with
    | (Ok a, s') => k a s'
    | (Raise e, s') => (Raise e, s')
    end.

(** [try: m except Exception as e: h e] *)
Definition try_except {S A} (m : M S A) (h : exn -> M S A) : M S A :=
  fun s =>
    match m s with
    | (Ok a, s') => (Ok a, s')
    | (Raise e, s') => h e s'
    end.

Declare Scope py_scope.
Delimit Scope py_scope with py.
Notation "x <- m ;; k" := (bind m (fun x => k))
  (at level 61, m at next level, right associativity) : py_scope.
Notation "m ;; k" := (bind m (fun _ => k))
  (at level 61, right associativity) : py_scope.
Local Open Scope py_scope.

(** How one pass of a [for] body ends: fall through or [continue] ([Next]),
    or [break]. The loop's variables travel in the payload. *)
Inductive ctl (A : Type) : Type :=
| Next (a : A)
| Break (a : A).
Arguments Next {A} a.
Arguments Break {A} a.

(** [for x in xs: body] *)
Fixpoint for_in {S X A} (xs : list X) (body : X -> A -> M S (ctl A)) (acc : A)
  : M S A :=
  match xs with
  | [] => ret acc
  | x :: xs' =>
      c <- body x acc ;;
      match c with
      | Next a => for_in xs' body a
      | Break a => ret a
      end
  end.

(** Run a computation on the first component of a pair of states. *)
Definition lift {S F A} (m : M S A) : M (S * F) A :=
  fun st => let (r, s') := m (fst st) in (r, (s', snd st)).

Definition get_locals {S F} : M (S * F) F := fun st => (Ok (snd st), st).

Definition set_locals {S F} (f : F -> F) : M (S * F) unit :=
  fun st => (Ok tt, (fst st, f (snd st))).

(** *** Outcomes of a computation *)

(** [post m s Q E]: run from [s], [m] returns a value and a state in [Q], or
    raises with an exception and a state in [E]. *)
Definition post {S A} (m : M S A) (s : S)
  (Q : A -> S -> Prop) (E : exn -> S -> Prop) : Prop :=
  match m s with
  | (Ok a, s') => Q a s'
  | (Raise e, s') => E e s'
  end.

(** [m] never raises. *)
Definition total {S A} (m : M S A) : Prop :=
  forall s, exists a s', m s = (Ok a, s').

(* ===================================================================== *)
(** ** The Selenium session *)
(* ===================================================================== *)

(** [selenium.webdriver.common.by.By], the locator strategies in use. *)
Inductive By : Type :=
| CSS_SELECTOR
| XPATH
| TAG_NAME.

(** One call made to the browser. [scope] is [None] for a query on the
    driver and [Some e] for a query inside the element [e]. *)
Inductive event (Elem : Type) : Type :=
| EvGet (url : string)
| EvFindElements (scope : option Elem) (by_ : By) (query : string)
| EvFindElement (scope : option Elem) (by_ : By) (query : string)
| EvScript (source : string) (args : list Elem)
| EvClick (e : Elem)
| EvIsDisplayed (e : Elem)
| EvText (e : Elem)
| EvGetAttribute (e : Elem) (name : string)
| EvWaitPresence (xpath : string) (timeout : Z)
| EvSleep (ms : Z)
| EvQuit.
Arguments EvGet {Elem} url.
Arguments EvFindElements {Elem} scope by_ query.
Arguments EvFindElement {Elem} scope by_ query.
Arguments EvScript {Elem} source args.
Arguments EvClick {Elem} e.
Arguments EvIsDisplayed {Elem} e.
Arguments EvText {Elem} e.
Arguments EvGetAttribute {Elem} e name.
Arguments EvWaitPresence {Elem} xpath timeout.
Arguments EvSleep {Elem} ms.
Arguments EvQuit {Elem}.

(** The browser as the scraper uses it. Each call may raise and may change
    the page. [d_text] and [d_get_attribute] return [None] for Python's
    [None]. [d_quit] cannot raise: the Chrome driver's [quit] swallows its own
    errors. [d_sleep] is what the page does while the scraper sleeps. *)
Record WebDriver (W Elem : Type) : Type := {
  d_get : string -> W -> result unit * W;
  d_find_elements : option Elem -> By -> string -> W -> result (list Elem) * W;
  d_find_element : option Elem -> By -> string -> W -> result Elem * W;
  d_execute_script : string -> list Elem -> W -> result unit * W;
  d_click : Elem -> W -> result unit * W;
  d_is_displayed : Elem -> W -> result bool * W;
  d_text : Elem -> W -> result (option string) * W;
  d_get_attribute : Elem -> string -> W -> result (option string) * W;
  d_wait_presence : string -> Z -> W -> result unit * W;
  d_sleep : Z -> W -> W;
  d_quit : W -> W
}.
Arguments d_get {W Elem} _ _ _.
Arguments d_find_elements {W Elem} _ _ _ _ _.
Arguments d_find_element {W Elem} _ _ _ _ _.
Arguments d_execute_script {W Elem} _ _ _ _.
Arguments d_click {W Elem} _ _ _.
Arguments d_is_displayed {W Elem} _ _ _.
Arguments d_text {W Elem} _ _ _.
Arguments d_get_attribute {W Elem} _ _ _ _.
Arguments d_wait_presence {W Elem} _ _ _ _.
Arguments d_sleep {W Elem} _ _ _.
Arguments d_quit {W Elem} _ _.

(** A live session: the browser and the calls made so far, oldest first. *)
Record session (W Elem : Type) : Type := {
  world : W;
  trace : list (event Elem)
}.
Arguments world {W Elem} _.
Arguments trace {W Elem} _.
Arguments Build_session {W Elem} _ _.

(** [x or ""] on an optional string *)
Definition or_empty (o : option string) : string :=
  match o with Some s => s | None => "" end.

(** The double quote, for the script sources that contain one. *)
Definition DQ : string := String (ascii_of_nat 34) "".

(** A Python float as [time.sleep] receives it: a finite length, in
    milliseconds, an infinity, or not a number. A number of milliseconds is
    read as the finite float of that length. *)
Inductive pyfloat : Type :=
| Finite (ms : Z)
| PosInf
| NegInf
| NaN.

Coercion Finite : Z >-> pyfloat.

(** The [Scraper] object: [self.headless] and [self.delay], the float that
    [float(delay_seconds)] gave. *)
Record Scraper : Type := {
  headless : bool;
  delay : pyfloat
}.

(** One parsed block, the dictionary that [parse_review_block] returns. *)
Record parsed : Type := {
  p_review_text : string;
  p_user_score : option Z;
  p_recommendation : string;
  p_review_date : string
}.

(** One record of the harvest, the dictionary after [row.update]. *)
Record row : Type := {
  review_text : string;
  user_score : option Z;
  recommendation : string;
  review_date : string;
  entity : string;
  series_component : string;
  series_id : Z;
  review_id : string;
  page_number : Z
}.

(** The local variables of [scrape_reviews_for_series]. *)
Record locals : Type := {
  reviews : list row;
  page : Z;
  consecutive_empty : Z
}.

Definition MAX_EMPTY_PAGES : Z := 12.
Definition MAX_PAGES : Z := 120.

(** The places where [scrape_reviews_for_series] leaves its [try] block. *)
Inductive exit_path : Type :=
| CondTarget      (** the [while] test fails on [len(reviews) < target_reviews] *)
| CondPages       (** the [while] test fails on [page <= MAX_PAGES] *)
| BreakEmpty      (** [break] on [consecutive_empty >= MAX_EMPTY_PAGES] *)
| BreakNotOk      (** [break] on [not ok] after [_goto_next_page] *)
| BreakTarget     (** [break] on [len(reviews) >= target_reviews] after a page *)
| Raised (e : exn) (** an exception reached the [except] clause *).

(** Modelled from the spec: the stop reasons of a HarvestResult. The source
    returns the record list only and has no such field; the mapping below
    names each exit of the source after the spec's state machine. *)
Inductive StopReason : Type :=
| TargetReached
| MaxPagesReached
| EmptyPageStreak
| SessionError.

(** Modelled from the spec: the reason the state machine of the spec gives
    for each exit. A failed [_goto_next_page] and a raise are both the
    spec's SessionError. *)
Definition stopped_reason (x : exit_path) : StopReason :=
  match x with
  | CondTarget | BreakTarget => TargetReached
  | CondPages => MaxPagesReached
  | BreakEmpty => EmptyPageStreak
  | BreakNotOk | Raised _ => SessionError
  end.

(** [len(xs)] on a list *)
Definition llen {A} (xs : list A) : Z := Z.of_nat (List.length xs).

Definition is_nil {A} (xs : list A) : bool :=
  match xs with [] => true | _ :: _ => false end.

(* ===================================================================== *)
(** ** The scraper *)
(* ===================================================================== *)

Section ScraperModel.

Context {W Elem : Type}.

(** The browser behind [driver]. *)
Variable drv : WebDriver W Elem.

(** [hashlib.sha1(s.encode()).hexdigest()] *)
Variable sha1_hexdigest : string -> string.

(** The scraper object, [self]. *)
Variable self : Scraper.

Abbreviation Session := (session W Elem).

(** *** The WebDriver calls, logged *)

Definition call {A} (ev : event Elem) (f : W -> result A * W) : M Session A :=
  fun s =>
    let (r, w) := f (world s) in
    (r, Build_session w (trace s ++ [ev])).

Definition driver_get (url : string) : M Session unit :=
  call (EvGet url) (d_get drv url).

Definition find_elements (scope : option Elem) (by_ : By) (q : string)
  : M Session (list Elem) :=
  call (EvFindElements scope by_ q) (d_find_elements drv scope by_ q).

Definition find_element (scope : option Elem) (by_ : By) (q : string)
  : M Session Elem :=
  call (EvFindElement scope by_ q) (d_find_element drv scope by_ q).

Definition execute_script (source : string) (args : list Elem) : M Session unit :=
  call (EvScript source args) (d_execute_script drv source args).

Definition click (e : Elem) : M Session unit :=
  call (EvClick e) (d_click drv e).

Definition is_displayed (e : Elem) : M Session bool :=
  call (EvIsDisplayed e) (d_is_displayed drv e).

Definition text_of (e : Elem) : M Session (option string) :=
  call (EvText e) (d_text drv e).

Definition get_attribute (e : Elem) (name : string) : M Session (option string) :=
  call (EvGetAttribute e name) (d_get_attribute drv e name).

(** [WebDriverWait(driver, timeout).until(EC.presence_of_element_located(...))] *)
Definition wait_presence (xpath : string) (timeout : Z) : M Session unit :=
  call (EvWaitPresence xpath timeout) (d_wait_presence drv xpath timeout).

(** The longest length that [time.sleep] converts: the clock of CPython
    counts nanoseconds in 64 bits, which holds 9223372036.854775807 seconds. *)
Definition SLEEP_MAX : Z := 9223372036854.

(** [time.sleep(secs)]: not a number raises [ValueError], a length that
    the clock cannot hold (an infinity included) raises [OverflowError], a
    negative length raises [ValueError]. *)
Definition sleep (secs : pyfloat) : M Session unit :=
  match secs with
  | NaN => raise (Exception "Invalid value NaN (not a number)")
  | PosInf | NegInf =>
      raise (Exception "timestamp too large to convert to C _PyTime_t")
  | Finite ms =>
      if (ms <? - SLEEP_MAX) || (SLEEP_MAX <? ms)
      then raise (Exception "timestamp too large to convert to C _PyTime_t")
      else if ms <? 0 then raise (Exception "sleep length must be non-negative")
      else call (EvSleep ms) (fun w => (Ok tt, d_sleep drv ms w))
  end.

Definition driver_quit : M Session unit :=
  call EvQuit (fun w => (Ok tt, d_quit drv w)).

(** *** Waits and render nudges *)

Definition REVIEW_XPATH : string :=
  "//div[contains(@class,'review')][.//div[contains(@class,'review-text') or contains(@class,'text')]]".

Definition _wait_for_reviews (timeout : Z) : M Session unit :=
  try_except (wait_presence REVIEW_XPATH timeout) (fun _ => ret tt).

Definition JS_SCROLL_HALF : string :=
  "window.scrollTo(0, document.body.scrollHeight * 0.5);".
Definition JS_SCROLL_TOP : string := "window.scrollTo(0, 0);".

Definition _force_render : M Session unit :=
  try_except
    (execute_script JS_SCROLL_HALF [] ;;
     sleep 200 ;;
     execute_script JS_SCROLL_TOP [])
    (fun _ => ret tt).

(** *** Filters and sorting *)

Definition JS_SELECT : string := "arguments[0].selected = true;".
Definition JS_CHANGE : string := "arguments[0].dispatchEvent(new Event('change'));".
Definition JS_CLICK : string := "arguments[0].click();".

(** The loop over the options of one drop-down; the payload is [chosen]. *)
Definition choose_option (sel : Elem) (opts : list Elem) : M Session bool :=
  for_in opts
    (fun o (chosen : bool) =>
       t <- text_of o ;;
       v <- get_attribute o "value" ;;
       let text := lower (or_empty t) in
       let val := lower (or_empty v) in
       if contains "recent" val || contains "new" text || contains "date" text
       then
         execute_script JS_SELECT [o] ;;
         execute_script JS_CHANGE [sel] ;;
         sleep 300 ;;
         ret (Break true)
       else ret (Next chosen))
    false.

Definition _prepare_page_filters : M Session unit :=
  (* 1) select dropdowns *)
  try_except
    (selects <- find_elements None CSS_SELECTOR "select, .sort-select" ;;
     for_in selects
       (fun sel (_ : unit) =>
          try_except
            (opts <- find_elements (Some sel) TAG_NAME "option" ;;
             chosen <- choose_option sel opts ;;
             if chosen then ret (Break tt) else ret (Next tt))
            (fun _ => ret (Next tt)))
       tt)
    (fun _ => ret tt) ;;
  (* 2) filter pills for All *)
  try_except
    (candidates <- find_elements None XPATH
       "//a[contains(.,'All Reviews') or contains(.,'All reviews') or contains(.,'All')]" ;;
     for_in candidates
       (fun c (_ : unit) =>
          d <- is_displayed c ;;
          if d then
            try_except
              (execute_script JS_CLICK [c] ;; sleep 200 ;; ret (Break tt))
              (fun _ => ret (Next tt))
          else ret (Next tt))
       tt)
    (fun _ => ret tt) ;;
  (* 3) spoilers toggle *)
  try_except
    (btns <- find_elements None XPATH
       "//a[contains(.,'Show Spoilers') or contains(.,'Spoilers')]" ;;
     for_in btns
       (fun b (_ : unit) =>
          d <- is_displayed b ;;
          if d then
            try_except
              (execute_script JS_CLICK [b] ;; sleep 100 ;; ret (Next tt))
              (fun _ => ret (Next tt))
          else ret (Next tt))
       tt)
    (fun _ => ret tt).

(** *** Read-more expanders *)

Definition JS_SCROLL_INTO_VIEW : string :=
  "arguments[0].scrollIntoView({block: 'center'});".
Definition JS_SCROLL_INTO_VIEW_TIGHT : string :=
  "arguments[0].scrollIntoView({block:'center'});".

(** One pass over the buttons; the payload is [clicked_round]. *)
Definition click_round (buttons : list Elem) : M Session Z :=
  for_in buttons
    (fun btn (clicked_round : Z) =>
       try_except
         (execute_script JS_SCROLL_INTO_VIEW [btn] ;;
          sleep 50 ;;
          try_except (click btn) (fun _ => execute_script JS_CLICK [btn]) ;;
          ret (Next (clicked_round + 1)))
         (fun _ => ret (Next clicked_round)))
    0.

(** [click_all_read_more(driver)]; the payload is [total_clicked]. *)
Definition click_all_read_more : M Session Z :=
  for_in [0; 1; 2]
    (fun (_ : Z) (total_clicked : Z) =>
       buttons <- find_elements None CSS_SELECTOR "a.js-readmore" ;;
       clicked_round <- click_round buttons ;;
       let total_clicked := total_clicked + clicked_round in
       if clicked_round =? 0 then ret (Break total_clicked)
       else sleep 150 ;; ret (Next total_clicked))
    0.

Definition TOGGLE_SELECTORS : list string :=
  [ "a.js-readmore";
    "span.js-toggle-review-button";
    "button.js-toggle-review-button";
    "span.read-more";
    "button.read-more";
    "a.read-more" ].

Definition JS_UNHIDE : string :=
  "
                arguments[0]
                  .querySelectorAll('.hidden, .hide, .js-hidden, [style*=" ++ DQ ++ "display:none" ++ DQ ++ "]')
                  .forEach(el => { el.style.display='inline'; el.classList.remove('hidden','hide','js-hidden'); });
                ".

(** [_expand_review_in_block(driver, block)] *)
Definition _expand_review_in_block (block : Elem) : M Session unit :=
  for_in TOGGLE_SELECTORS
    (fun selector (_ : unit) =>
       try_except
         (elems <- find_elements (Some block) CSS_SELECTOR selector ;;
          for_in elems
            (fun e (_ : unit) =>
               try_except
                 (execute_script JS_SCROLL_INTO_VIEW_TIGHT [e] ;;
                  sleep 50 ;;
                  execute_script JS_CLICK [e] ;;
                  sleep 80 ;;
                  ret (Next tt))
                 (fun _ => ret (Next tt)))
            tt ;;
          ret (Next tt))
         (fun _ => ret (Next tt)))
    tt ;;
  try_except (execute_script JS_UNHIDE [block]) (fun _ => ret tt).

(** *** Block discovery *)

Definition XPATHS : list string :=
  [ "//div[contains(@class,'review')][.//div[contains(@class,'review-text') or contains(@class,'text')]]";
    "//article[contains(@class,'review')][.//div[contains(@class,'review-text') or contains(@class,'text')]]";
    "//*[@class and contains(concat(' ',normalize-space(@class),' '),' review-element ')]";
    "//*[.//a[contains(@class,'js-readmore')] and (.//div[contains(@class,'text')] or .//div[contains(@class,'review-text')])]" ].

(** The loop of [_find_review_blocks] over a list of queries: the payload is
    the value returned, [[]] when the loop runs to its end. *)
Definition find_first_blocks (xps : list string) : M Session (list Elem) :=
  for_in xps
    (fun xp (_ : list Elem) =>
       elems <- find_elements None XPATH xp ;;
       if is_nil elems then ret (Next []) else ret (Break elems))
    [].

Definition _find_review_blocks : M Session (list Elem) :=
  find_first_blocks XPATHS.

(** *** Parsing one block *)

Definition TEXT_SELECTORS : list string :=
  [ "div.text"; "div.review-text"; ".text.readability"; ".review-content" ].

(** The first reading of the body text; the payload is [review_text]. *)
Definition read_text (block : Elem) : M Session string :=
  for_in TEXT_SELECTORS
    (fun sel (review_text : string) =>
       try_except
         (el <- find_element (Some block) CSS_SELECTOR sel ;;
          t <- text_of el ;;
          let review_text := strip (or_empty t) in
          if negb (is_empty review_text) then ret (Break review_text)
          else ret (Next review_text))
         (fun _ => ret (Next review_text)))
    "".

(** The test of the line [# expand if likely truncated]. *)
Definition likely_truncated (review_text : string) : bool :=
  is_empty review_text
  || (contains "..." review_text && (len review_text <? 400))
  || (len review_text <? 120).

(** The second reading, after expansion; the payload is [review_text]. *)
Definition reread_text (block : Elem) (review_text : string) : M Session string :=
  for_in TEXT_SELECTORS
    (fun sel (review_text : string) =>
       try_except
         (el <- find_element (Some block) CSS_SELECTOR sel ;;
          t <- text_of el ;;
          let t2 := strip (or_empty t) in
          if len review_text <? len t2 then ret (Break t2)
          else ret (Next review_text))
         (fun _ => ret (Next review_text)))
    review_text.

(** The body text before the length gate: first reading, then expansion and
    second reading when the text looks truncated. *)
Definition extract_text (block : Elem) : M Session string :=
  review_text <- read_text block ;;
  if likely_truncated review_text then
    _expand_review_in_block block ;;
    sleep 100 ;;
    reread_text block review_text
  else ret review_text.

(** The test of the gate [if (not review_text) or len(review_text) < 50]. *)
Definition too_short (review_text : string) : bool :=
  is_empty review_text || (len review_text <? 50).

(** The loop over the tokens of one score text; the payload is [score]. A
    token that [isdigit] accepts and [int] refuses raises. *)
Definition score_of_tokens (toks : list string) (score : option Z)
  : M Session (option Z) :=
  for_in toks
    (fun tok (score : option Z) =>
       if isdigit tok then
         match to_int tok with
         | None => raise (Exception "invalid literal for int() with base 10")
         | Some val =>
             if (1 <=? val) && (val <=? 10) then ret (Break (Some val))
             else ret (Next score)
         end
       else ret (Next score))
    score.

Definition is_some {A} (o : option A) : bool :=
  match o with Some _ => true | None => false end.

Definition extract_score (block : Elem) : M Session (option Z) :=
  for_in [ "div.score"; "span.score"; ".rating"; ".num" ]
    (fun sel (score : option Z) =>
       r <- try_except
              (el <- find_element (Some block) CSS_SELECTOR sel ;;
               t <- get_attribute el "innerText" ;;
               ret (Some (strip (or_empty t))))
              (fun _ => ret None) ;;
       match r with
       | None => ret (Next score)
       | Some txt =>
           score <- score_of_tokens (split txt) score ;;
           if is_some score then ret (Break score) else ret (Next score)
       end)
    None.

(** The chain of tests on one label text, [None] when no phrase is in it. *)
Definition classify_tag (t : string) : option string :=
  if contains "Not Recommended" t then Some "Not Recommended"
  else if contains "Mixed Feelings" t then Some "Mixed Feelings"
  else if contains "Recommended" t then Some "Recommended"
  else None.

(** The loop over the label elements; the payload is [recommendation]. *)
Definition scan_tags (tags : list Elem) : M Session string :=
  for_in tags
    (fun tag (recommendation : string) =>
       o <- text_of tag ;;
       let t := strip (or_empty o) in
       if is_empty t then ret (Next recommendation)
       else
         match classify_tag t with
         | Some r => ret (Break r)
         | None => ret (Next recommendation)
         end)
    "".

(** The recommendation tag. [recommendation] is assigned only just before a
    [break], so it is still empty whenever the [except] clause is reached. *)
Definition extract_recommendation (block : Elem) : M Session string :=
  try_except
    (tags <- find_elements (Some block) CSS_SELECTOR
       ".tag, .review-tag, .review-element .tag" ;;
     scan_tags tags)
    (fun _ => ret "").

(** The date. [.text.strip()] raises on [None]. *)
Definition extract_date (block : Elem) : M Session string :=
  for_in [ ".update_at"; ".update_on"; ".review-date"; "div.reviewer + div" ]
    (fun sel (date_text : string) =>
       try_except
         (el <- find_element (Some block) CSS_SELECTOR sel ;;
          o <- text_of el ;;
          match o with
          | None => raise (Exception "'NoneType' object has no attribute 'strip'")
          | Some t =>
              let dt := strip t in
              if negb (is_empty dt) then ret (Break dt) else ret (Next date_text)
          end)
         (fun _ => ret (Next date_text)))
    "".

(** [parse_review_block(block)]: [None] is Python's [None]. *)
Definition parse_review_block (block : Elem) : M Session (option parsed) :=
  try_except
    (review_text <- extract_text block ;;
     if too_short review_text then ret None
     else
       let review_text := clean_review_text review_text in
       score <- extract_score block ;;
       recommendation <- extract_recommendation block ;;
       date_text <- extract_date block ;;
       ret (Some {| p_review_text := review_text;
                    p_user_score := score;
                    p_recommendation := recommendation;
                    p_review_date := date_text |}))
    (fun _ => ret None).

(** *** Entity helpers *)

Definition _entity_for (series_name : string) : string :=
  if String.eqb series_name "Naruto" then "Naruto"
  else if String.eqb series_name "Naruto Shippuden" then "Naruto"
  else if String.eqb series_name "One Piece" then "One Piece"
  else if String.eqb series_name "Bleach" then "Bleach"
  else if String.eqb series_name "Bleach TYBW Part 1" then "Bleach"
  else if String.eqb series_name "Bleach TYBW Part 2" then "Bleach"
  else series_name.

Definition _mal_id_for (series_name : string) : Z :=
  if String.eqb series_name "Naruto" then 20
  else if String.eqb series_name "Naruto Shippuden" then 1735
  else if String.eqb series_name "One Piece" then 21
  else if String.eqb series_name "Bleach" then 269
  else if String.eqb series_name "Bleach TYBW Part 1" then 41467
  else if String.eqb series_name "Bleach TYBW Part 2" then 41468
  else 0.

Definition UNDERSCORE : ascii := ascii_of_nat 95.

Definition _review_id (series_name review_text : string) : string :=
  let text_hash := take 10 (sha1_hexdigest (series_name ++ take 120 review_text)) in
  replace_char SPACE UNDERSCORE (lower series_name) ++ "_" ++ text_hash.

(** *** Pagination helper *)

(** The loop over the More Reviews links; the payload is the value of a
    [return] inside the loop, [None] while none was reached. *)
Definition click_more_reviews (page : Z) (links : list Elem)
  : M Session (option (bool * Z)) :=
  for_in links
    (fun a (_ : option (bool * Z)) =>
       d <- is_displayed a ;;
       if d then
         execute_script JS_SCROLL_INTO_VIEW_TIGHT [a] ;;
         sleep 100 ;;
         try_except (click a) (fun _ => execute_script JS_CLICK [a]) ;;
         _wait_for_reviews 8 ;;
         _force_render ;;
         sleep (delay self) ;;
         ret (Break (Some (true, page + 1)))
       else ret (Next None))
    None.

Definition next_url (reviews_url : string) (page : Z) : string :=
  reviews_url ++ "?p=" ++ of_int (page + 1).

Definition _goto_next_page (reviews_url : string) (page : Z)
  : M Session (bool * Z) :=
  r <- try_except
         (links <- find_elements None XPATH "//a[contains(., 'More Reviews')]" ;;
          click_more_reviews page links)
         (fun _ => ret None) ;;
  match r with
  | Some res => ret res
  | None =>
      driver_get (next_url reviews_url page) ;;
      _wait_for_reviews 8 ;;
      _force_render ;;
      sleep (delay self) ;;
      ret (true, page + 1)
  end.

(** *** The per-series run *)

(** A run's state: the session and the local variables. *)
Abbreviation RunState := (Session * locals)%type.

Definition initial_locals : locals :=
  {| reviews := []; page := 1; consecutive_empty := 0 |}.

(** The dictionary after [row.update({...})]. *)
Definition make_row (series_name : string) (page : Z) (p : parsed) : row :=
  {| review_text := p_review_text p;
     user_score := p_user_score p;
     recommendation := p_recommendation p;
     review_date := p_review_date p;
     entity := _entity_for series_name;
     series_component := series_name;
     series_id := _mal_id_for series_name;
     review_id := _review_id series_name (p_review_text p);
     page_number := page |}.

Definition append_review (r : row) (l : locals) : locals :=
  {| reviews := reviews l ++ [r];
     page := page l;
     consecutive_empty := consecutive_empty l |}.

Definition set_page (p : Z) (l : locals) : locals :=
  {| reviews := reviews l; page := p; consecutive_empty := consecutive_empty l |}.

Definition set_consecutive_empty (n : Z) (l : locals) : locals :=
  {| reviews := reviews l; page := page l; consecutive_empty := n |}.

(** The statements before the loop, [# Page 1]. *)
Definition open_listing (reviews_url : string) : M Session unit :=
  driver_get reviews_url ;;
  _wait_for_reviews 12 ;;
  _prepare_page_filters ;;
  _force_render ;;
  sleep (delay self).

(** The loop [for block in blocks] of the [# parse] step. *)
Definition parse_blocks (series_name : string) (target_reviews : Z)
  (blocks : list Elem) : M RunState unit :=
  for_in blocks
    (fun block (_ : unit) =>
       l <- get_locals ;;
       if target_reviews <=? llen (reviews l) then ret (Break tt)
       else
         r <- lift (parse_review_block block) ;;
         match r with
         | None => ret (Next tt)
         | Some p =>
             set_locals (append_review (make_row series_name (page l) p)) ;;
             ret (Next tt)
         end)
    tt.

(** How one pass of the [while] body ends. *)
Inductive loop_ctl : Type :=
| Continue
| Stop (x : exit_path).

(** [ok, page = self._goto_next_page(...)] and the test [if not ok: break]. *)
Definition advance (reviews_url : string) : M RunState loop_ctl :=
  l <- get_locals ;;
  r <- lift (_goto_next_page reviews_url (page l)) ;;
  set_locals (set_page (snd r)) ;;
  if negb (fst r) then ret (Stop BreakNotOk) else ret Continue.

(** The rest of the [while] body once [blocks] is known: the branch
    [if not blocks], or the [# parse] and [# next page] steps. *)
Definition handle_blocks (series_name reviews_url : string) (target_reviews : Z)
  (blocks : list Elem) : M RunState loop_ctl :=
  if is_nil blocks then
    set_locals (fun l => set_consecutive_empty (consecutive_empty l + 1) l) ;;
    l <- get_locals ;;
    if MAX_EMPTY_PAGES <=? consecutive_empty l then ret (Stop BreakEmpty)
    else advance reviews_url
  else
    set_locals (set_consecutive_empty 0) ;;
    parse_blocks series_name target_reviews blocks ;;
    l <- get_locals ;;
    if target_reviews <=? llen (reviews l) then ret (Stop BreakTarget)
    else advance reviews_url.

(** The body of the [while] loop. *)
Definition loop_body (series_name reviews_url : string) (target_reviews : Z)
  : M RunState loop_ctl :=
  lift click_all_read_more ;;
  lift _force_render ;;
  lift (sleep 500) ;;
  blocks <- lift _find_review_blocks ;;
  handle_blocks series_name reviews_url target_reviews blocks.

(** The [while] loop. [fuel] bounds the number of times its test is
    evaluated; [None] reports that the bound was hit. *)
Fixpoint paging_loop (fuel : nat) (series_name reviews_url : string)
  (target_reviews : Z) : M RunState (option exit_path) :=
  match fuel with
  | O => ret None
  | S fuel' =>
      l <- get_locals ;;
      if negb (llen (reviews l) <? target_reviews) then ret (Some CondTarget)
      else if negb (page l <=? MAX_PAGES) then ret (Some CondPages)
      else
        c <- loop_body series_name reviews_url target_reviews ;;
        match c with
        | Continue => paging_loop fuel' series_name reviews_url target_reviews
        | Stop x => ret (Some x)
        end
  end.

(** The [try] block. *)
Definition try_block (fuel : nat) (series_name reviews_url : string)
  (target_reviews : Z) : M RunState (option exit_path) :=
  lift (open_listing reviews_url) ;;
  paging_loop fuel series_name reviews_url target_reviews.

(** [try: m finally: f] *)
Definition try_finally {S A} (m : M S A) (f : M S unit) : M S A :=
  fun s =>
    let (r, s1) := m s in
    match f s1 with
    | (Ok _, s2) => (r, s2)
    | (Raise e, s2) => (Raise e, s2)
    end.

(** The [try] / [except Exception] / [finally] statement, with the exit
    taken as its value. *)
Definition guarded_run (fuel : nat) (series_name reviews_url : string)
  (target_reviews : Z) : M RunState (option exit_path) :=
  try_finally
    (try_except
       (try_block fuel series_name reviews_url target_reviews)
       (fun e => ret (Some (Raised e))))
    (lift driver_quit).

(** What a run leaves behind. *)
Record outcome : Type := {
  exit : exit_path;
  final : locals;
  closed : Session
}.

(** A whole run from the fresh session [s0] that [self.get_driver()]
    returned. [None]: the loop bound [fuel] was hit, or the run raised. *)
Definition harvest (fuel : nat) (series_name reviews_url : string)
  (target_reviews : Z) (s0 : Session) : option outcome :=
  match guarded_run fuel series_name reviews_url target_reviews
          (s0, initial_locals) with
  | (Ok (Some x), (s, l)) => Some {| exit := x; final := l; closed := s |}
  | (Ok None, _) => None
  | (Raise _, _) => None
  end.

(** Enough fuel for every run: the test is evaluated at most
    [MAX_PAGES + 1] times. *)
Definition LOOP_FUEL : nat := 121.

(** [scrape_reviews_for_series(series_name, reviews_url, target_reviews)]:
    the list returned and the session left. *)
Definition scrape_reviews_for_series (series_name reviews_url : string)
  (target_reviews : Z) (s0 : Session) : option (list row * Session) :=
  match harvest LOOP_FUEL series_name reviews_url target_reviews s0 with
  | Some o => Some (reviews (final o), closed o)
  | None => None
  end.

End ScraperModel.

(* ===================================================================== *)
(** ** The batch of [main] *)
(* ===================================================================== *)

(** One entry of the list [SERIES]. *)
Record series : Type := {
  s_series_component : string;
  s_reviews_url : string;
  s_target_reviews : Z
}.

Definition SERIES : list series :=
  [ {| s_series_component := "Naruto";
       s_reviews_url := "https://myanimelist.net/anime/20/Naruto/reviews";
       s_target_reviews := 300 |};
    {| s_series_component := "Naruto Shippuden";
       s_reviews_url := "https://myanimelist.net/anime/1735/Naruto__Shippuuden/reviews";
       s_target_reviews := 300 |};
    {| s_series_component := "One Piece";
       s_reviews_url := "https://myanimelist.net/anime/21/One_Piece/reviews";
       s_target_reviews := 600 |};
    {| s_series_component := "Bleach";
       s_reviews_url := "https://myanimelist.net/anime/269/Bleach/reviews";
       s_target_reviews := 400 |};
    {| s_series_component := "Bleach TYBW Part 1";
       s_reviews_url := "https://myanimelist.net/anime/41467/Bleach__Sennen_Kessen_Hen__Ketsubetsu_Tan/reviews";
       s_target_reviews := 100 |};
    {| s_series_component := "Bleach TYBW Part 2";
       s_reviews_url := "https://myanimelist.net/anime/41468/Bleach__Sennen_Kessen_Hen__Saigo_no_15_Byoshi/reviews";
       s_target_reviews := 100 |} ].

(** One call of [main] to the operating system. *)
Inductive os_event : Type :=
| OsMakedirs (path : string)
| OsChrome (headless_ : bool)
| OsToCsv (path : string) (rows : list row).

(** The operating system as [main] uses it, over a world [G]: each call may
    raise. [p_sep] is [os.sep]; [p_chrome] is [webdriver.Chrome(options)]
    and gives the world of the new browser; [p_to_csv path rows] is
    [pd.DataFrame(rows).to_csv(path, index=False, encoding=...)]. *)
Record Platform (G W : Type) : Type := {
  p_sep : string;
  p_makedirs : string -> G -> result unit * G;
  p_chrome : bool -> G -> result W * G;
  p_to_csv : string -> list row -> G -> result unit * G
}.
Arguments p_sep {G W} _.
Arguments p_makedirs {G W} _ _ _.
Arguments p_chrome {G W} _ _ _.
Arguments p_to_csv {G W} _ _ _ _.

(** The state of a batch: the operating system and the calls made to it. *)
Record os_state (G : Type) : Type := {
  os_world : G;
  os_trace : list os_event
}.
Arguments os_world {G} _.
Arguments os_trace {G} _.
Arguments Build_os_state {G} _ _.

Section MainModel.

Context {G W Elem : Type}.
Variable pf : Platform G W.
Variable drv : WebDriver W Elem.
Variable sha1_hexdigest : string -> string.

Definition os_call {A} (ev : os_event) (f : G -> result A * G) : M (os_state G) A :=
  fun s =>
    let (r, g) := f (os_world s) in
    (r, Build_os_state g (os_trace s ++ [ev])).

(** [os.path.join(a, b)] for a relative [b] and an [a] that does not end in
    the separator. *)
Definition path_join (a b : string) : string := a ++ p_sep pf ++ b.

(** [self.get_driver()] followed by the rest of
    [scrape_reviews_for_series]: the browser is started outside the [try]
    block, so a failure to start it is raised to the caller. The loop bound
    of [scrape_reviews_for_series] is never hit; the empty list stands in
    the branch for it. *)
Definition scrape_with_new_driver (self : Scraper)
  (series_name reviews_url : string) (target_reviews : Z)
  : M (os_state G) (list row) :=
  w <- os_call (OsChrome (headless self)) (p_chrome pf (headless self)) ;;
  match scrape_reviews_for_series drv sha1_hexdigest self series_name
          reviews_url target_reviews (Build_session w []) with
  | Some (rows, _) => ret rows
  | None => ret []
  end.

(** The name of the file of one series. *)
Definition series_file (name : string) : string :=
  replace_char SPACE UNDERSCORE (lower name) ++ "_reviews_raw.csv".

(** The body of the loop [for s in SERIES]; the payload is [all_rows]. *)
Definition series_step (scraper : Scraper) (out_dir : string)
  (s : series) (all_rows : list row) : M (os_state G) (ctl (list row)) :=
  let name := s_series_component s in
  let url := s_reviews_url s in
  let target := s_target_reviews s in
  rows <- scrape_with_new_driver scraper name url target ;;
  let out_path := path_join out_dir (series_file name) in
  os_call (OsToCsv out_path rows) (p_to_csv pf out_path rows) ;;
  ret (Next (all_rows ++ rows)%list).

(** The loop [for s in SERIES] over a list of entries. *)
Definition harvest_all (scraper : Scraper) (out_dir : string)
  (entries : list series) : M (os_state G) (list row) :=
  for_in entries (series_step scraper out_dir) [].

(** [main()]; [DELAY = 2.0] seconds are 2000 milliseconds. *)
Definition main : M (os_state G) unit :=
  let HEADLESS := true in
  let DELAY := 2000 in
  let OUT_DIR := path_join "data" "raw" in
  os_call (OsMakedirs OUT_DIR) (p_makedirs pf OUT_DIR) ;;
  let scraper := {| headless := HEADLESS; delay := DELAY |} in
  all_rows <- harvest_all scraper OUT_DIR SERIES ;;
  let all_path := path_join OUT_DIR "all_reviews_raw.csv" in
  os_call (OsToCsv all_path all_rows) (p_to_csv pf all_path all_rows).

End MainModel.

(* ===================================================================== *)
(** ** A small concrete listing *)
(* ===================================================================== *)

(** A deterministic stand-in for the browser, used to run the model on
    concrete pages: a listing is a list of pages, a page a list of blocks. *)
Module Toy.

Record block : Type := {
  short_text : string;      (** the body text before expansion *)
  full_text : string;       (** the body text after expansion *)
  tags : list string        (** the texts of the label elements *)
}.

Record site : Type := {
  pages : list (list block);   (** page 1 first *)
  query : nat;                 (** index in [XPATHS] of the one query that finds the blocks *)
  more_link : bool;            (** a displayed More Reviews link is on every page *)
  broken_page : option nat     (** [driver.get] raises when it would load this page *)
}.

Inductive elem : Type :=
| Block (i : nat)
| Body (i : nat)
| Tag (i k : nat)
| More.

Record world : Type := {
  current : nat;            (** the page shown, 0 before the first [get] *)
  expanded : list nat       (** the blocks of the page that were expanded *)
}.

Definition start : world := {| current := 0; expanded := [] |}.

Definition MORE_XPATH : string := "//a[contains(., 'More Reviews')]".
Definition TAG_CSS : string := ".tag, .review-tag, .review-element .tag".

Section Site.

Variable site_ : site.

Definition blocks_of (w : world) : list block :=
  nth (current w - 1) (pages site_) [].

Definition get (url : string) (w : world) : result unit * world :=
  let p := if contains "?p=" url then S (current w) else 1%nat in
  match broken_page site_ with
  | Some b =>
      if Nat.eqb b p then (Raise (Exception "invalid session id"), w)
      else (Ok tt, {| current := p; expanded := [] |})
  | None => (Ok tt, {| current := p; expanded := [] |})
  end.

Definition find_all (scope : option elem) (by_ : By) (q : string) (w : world)
  : result (list elem) * world :=
  match scope, by_ with
  | None, XPATH =>
      if String.eqb q (nth (query site_) XPATHS "")
      then (Ok (map Block (seq 0 (List.length (blocks_of w)))), w)
      else if String.eqb q MORE_XPATH
      then (Ok (if more_link site_ then [More] else []), w)
      else (Ok [], w)
  | Some (Block i), CSS_SELECTOR =>
      if String.eqb q TAG_CSS
      then
        match nth_error (blocks_of w) i with
        | Some b => (Ok (map (Tag i) (seq 0 (List.length (tags b)))), w)
        | None => (Ok [], w)
        end
      else (Ok [], w)
  | _, _ => (Ok [], w)
  end.

Definition find_one (scope : option elem) (by_ : By) (q : string) (w : world)
  : result elem * world :=
  match scope, by_ with
  | Some (Block i), CSS_SELECTOR =>
      if String.eqb q "div.text" && Nat.ltb i (List.length (blocks_of w))
      then (Ok (Body i), w)
      else (Raise (Exception "no such element"), w)
  | _, _ => (Raise (Exception "no such element"), w)
  end.

Definition run_script (source : string) (args : list elem) (w : world)
  : result unit * world :=
  match args with
  | [Block i] =>
      if String.eqb source JS_UNHIDE
      then (Ok tt, {| current := current w; expanded := i :: expanded w |})
      else (Ok tt, w)
  | _ => (Ok tt, w)
  end.

Definition click_on (e : elem) (w : world) : result unit * world :=
  match e with
  | More => (Ok tt, {| current := S (current w); expanded := [] |})
  | _ => (Ok tt, w)
  end.

Definition text_at (e : elem) (w : world) : result (option string) * world :=
  match e with
  | Body i =>
      match nth_error (blocks_of w) i with
      | Some b =>
          (Ok (Some (if existsb (Nat.eqb i) (expanded w)
                     then full_text b else short_text b)), w)
      | None => (Raise (Exception "stale element reference"), w)
      end
  | Tag i k =>
      match nth_error (blocks_of w) i with
      | Some b => (Ok (Some (nth k (tags b) "")), w)
      | None => (Raise (Exception "stale element reference"), w)
      end
  | _ => (Ok (Some ""), w)
  end.

Definition driver : WebDriver world elem := {|
  d_get := get;
  d_find_elements := find_all;
  d_find_element := find_one;
  d_execute_script := run_script;
  d_click := click_on;
  d_is_displayed := fun _ w => (Ok true, w);
  d_text := text_at;
  d_get_attribute := fun _ _ w => (Ok None, w);
  d_wait_presence := fun _ _ w => (Ok tt, w);
  d_sleep := fun _ w => w;
  d_quit := fun w => w
|}.

End Site.

(** A fresh session, as [get_driver()] returns it. *)
Definition fresh : session world elem := Build_session start [].

Fixpoint code_sum (s : string) : Z :=
  match s with
  | EmptyString => 0
  | String c s' => Z.of_N (N_of_ascii c) + code_sum s'
  end.

(** A stand-in for the digest: it is not SHA-1, only some function of its
    argument. *)
Definition digest (s : string) : string :=
  of_int (code_sum s) ++ "a94a8fe5ccb19ba61c4c0873d391e987982fbbd3".

Definition scraper : Scraper := {| headless := true; delay := 2000 |}.

Fixpoint repeat_string (n : nat) (s : string) : string :=
  match n with
  | O => ""
  | S n' => s ++ repeat_string n' s
  end.

(** A body of 130 characters that needs no expansion. *)
Definition long_text (tag : string) : string :=
  tag ++ repeat_string 16 " a fine" ++ repeat_string (18 - String.length tag) "!".

Definition plain (tag : string) : block :=
  {| short_text := long_text tag; full_text := long_text tag;
     tags := ["Recommended"] |}.

(** Three pages of two blocks, found by the first query, no More link. *)
Definition three_pages : site :=
  {| pages := [ [plain "a1"; plain "a2"]; [plain "b1"; plain "b2"];
                [plain "c1"; plain "c2"] ];
     query := 0; more_link := false; broken_page := None |}.

(** The same listing, whose session breaks on loading page 3. *)
Definition breaks_on_page_3 : site :=
  {| pages := pages three_pages;
     query := 0; more_link := false; broken_page := Some 3%nat |}.

(** A listing on which no query ever finds a block. *)
Definition blank : site :=
  {| pages := []; query := 0; more_link := false; broken_page := None |}.

(** Scenario D: the first query finds nothing, the third finds three blocks. *)
Definition legacy_markup : site :=
  {| pages := [ [plain "x"; plain "y"; plain "z"] ];
     query := 2; more_link := false; broken_page := None |}.



(** A body of 50 characters with a run of three line feeds in it. *)
Definition gappy_text : string :=
  "This show is good." ++ String LF (String LF (String LF "")) ++
  "I liked every part of it 100%".

Definition gappy : block :=
  {| short_text := gappy_text; full_text := gappy_text; tags := [] |}.

Definition gappy_site : site :=
  {| pages := [ [gappy] ]; query := 0; more_link := false;
     broken_page := None |}.

(** A block with two labels, the second one negative. *)
Definition two_labels : block :=
  {| short_text := long_text "t"; full_text := long_text "t";
     tags := [" "; "Funny"; "Not Recommended"; "Mixed Feelings"] |}.

Definition labels_site : site :=
  {| pages := [ [two_labels] ]; query := 0; more_link := false;
     broken_page := None |}.

(** A block whose first label recommends and whose second does not. *)
Definition mixed_labels : block :=
  {| short_text := long_text "t"; full_text := long_text "t";
     tags := ["Recommended"; "Not Recommended"] |}.

Definition mixed_labels_site : site :=
  {| pages := [ [mixed_labels] ]; query := 0; more_link := false;
     broken_page := None |}.

(** A listing with a displayed More Reviews link on every page. *)
Definition with_more_link : site :=
  {| pages := pages three_pages;
     query := 0; more_link := true; broken_page := None |}.

End Toy.

(** The listing [Toy.three_pages] with a score element in every block, whose
    text starts with a superscript two. *)
Module ToyScore.

Definition SUPERSCRIPT_TWO : string := String (ascii_of_nat 178) "".

Definition score_text : string := SUPERSCRIPT_TWO ++ " 9".

Definition find_one (scope : option Toy.elem) (by_ : By) (q : string)
  (w : Toy.world) : result Toy.elem * Toy.world :=
  match scope with
  | Some (Toy.Block i) =>
      if String.eqb q "div.score" then (Ok (Toy.Tag i 0), w)
      else Toy.find_one Toy.three_pages scope by_ q w
  | _ => Toy.find_one Toy.three_pages scope by_ q w
  end.

Definition attribute (e : Toy.elem) (name : string) (w : Toy.world)
  : result (option string) * Toy.world :=
  match e with
  | Toy.Tag _ _ =>
      if String.eqb name "innerText" then (Ok (Some score_text), w)
      else (Ok None, w)
  | _ => (Ok None, w)
  end.

Definition driver : WebDriver Toy.world Toy.elem := {|
  d_get := d_get (Toy.driver Toy.three_pages);
  d_find_elements := d_find_elements (Toy.driver Toy.three_pages);
  d_find_element := find_one;
  d_execute_script := d_execute_script (Toy.driver Toy.three_pages);
  d_click := d_click (Toy.driver Toy.three_pages);
  d_is_displayed := d_is_displayed (Toy.driver Toy.three_pages);
  d_text := d_text (Toy.driver Toy.three_pages);
  d_get_attribute := attribute;
  d_wait_presence := d_wait_presence (Toy.driver Toy.three_pages);
  d_sleep := d_sleep (Toy.driver Toy.three_pages);
  d_quit := d_quit (Toy.driver Toy.three_pages)
|}.

(** The session once page 1 is loaded. *)
Definition on_page_1 : session Toy.world Toy.elem :=
  snd (driver_get driver "https://myanimelist.net/anime/21/One_Piece/reviews" Toy.fresh).

End ToyScore.


(** An operating system that starts at most [browsers] browsers and writes
    every file; its world counts the browsers started. *)
Module ToyOs.

Definition platform (browsers : nat) : Platform nat Toy.world := {|
  p_sep := "/";
  p_makedirs := fun _ g => (Ok tt, g);
  p_chrome := fun _ g =>
    if (g <? browsers)%nat then (Ok Toy.start, S g)
    else (Raise (Exception "session not created"), g);
  p_to_csv := fun _ _ g => (Ok tt, g)
|}.

Definition boot : os_state nat := Build_os_state 0%nat [].

(** A call without its rows: the path and the number of rows of a file. *)
Definition outline (ev : os_event) : string * Z :=
  match ev with
  | OsMakedirs path => ("makedirs " ++ path, 0)
  | OsChrome _ => ("chrome", 0)
  | OsToCsv path rows => (path, llen rows)
  end.

End ToyOs.

(* ===================================================================== *)
(** ** Vocabulary of the statements *)
(* ===================================================================== *)

Section Vocabulary.

Context {W Elem : Type}.
Variable drv : WebDriver W Elem.

Abbreviation Session := (session W Elem).

(** The session after [driver.quit()]. *)
Definition quit_session (s : Session) : Session :=
  Build_session (d_quit drv (world s)) (trace s ++ [EvQuit]).

(** The record list only grows. *)
Definition extends (l0 l : locals) : Prop :=
  exists more, reviews l = (reviews l0 ++ more)%list.

(** What one pass of the [while] body guarantees, from locals [l0] to [l]. *)
Definition step_ok (t : Z) (l0 : locals) (c : loop_ctl) (l : locals) : Prop :=
  extends l0 l /\
  match c with
  | Continue =>
      llen (reviews l) < t /\ page l = page l0 + 1 /\
      0 <= consecutive_empty l < MAX_EMPTY_PAGES
  | Stop BreakEmpty =>
      reviews l = reviews l0 /\ page l = page l0 /\
      consecutive_empty l = MAX_EMPTY_PAGES
  | Stop BreakTarget =>
      llen (reviews l) = t /\ page l = page l0 /\ consecutive_empty l = 0
  | Stop _ => False
  end.

(** What holds of the locals when a pass or the loop raises. *)
Definition fault_ok (t : Z) (l0 l : locals) : Prop :=
  extends l0 l /\ llen (reviews l) < t /\
  page l0 <= page l <= MAX_PAGES /\
  0 <= consecutive_empty l < MAX_EMPTY_PAGES.

(** What holds of the locals when the loop ends through exit [x]. *)
Definition exit_ok (t : Z) (l0 : locals) (x : exit_path) (l : locals) : Prop :=
  extends l0 l /\
  page l0 <= page l <= MAX_PAGES + 1 /\
  0 <= consecutive_empty l <= MAX_EMPTY_PAGES /\
  match x with
  | CondTarget => l = l0 /\ t <= llen (reviews l0)
  | CondPages => llen (reviews l) < t /\ page l = MAX_PAGES + 1
  | BreakEmpty => llen (reviews l) < t /\ consecutive_empty l = MAX_EMPTY_PAGES
  | BreakTarget => llen (reviews l) = t
  | BreakNotOk => False
  | Raised _ => False
  end.

(** What holds of a finished run. *)
Definition outcome_ok (t : Z) (o : @outcome W Elem) : Prop :=
  match exit o with
  | Raised _ =>
      final o = initial_locals \/ fault_ok t initial_locals (final o)
  | x => exit_ok t initial_locals x (final o)
  end.

(** The record list grew by records that satisfy [P]. *)
Definition grows (P : row -> Prop) (l0 l : locals) : Prop :=
  exists more, reviews l = (reviews l0 ++ more)%list /\ Forall P more.

(** The queries of a list all ran, in order, and found nothing. *)
Inductive misses : list string -> Session -> Session -> Prop :=
| misses_nil (s : Session) : misses [] s s
| misses_cons (xp : string) (xps : list string) (s s1 s2 : Session) :
    find_elements drv None XPATH xp s = (Ok [], s1) ->
    misses xps s1 s2 ->
    misses (xp :: xps) s s2.

(** The force-unhide script is the last call of [_expand_review_in_block]
    and of nothing else: its occurrences count the expansions. *)
Definition is_unhide (ev : event Elem) : bool :=
  match ev with
  | EvScript source _ => String.eqb source JS_UNHIDE
  | _ => false
  end.

Definition count_unhide (tr : list (event Elem)) : nat :=
  List.length (filter is_unhide tr).

(** [m] runs no force-unhide script. *)
Definition quiet {A} (m : M Session A) : Prop :=
  forall s, post m s
    (fun _ s' => count_unhide (trace s') = count_unhide (trace s))
    (fun _ s' => count_unhide (trace s') = count_unhide (trace s)).

(** [m] runs no force-unhide script and returns. *)
Definition quiet_total {A} (m : M Session A) : Prop :=
  forall s, post m s
    (fun _ s' => count_unhide (trace s') = count_unhide (trace s))
    (fun _ _ => False).

(** The labels of a list are read in order and none of them decides: each
    text, stripped, is empty or holds none of the three phrases. *)
Inductive passed_labels : list Elem -> Session -> Session -> Prop :=
| passed_nil (s : Session) : passed_labels [] s s
| passed_cons (tag : Elem) (rest : list Elem) (s s1 s2 : Session)
    (o : option string) :
    text_of drv tag s = (Ok o, s1) ->
    classify_tag (strip (or_empty o)) = None ->
    passed_labels rest s1 s2 ->
    passed_labels (tag :: rest) s s2.

(** The tag with the priority taken over all the labels of a block at
    once: the phrase of highest priority that occurs in any of them. *)
Definition tag_by_block_priority (labels : list string) : string :=
  if existsb (contains "Not Recommended") labels then "Not Recommended"
  else if existsb (contains "Mixed Feelings") labels then "Mixed Feelings"
  else if existsb (contains "Recommended") labels then "Recommended"
  else "".

(** The values the [recommendation] field can take: the three phrases, or
    the empty string for an unknown tag. *)
Definition tag_value (r : string) : Prop :=
  r = "Not Recommended" \/ r = "Mixed Feelings" \/ r = "Recommended" \/ r = "".

(** A character that is no whitespace. *)
Definition nonspace (c : ascii) : bool := negb (isspace c).

(** A word: not empty and free of whitespace. *)
Definition is_word (w : string) : bool :=
  negb (is_empty w) && all_chars nonspace w.

(** A character of a cleaned text: no whitespace, or the space itself. *)
Definition tidy_char (c : ascii) : bool := nonspace c || Ascii.eqb c SPACE.

(** The text after the three replacements of [clean_review_text]. *)
Definition respaced (text : string) : string :=
  replace_char TAB SPACE (replace_char LF SPACE (replace_char CR SPACE text)).


(** What [parse_review_block] guarantees of a block it accepts. *)
Definition well_formed_parsed (p : parsed) : Prop :=
  (exists raw,
     p_review_text p = clean_review_text raw /\ strip raw = raw /\ 50 <= len raw) /\
  match p_user_score p with Some v => 1 <= v <= 10 | None => True end /\
  tag_value (p_recommendation p) /\
  strip (p_review_date p) = p_review_date p.

(** A list of integers in non-decreasing order. *)
Fixpoint nondecreasing (l : list Z) : Prop :=
  match l with
  | [] => True
  | x :: l' => Forall (fun y => x <= y) l' /\ nondecreasing l'
  end.

(** The records are in page order, each from a page between 1 and the cap
    and no later than the current page. *)
Definition paged (l : locals) : Prop :=
  Forall (fun r => 1 <= page_number r <= page l /\ page_number r <= MAX_PAGES)
    (reviews l) /\
  nondecreasing (map page_number (reviews l)) /\
  1 <= page l.

(** [m] only appends calls to the trace that [tr] reads off the state, and
    every call it appends satisfies [ok]; this on return and on raise. *)
Definition adds {S A : Type} (tr : S -> list (event Elem))
  (ok : event Elem -> bool) (m : M S A) : Prop :=
  forall s, post m s
    (fun _ s' => exists evs, tr s' = (tr s ++ evs)%list /\ forallb ok evs = true)
    (fun _ s' => exists evs, tr s' = (tr s ++ evs)%list /\ forallb ok evs = true).

(** The trace of a run state. *)
Definition run_trace (st : Session * locals) : list (event Elem) := trace (fst st).

Definition is_quit (ev : event Elem) : bool :=
  match ev with EvQuit => true | _ => false end.

(** The query of [click_all_read_more]. *)
Definition is_readmore_query (ev : event Elem) : bool :=
  match ev with
  | EvFindElements None CSS_SELECTOR q => String.eqb q "a.js-readmore"
  | _ => false
  end.

Definition count_if (p : event Elem -> bool) (tr : list (event Elem)) : nat :=
  List.length (filter p tr).

(** [visits es delta]: the calls [delta] split into consecutive runs, one
    per element of [es], the i-th run starting with the i-th element. *)
Inductive visits : list (event Elem) -> list (event Elem) -> Prop :=
| visits_nil : visits [] []
| visits_cons (e : event Elem) (es mid rest : list (event Elem)) :
    visits es rest -> visits (e :: es) (e :: mid ++ rest).

(** Any call but [driver.quit()]. *)
Definition not_quit (ev : event Elem) : bool := negb (is_quit ev).

(** Any call but the force-unhide script. *)
Definition not_unhide (ev : event Elem) : bool := negb (is_unhide ev).

(** Any call but the query of [click_all_read_more]. *)
Definition not_readmore_query (ev : event Elem) : bool :=
  negb (is_readmore_query ev).

(** The six series names of the two tables. *)
Definition KNOWN_SERIES : list string :=
  [ "Naruto"; "Naruto Shippuden"; "One Piece"; "Bleach";
    "Bleach TYBW Part 1"; "Bleach TYBW Part 2" ].

(** A token the score loop passes over: no digit string, or an integer
    outside 1..10. *)
Definition passed_over (tok : string) : Prop :=
  isdigit tok = false \/
  exists v, to_int tok = Some v /\ ((1 <=? v) && (v <=? 10)) = false.


(** The rows that the harvest of one entry of [SERIES] may give: no more
    than its target, each under its name. *)
Definition series_rows (sr : series) (rows : list row) : Prop :=
  llen rows <= s_target_reviews sr /\
  Forall (fun r => series_component r = s_series_component sr) rows.

(** The two calls that [main] makes for one entry: a browser is started
    and the file of the series is written. *)
Definition series_calls {G W : Type} (pf : Platform G W) (scraper : Scraper)
  (out_dir : string) (sr : series) (rows : list row) : list os_event :=
  [OsChrome (headless scraper);
   OsToCsv (path_join pf out_dir (series_file (s_series_component sr))) rows].

(** The calls of the loop of [main] over entries that gave the rows
    [rss], in order. *)
Fixpoint batch_calls {G W : Type} (pf : Platform G W) (scraper : Scraper)
  (out_dir : string) (entries : list series) (rss : list (list row))
  : list os_event :=
  match entries, rss with
  | sr :: entries', rows :: rss' =>
      (series_calls pf scraper out_dir sr rows ++
       batch_calls pf scraper out_dir entries' rss')%list
  | _, _ => []
  end.

(** The calls of an entry whose harvest or whose file failed: the browser
    did not start, or the file of the series was not written. *)
Definition failed_calls {G W : Type} (pf : Platform G W) (scraper : Scraper)
  (out_dir : string) (sr : series) (calls : list os_event) : Prop :=
  calls = [OsChrome (headless scraper)] \/
  exists rows, series_rows sr rows /\
               calls = series_calls pf scraper out_dir sr rows.

(** The harvests of a list of entries, one after the other, from the
    system [g] to the system [g']: for each entry the system starts a
    browser, [scrape_reviews_for_series] run on that browser from its first
    call returns [rows], and the system writes exactly [rows] to the file of
    the series. *)
Inductive harvested {G : Type} (pf : Platform G W)
  (sha1_hexdigest : string -> string) (scraper : Scraper) (out_dir : string)
  : list series -> G -> list (list row) -> G -> Prop :=
| harvested_nil (g : G) :
    harvested pf sha1_hexdigest scraper out_dir [] g [] g
| harvested_cons (sr : series) (entries : list series) (g g1 g2 g3 : G)
    (w : W) (rows : list row) (s' : Session) (rss : list (list row)) :
    p_chrome pf (headless scraper) g = (Ok w, g1) ->
    scrape_reviews_for_series drv sha1_hexdigest scraper
      (s_series_component sr) (s_reviews_url sr) (s_target_reviews sr)
      (Build_session w []) = Some (rows, s') ->
    p_to_csv pf (path_join pf out_dir (series_file (s_series_component sr)))
      rows g1 = (Ok tt, g2) ->
    harvested pf sha1_hexdigest scraper out_dir entries g2 rss g3 ->
    harvested pf sha1_hexdigest scraper out_dir (sr :: entries) g (rows :: rss) g3.

(** The scraper and the directory that [main] builds. *)
Definition MAIN_SCRAPER : Scraper := {| headless := true; delay := 2000 |}.
Definition OUT_DIR {G W : Type} (pf : Platform G W) : string :=
  path_join pf "data" "raw".
Definition ALL_PATH {G W : Type} (pf : Platform G W) : string :=
  path_join pf (OUT_DIR pf) "all_reviews_raw.csv".

(** [time.sleep] accepts the length: a finite float that is not negative
    and that the clock can hold. *)
Definition sleeps (secs : pyfloat) : Prop :=
  exists ms, secs = Finite ms /\ 0 <= ms <= SLEEP_MAX.

(** The call writes the file [path]. *)
Definition writes_to (path : string) (ev : os_event) : bool :=
  match ev with
  | OsToCsv p _ => String.eqb p path
  | _ => false
  end.

(** None of the calls writes the file [path]. *)
Definition spares (path : string) (calls : list os_event) : Prop :=
  forallb (fun ev => negb (writes_to path ev)) calls = true.

End Vocabulary.

(* ===================================================================== *)
(** ** Checks of the string functions *)
(* ===================================================================== *)

Example clean_review_text_collapses :
  clean_review_text (String TAB "a  b" ++ String LF (String LF "c ")) = "a b c".
Proof. reflexivity. Qed.

Example of_int_examples :
  of_int 0 = "0" /\ of_int 121 = "121" /\ of_int (-5) = "-5".
Proof. repeat split; reflexivity. Qed.

Example split_example : split "  7 /  10 " = ["7"; "/"; "10"].
Proof. reflexivity. Qed.

(* ===================================================================== *)
(** ** Reasoning rules for [post] *)
(* ===================================================================== *)

Section PostRules.

Context {S : Type}.

Lemma post_ret {A} (a : A) (s : S) Q E : Q a s -> post (ret a) s Q E.
Proof. intro H. exact H. Qed.

Lemma post_raise {A} (e : exn) (s : S) (Q : A -> S -> Prop) E :
  E e s -> post (raise e) s Q E.
Proof. intro H. exact H. Qed.

Lemma post_bind {A B} (m : M S A) (k : A -> M S B) (s : S) Q E :
  post m s (fun a s' => post (k a) s' Q E) E -> post (bind m k) s Q E.
Proof.
  unfold post, bind. destruct (m s) as [[a | e] s']; intro H; exact H.
Qed.

Lemma post_try {A} (m : M S A) (h : exn -> M S A) (s : S) Q E :
  post m s Q (fun e s' => post (h e) s' Q E) -> post (try_except m h) s Q E.
Proof.
  unfold post, try_except. destruct (m s) as [[a | e] s']; intro H; exact H.
Qed.

Lemma post_weaken {A} (m : M S A) (s : S) (Q Q' : A -> S -> Prop)
  (E E' : exn -> S -> Prop) :
  post m s Q E ->
  (forall a s', Q a s' -> Q' a s') ->
  (forall e s', E e s' -> E' e s') ->
  post m s Q' E'.
Proof.
  unfold post. destruct (m s) as [[a | e] s']; intros H HQ HE; auto.
Qed.

Lemma post_and {A} (m : M S A) (s : S) (Q Q' : A -> S -> Prop)
  (E E' : exn -> S -> Prop) :
  post m s Q E -> post m s Q' E' ->
  post m s (fun a s' => Q a s' /\ Q' a s') (fun e s' => E e s' /\ E' e s').
Proof.
  unfold post. destruct (m s) as [[a | e] s']; intros H H'; split; assumption.
Qed.

Lemma post_trivial {A} (m : M S A) (s : S) :
  post m s (fun _ _ => True) (fun _ _ => True).
Proof. unfold post. destruct (m s) as [[a | e] s']; exact I. Qed.

(** A [for] loop keeps an invariant [I] of its payload and state; a [break]
    may leave it for [Q]. *)
Lemma post_for_in {X A} (body : X -> A -> M S (ctl A))
  (I Q : A -> S -> Prop) (E : exn -> S -> Prop) :
  (forall x acc s, I acc s ->
     post (body x acc) s
       (fun c s' => match c with Next a => I a s' | Break a => Q a s' end) E) ->
  (forall acc s, I acc s -> Q acc s) ->
  forall xs acc s, I acc s -> post (for_in xs body acc) s Q E.
Proof.
  intros Hbody Hend xs. induction xs as [| x xs IH]; intros acc s HI.
  - apply post_ret. auto.
  - cbn [for_in]. apply post_bind.
    eapply post_weaken; [apply (Hbody x acc s HI) | | auto].
    intros [a | a] s' H; [apply IH; exact H | apply post_ret; exact H].
Qed.

(** From [post] to the equation of a run that returned. *)
Lemma post_total {A} (m : M S A) :
  (forall s, post m s (fun _ _ => True) (fun _ _ => False)) -> total m.
Proof.
  intros H s. specialize (H s). unfold post in H.
  destruct (m s) as [[a | e] s']; [eauto | contradiction].
Qed.

Lemma total_post {A} (m : M S A) (s : S) :
  total m -> post m s (fun _ _ => True) (fun _ _ => False).
Proof.
  intros H. destruct (H s) as (a & s' & Heq). unfold post. rewrite Heq. exact I.
Qed.

(** A handler that returns makes the whole [try] statement return. *)
Lemma post_try_returns {A} (m : M S A) (a0 : A) (s : S) :
  post (try_except m (fun _ => ret a0)) s (fun _ _ => True) (fun _ _ => False).
Proof. apply post_try. eapply post_weaken; [apply post_trivial | auto | auto]. Qed.

End PostRules.

Section LiftRules.

Context {S F : Type}.

(** A lifted computation leaves the second component alone. *)
Lemma post_lift {A} (m : M S A) (st : S * F) (Qa : A -> Prop) (Ee : exn -> Prop) :
  post m (fst st) (fun a _ => Qa a) (fun e _ => Ee e) ->
  post (lift m) st
    (fun a st' => snd st' = snd st /\ Qa a)
    (fun e st' => snd st' = snd st /\ Ee e).
Proof.
  unfold post, lift. destruct (m (fst st)) as [[a | e] s']; cbn; auto.
Qed.

Lemma post_get_locals (st : S * F) (Q : F -> S * F -> Prop) E :
  Q (snd st) st -> post get_locals st Q E.
Proof. intro H. exact H. Qed.

Lemma post_set_locals (f : F -> F) (st : S * F) (Q : unit -> S * F -> Prop) E :
  Q tt (fst st, f (snd st)) -> post (set_locals f) st Q E.
Proof. intro H. exact H. Qed.

End LiftRules.

(* ===================================================================== *)
(** ** Facts about the helpers *)
(* ===================================================================== *)

(** Skip one statement whose value and effect do not matter to the goal. *)
Ltac post_skip :=
  apply post_bind;
  eapply post_weaken; [apply post_trivial | intros ? ? _ | intros; exact I].

(** Arithmetic with the two caps written out. *)
Ltac caps_lia := unfold MAX_PAGES, MAX_EMPTY_PAGES in *; lia.

Section HelperFacts.

Context {W Elem : Type}.
Variable drv : WebDriver W Elem.
Variable sha1_hexdigest : string -> string.
Variable self : Scraper.

Abbreviation Session := (session W Elem).

(** [parse_review_block] never raises: its outermost [except] returns. *)
Lemma parse_review_block_returns (block : Elem) (s : Session) :
  post (parse_review_block drv block) s (fun _ _ => True) (fun _ _ => False).
Proof. apply post_try_returns. Qed.

(** The link loop of [_goto_next_page] returns from the function with
    [(True, page + 1)] or falls through. *)
Lemma click_more_reviews_result (pg : Z) (links : list Elem) (s : Session) :
  post (click_more_reviews drv self pg links) s
    (fun r _ => r = None \/ r = Some (true, pg + 1))
    (fun _ _ => True).
Proof.
  unfold click_more_reviews.
  apply post_for_in with (I := fun acc _ => acc = None); [| auto | reflexivity].
  intros a acc s0 _.
  apply post_bind.
  eapply post_weaken; [apply post_trivial | | auto].
  intros [|] s1 _.
  - do 6 post_skip. apply post_ret. right. reflexivity.
  - apply post_ret. reflexivity.
Qed.

Lemma goto_next_page_result (reviews_url : string) (pg : Z) (s : Session) :
  post (_goto_next_page drv self reviews_url pg) s
    (fun r _ => r = (true, pg + 1))
    (fun _ _ => True).
Proof.
  unfold _goto_next_page.
  apply post_bind.
  apply post_weaken with
    (Q := fun (r : option (bool * Z)) (_ : Session) => r = None \/ r = Some (true, pg + 1))
    (E := fun _ _ => False).
  - apply post_try. apply post_bind.
    eapply post_weaken; [apply post_trivial | | ].
    + intros links s1 _.
      eapply post_weaken; [apply click_more_reviews_result | auto | ].
      intros e s2 _. apply post_ret. left. reflexivity.
    + intros e s1 _. apply post_ret. left. reflexivity.
  - intros r s1 [-> | ->].
    + do 4 post_skip. apply post_ret. reflexivity.
    + apply post_ret. reflexivity.
  - intros e s1 [].
Qed.

(** *** The paging loop *)


Lemma extends_refl (l : locals) : extends l l.
Proof. exists []. symmetry. apply app_nil_r. Qed.

Lemma extends_trans (l0 l1 l2 : locals) :
  extends l0 l1 -> extends l1 l2 -> extends l0 l2.
Proof.
  intros [m1 H1] [m2 H2]. exists (m1 ++ m2)%list.
  rewrite H2, H1. symmetry. apply app_assoc.
Qed.

Lemma extends_same_reviews (l0 l : locals) :
  reviews l = reviews l0 -> extends l0 l.
Proof. intro H. exists []. rewrite H. symmetry. apply app_nil_r. Qed.

Lemma llen_snoc {A} (xs : list A) (x : A) : llen (xs ++ [x]) = llen xs + 1.
Proof. unfold llen. rewrite length_app. cbn. lia. Qed.

Lemma llen_nonneg {A} (xs : list A) : 0 <= llen xs.
Proof. unfold llen. lia. Qed.

(** A lifted helper changes no local variable, whatever it returns. *)
Lemma post_lift_any {A} (m : M Session A) (st : Session * locals) :
  post (lift m) st
    (fun _ st' => snd st' = snd st) (fun _ st' => snd st' = snd st).
Proof.
  eapply post_weaken.
  - apply post_lift with (Qa := fun _ => True) (Ee := fun _ => True).
    apply post_trivial.
  - intros a st' [H _]. exact H.
  - intros e st' [H _]. exact H.
Qed.

Lemma parse_blocks_spec (name : string) (t : Z) (blocks : list Elem)
  (s : Session) (l0 : locals) :
  llen (reviews l0) <= t ->
  post (parse_blocks drv sha1_hexdigest name t blocks) (s, l0)
    (fun _ st' =>
       llen (reviews (snd st')) <= t /\ extends l0 (snd st') /\
       page (snd st') = page l0 /\
       consecutive_empty (snd st') = consecutive_empty l0)
    (fun _ _ => False).
Proof.
  intro Hle. unfold parse_blocks.
  apply post_for_in with
    (I := fun (_ : unit) (st' : Session * locals) =>
       llen (reviews (snd st')) <= t /\ extends l0 (snd st') /\
       page (snd st') = page l0 /\
       consecutive_empty (snd st') = consecutive_empty l0).
  - intros block [] st (Hlen & Hext & Hpg & Hce).
    apply post_bind, post_get_locals.
    destruct (t <=? llen (reviews (snd st))) eqn:Hfull.
    + apply post_ret. auto.
    + apply Z.leb_gt in Hfull.
      apply post_bind.
      eapply post_weaken.
      * apply post_lift with (Qa := fun _ => True) (Ee := fun _ => False).
        apply parse_review_block_returns.
      * intros [p |] st' [Hsame _]; cbn beta.
        -- apply post_bind, post_set_locals, post_ret. cbn.
           rewrite Hsame. cbn. rewrite llen_snoc.
           repeat split; try lia; try assumption.
           eapply extends_trans; [exact Hext |].
           eexists. reflexivity.
        -- apply post_ret. rewrite Hsame. auto.
      * intros e st' [_ []].
  - auto.
  - cbn. repeat split; try lia. apply extends_refl.
Qed.

Lemma advance_spec (reviews_url : string) (t : Z) (l0 : locals)
  (st : Session * locals) :
  extends l0 (snd st) -> llen (reviews (snd st)) < t ->
  page (snd st) = page l0 -> page l0 <= MAX_PAGES ->
  0 <= consecutive_empty (snd st) < MAX_EMPTY_PAGES ->
  post (advance drv self reviews_url) st
    (fun c st' => step_ok t l0 c (snd st'))
    (fun _ st' => fault_ok t l0 (snd st')).
Proof.
  intros Hext Hlen Hpg Hcap Hce. unfold advance.
  apply post_bind, post_get_locals.
  apply post_bind.
  eapply post_weaken.
  - apply post_lift with
      (Qa := fun r => r = (true, page (snd st) + 1)) (Ee := fun _ => True).
    apply goto_next_page_result.
  - intros r st' [Hsame ->]. cbn beta.
    apply post_bind, post_set_locals. cbn [fst snd negb].
    apply post_ret. rewrite Hsame. split; cbn.
    + exact Hext.
    + repeat split; try lia.
  - intros e st' [Hsame _]. rewrite Hsame.
    unfold fault_ok. repeat split; try lia; assumption.
Qed.

Lemma loop_body_spec (name reviews_url : string) (t : Z)
  (s : Session) (l0 : locals) :
  llen (reviews l0) < t -> page l0 <= MAX_PAGES ->
  0 <= consecutive_empty l0 < MAX_EMPTY_PAGES ->
  post (loop_body drv sha1_hexdigest self name reviews_url t) (s, l0)
    (fun c st' => step_ok t l0 c (snd st'))
    (fun _ st' => fault_ok t l0 (snd st')).
Proof.
  intros Hlen Hcap Hce. unfold loop_body, handle_blocks.
  assert (Hfault : fault_ok t l0 l0).
  { unfold fault_ok. repeat split; try lia. apply extends_refl. }
  apply post_bind.
  eapply post_weaken; [apply post_lift_any | | intros e st' ->; exact Hfault].
  intros ? st1 H1. cbn in H1.
  apply post_bind.
  eapply post_weaken; [apply post_lift_any | | intros e st' ->; rewrite H1; exact Hfault].
  intros ? st2 H2. cbn in H2. rewrite H1 in H2.
  apply post_bind.
  eapply post_weaken; [apply post_lift_any | | intros e st' ->; rewrite H2; exact Hfault].
  intros ? st3 H3. cbn in H3. rewrite H2 in H3.
  apply post_bind.
  eapply post_weaken; [apply post_lift_any | | intros e st' ->; rewrite H3; exact Hfault].
  intros blocks st4 H4. cbn in H4. rewrite H3 in H4.
  destruct (is_nil blocks).
  - (* no block on the page *)
    apply post_bind, post_set_locals.
    apply post_bind, post_get_locals. cbn. rewrite H4. cbn.
    destruct (MAX_EMPTY_PAGES <=? consecutive_empty l0 + 1) eqn:Hstreak.
    + apply Z.leb_le in Hstreak. apply post_ret. split; cbn.
      * apply extends_same_reviews. reflexivity.
      * repeat split. lia.
    + apply Z.leb_gt in Hstreak.
      apply advance_spec; cbn; try lia.
      apply extends_same_reviews. reflexivity.
  - (* at least one block *)
    apply post_bind, post_set_locals.
    apply post_bind.
    destruct st4 as [s4 l4]. cbn in H4. subst l4. cbn.
    eapply post_weaken.
    + apply parse_blocks_spec. cbn. lia.
    + intros ? st5 (Hle & Hext & Hpg & Hce5). cbn in Hext, Hpg, Hce5.
      assert (Hext0 : extends l0 (snd st5)).
      { destruct Hext as [more Hm]. exists more. exact Hm. }
      apply post_bind, post_get_locals.
      destruct (t <=? llen (reviews (snd st5))) eqn:Hfull.
      * apply Z.leb_le in Hfull. apply post_ret. split; [exact Hext0 |].
        repeat split; try lia.
      * apply Z.leb_gt in Hfull.
        apply advance_spec; try lia; try assumption.
    + intros e st5 [].
Qed.

Lemma paging_loop_spec (name reviews_url : string) (t : Z) :
  forall (fuel : nat) (s : Session) (l0 : locals),
    page l0 <= MAX_PAGES + 1 ->
    0 <= consecutive_empty l0 < MAX_EMPTY_PAGES ->
    MAX_PAGES + 2 - page l0 <= Z.of_nat fuel ->
    post (paging_loop drv sha1_hexdigest self fuel name reviews_url t) (s, l0)
      (fun r st' => exists x, r = Some x /\ exit_ok t l0 x (snd st'))
      (fun _ st' => fault_ok t l0 (snd st')).
Proof.
  induction fuel as [| fuel IH]; intros s l0 Hpg Hce Hfuel.
  - exfalso. change (Z.of_nat 0) with 0 in Hfuel. caps_lia.
  - cbn [paging_loop]. apply post_bind, post_get_locals. cbn [snd].
    destruct (llen (reviews l0) <? t) eqn:Hlt; cbn [negb].
    2:{ apply Z.ltb_ge in Hlt. apply post_ret. exists CondTarget.
        split; [reflexivity |]. unfold exit_ok. cbn [snd].
        repeat split; try caps_lia. apply extends_refl. }
    apply Z.ltb_lt in Hlt.
    destruct (page l0 <=? MAX_PAGES) eqn:Hcap; cbn [negb].
    2:{ apply Z.leb_gt in Hcap. apply post_ret. exists CondPages.
        split; [reflexivity |]. unfold exit_ok. cbn [snd].
        repeat split; try caps_lia. apply extends_refl. }
    apply Z.leb_le in Hcap.
    apply post_bind.
    eapply post_weaken; [apply loop_body_spec; assumption | | ].
    + intros [| x] [s1 l1] [Hext Hstep]; cbn [snd] in *.
      * destruct Hstep as (Hlt1 & Hpg1 & Hce1).
        eapply post_weaken; [apply IH; caps_lia | | ].
        -- intros r st' (x & -> & Hx1 & Hx2 & Hx3 & Hx4). exists x.
           split; [reflexivity |].
           split; [eapply extends_trans; eassumption |].
           split; [caps_lia |]. split; [caps_lia |].
           destruct x; try assumption.
           destruct Hx4 as [_ Hge]. caps_lia.
        -- intros e st' (Hx1 & Hx2 & Hx3 & Hx4).
           split; [eapply extends_trans; eassumption |].
           repeat split; try caps_lia.
      * apply post_ret. exists x. split; [reflexivity |].
        unfold exit_ok. cbn [snd].
        destruct x; try contradiction.
        -- destruct Hstep as (Hrv & Hpg1 & Hce1).
           rewrite Hrv, Hpg1, Hce1.
           repeat split; try caps_lia; try assumption; caps_lia.
        -- destruct Hstep as (Hrv & Hpg1 & Hce1).
           rewrite Hpg1, Hce1.
           repeat split; try caps_lia; try assumption; caps_lia.
    + intros e st' (Hx1 & Hx2 & Hx3 & Hx4).
      repeat split; try caps_lia; assumption.
Qed.

(** One evaluation of the [while] test, written out. *)
Lemma paging_loop_step (fuel : nat) (name reviews_url : string) (t : Z)
  (s : Session) (l : locals) :
  paging_loop drv sha1_hexdigest self (S fuel) name reviews_url t (s, l) =
  if negb (llen (reviews l) <? t) then (Ok (Some CondTarget), (s, l))
  else if negb (page l <=? MAX_PAGES) then (Ok (Some CondPages), (s, l))
  else
    match loop_body drv sha1_hexdigest self name reviews_url t (s, l) with
    | (Ok Continue, st1) =>
        paging_loop drv sha1_hexdigest self fuel name reviews_url t st1
    | (Ok (Stop x), st1) => (Ok (Some x), st1)
    | (Raise e, st1) => (Raise e, st1)
    end.
Proof.
  cbn [paging_loop]. unfold bind at 1. unfold get_locals. cbn [snd].
  destruct (negb (llen (reviews l) <? t)); [reflexivity |].
  destruct (negb (page l <=? MAX_PAGES)); [reflexivity |].
  unfold bind.
  destruct (loop_body drv sha1_hexdigest self name reviews_url t (s, l))
    as [[[| x] | e] st1]; reflexivity.
Qed.

(** A loop that ended within its bound ends the same way under a larger one. *)
Lemma paging_loop_more_fuel (name reviews_url : string) (t : Z) :
  forall (fuel : nat) (st : Session * locals),
    fst (paging_loop drv sha1_hexdigest self fuel name reviews_url t st) <> Ok None ->
    paging_loop drv sha1_hexdigest self (S fuel) name reviews_url t st =
    paging_loop drv sha1_hexdigest self fuel name reviews_url t st.
Proof.
  induction fuel as [| fuel IH]; intros [s l] Hdone.
  - exfalso. apply Hdone. reflexivity.
  - rewrite (paging_loop_step (S fuel)). rewrite (paging_loop_step fuel) in Hdone |- *.
    destruct (negb (llen (reviews l) <? t)); [reflexivity |].
    destruct (negb (page l <=? MAX_PAGES)); [reflexivity |].
    destruct (loop_body drv sha1_hexdigest self name reviews_url t (s, l))
      as [[[| x] | e] st1]; try reflexivity.
    apply IH. exact Hdone.
Qed.

Lemma paging_loop_fuel_irrelevant (name reviews_url : string) (t : Z)
  (fuel : nat) (st : Session * locals) (k : nat) :
  fst (paging_loop drv sha1_hexdigest self fuel name reviews_url t st) <> Ok None ->
  paging_loop drv sha1_hexdigest self (k + fuel) name reviews_url t st =
  paging_loop drv sha1_hexdigest self fuel name reviews_url t st.
Proof.
  intro Hdone. induction k as [| k IHk]; [reflexivity |].
  cbn [Nat.add]. rewrite paging_loop_more_fuel; [exact IHk |].
  rewrite IHk. exact Hdone.
Qed.

(** *** The whole run *)


(** [harvest] in terms of how the [try] block ended: the [except] clause
    keeps the locals, the [finally] clause closes the session. *)
Lemma harvest_unfold (fuel : nat) (name reviews_url : string) (t : Z)
  (s0 : Session) :
  harvest drv sha1_hexdigest self fuel name reviews_url t s0 =
  match try_block drv sha1_hexdigest self fuel name reviews_url t
          (s0, initial_locals) with
  | (Ok (Some x), (s1, l1)) =>
      Some {| exit := x; final := l1; closed := quit_session drv s1 |}
  | (Ok None, _) => None
  | (Raise e, (s1, l1)) =>
      Some {| exit := Raised e; final := l1; closed := quit_session drv s1 |}
  end.
Proof.
  unfold harvest, guarded_run, try_finally, try_except.
  destruct (try_block drv sha1_hexdigest self fuel name reviews_url t
              (s0, initial_locals)) as [[[x |] | e] [s1 l1]]; reflexivity.
Qed.


Lemma try_block_spec (fuel : nat) (name reviews_url : string) (t : Z)
  (s0 : Session) :
  (121 <= fuel)%nat ->
  post (try_block drv sha1_hexdigest self fuel name reviews_url t)
    (s0, initial_locals)
    (fun r st' => exists x, r = Some x /\ exit_ok t initial_locals x (snd st'))
    (fun _ st' =>
       snd st' = initial_locals \/ fault_ok t initial_locals (snd st')).
Proof.
  intro Hfuel. unfold try_block. apply post_bind.
  eapply post_weaken; [apply post_lift_any | | ].
  - intros ? [s1 l1] H1. cbn in H1. subst l1.
    eapply post_weaken.
    + apply paging_loop_spec; cbn; unfold MAX_PAGES, MAX_EMPTY_PAGES; lia.
    + auto.
    + auto.
  - intros e st' H. left. exact H.
Qed.

Lemma harvest_spec (fuel : nat) (name reviews_url : string) (t : Z)
  (s0 : Session) :
  (121 <= fuel)%nat ->
  exists o,
    harvest drv sha1_hexdigest self fuel name reviews_url t s0 = Some o /\
    outcome_ok t o.
Proof.
  intro Hfuel. rewrite harvest_unfold.
  pose proof (try_block_spec fuel name reviews_url t s0 Hfuel) as H.
  unfold post in H.
  destruct (try_block drv sha1_hexdigest self fuel name reviews_url t
              (s0, initial_locals)) as [[r | e] [s1 l1]]; cbn [snd] in H.
  - destruct H as (x & -> & Hx). eexists. split; [reflexivity |].
    unfold outcome_ok. cbn.
    destruct x; try exact Hx.
    destruct Hx as (_ & _ & _ & []).
  - eexists. split; [reflexivity |]. exact H.
Qed.

(** *** What every harvested record satisfies *)

Section RowInvariant.

Variable name : string.

(** [Pp] holds of every block that [parse_review_block] accepts, and [P] of
    the record made from such a block. *)
Variable Pp : parsed -> Prop.
Variable P : row -> Prop.

Hypothesis parse_ok : forall (block : Elem) (s : Session),
  post (parse_review_block drv block) s
    (fun r _ => match r with Some p => Pp p | None => True end)
    (fun _ _ => True).

Hypothesis row_ok : forall (pg : Z) (p : parsed),
  Pp p -> P (make_row sha1_hexdigest name pg p).


Lemma grows_refl (l0 l : locals) : reviews l = reviews l0 -> grows P l0 l.
Proof.
  intro H. exists []. split; [| constructor].
  rewrite H. symmetry. apply app_nil_r.
Qed.

Lemma grows_trans (l0 l1 l2 : locals) :
  grows P l0 l1 -> grows P l1 l2 -> grows P l0 l2.
Proof.
  intros (m1 & H1 & F1) (m2 & H2 & F2). exists (m1 ++ m2)%list. split.
  - rewrite H2, H1. symmetry. apply app_assoc.
  - apply Forall_app. split; assumption.
Qed.

Lemma grows_extends (l0 l : locals) : grows P l0 l -> extends l0 l.
Proof. intros (more & H & _). exists more. exact H. Qed.

Lemma parse_blocks_grows (t : Z) (blocks : list Elem) (st : Session * locals) :
  post (parse_blocks drv sha1_hexdigest name t blocks) st
    (fun _ st' => grows P (snd st) (snd st'))
    (fun _ st' => grows P (snd st) (snd st')).
Proof.
  unfold parse_blocks.
  apply post_for_in with
    (I := fun (_ : unit) (st' : Session * locals) => grows P (snd st) (snd st')).
  - intros block [] st1 Hg.
    apply post_bind, post_get_locals.
    destruct (t <=? llen (reviews (snd st1))).
    + apply post_ret. exact Hg.
    + apply post_bind.
      eapply post_weaken.
      * apply post_lift with
          (Qa := fun r => match r with Some p => Pp p | None => True end)
          (Ee := fun _ => True).
        apply parse_ok.
      * intros [p |] st2 [Hsame Hp]; cbn beta.
        -- apply post_bind, post_set_locals, post_ret. cbn [snd].
           eapply grows_trans; [exact Hg |].
           exists [make_row sha1_hexdigest name (page (snd st1)) p].
           split; [rewrite Hsame; reflexivity |].
           constructor; [apply row_ok; exact Hp | constructor].
        -- apply post_ret. rewrite Hsame. exact Hg.
      * intros e st2 [Hsame _]. rewrite Hsame. exact Hg.
  - auto.
  - apply grows_refl. reflexivity.
Qed.

Lemma advance_grows (reviews_url : string) (l0 : locals) (st : Session * locals) :
  grows P l0 (snd st) ->
  post (advance drv self reviews_url) st
    (fun _ st' => grows P l0 (snd st'))
    (fun _ st' => grows P l0 (snd st')).
Proof.
  intro Hg. unfold advance.
  apply post_bind, post_get_locals.
  apply post_bind.
  eapply post_weaken; [apply post_lift_any | | ].
  - intros r st1 Hsame. cbn beta in Hsame.
    apply post_bind, post_set_locals.
    destruct (negb (fst r)); apply post_ret; cbn [snd];
      (eapply grows_trans; [exact Hg |]); apply grows_refl;
      rewrite Hsame; reflexivity.
  - intros e st1 Hsame. cbn beta in Hsame. rewrite Hsame. exact Hg.
Qed.

Lemma loop_body_grows (reviews_url : string) (t : Z) (st : Session * locals) :
  post (loop_body drv sha1_hexdigest self name reviews_url t) st
    (fun _ st' => grows P (snd st) (snd st'))
    (fun _ st' => grows P (snd st) (snd st')).
Proof.
  unfold loop_body, handle_blocks.
  assert (Hself : forall st1 : Session * locals,
             snd st1 = snd st -> grows P (snd st) (snd st1)).
  { intros st1 H. apply grows_refl. rewrite H. reflexivity. }
  apply post_bind.
  eapply post_weaken; [apply post_lift_any | | intros e st' H; apply Hself; exact H].
  intros ? st1 H1. cbn in H1.
  apply post_bind.
  eapply post_weaken; [apply post_lift_any | |
    intros e st' H; apply Hself; rewrite H; exact H1].
  intros ? st2 H2. cbn in H2. rewrite H1 in H2.
  apply post_bind.
  eapply post_weaken; [apply post_lift_any | |
    intros e st' H; apply Hself; rewrite H; exact H2].
  intros ? st3 H3. cbn in H3. rewrite H2 in H3.
  apply post_bind.
  eapply post_weaken; [apply post_lift_any | |
    intros e st' H; apply Hself; rewrite H; exact H3].
  intros blocks st4 H4. cbn in H4. rewrite H3 in H4.
  destruct (is_nil blocks).
  - apply post_bind, post_set_locals.
    apply post_bind, post_get_locals. cbn [snd fst].
    destruct (MAX_EMPTY_PAGES <=? _).
    + apply post_ret. apply grows_refl. cbn. rewrite H4. reflexivity.
    + apply advance_grows. apply grows_refl. cbn. rewrite H4. reflexivity.
  - apply post_bind, post_set_locals.
    apply post_bind.
    assert (Hg4 : forall st5 : Session * locals,
               grows P (snd (fst st4, set_consecutive_empty 0 (snd st4))) (snd st5) ->
               grows P (snd st) (snd st5)).
    { intros st5 Hg. eapply grows_trans; [| exact Hg].
      apply grows_refl. cbn. rewrite H4. reflexivity. }
    eapply post_weaken; [apply parse_blocks_grows | | intros e st5 Hg; apply Hg4; exact Hg].
    intros ? st5 Hg. apply Hg4 in Hg.
    apply post_bind, post_get_locals.
    destruct (t <=? llen (reviews (snd st5))).
    + apply post_ret. exact Hg.
    + apply advance_grows. exact Hg.
Qed.

Lemma paging_loop_grows (reviews_url : string) (t : Z) :
  forall (fuel : nat) (st : Session * locals),
    post (paging_loop drv sha1_hexdigest self fuel name reviews_url t) st
      (fun _ st' => grows P (snd st) (snd st'))
      (fun _ st' => grows P (snd st) (snd st')).
Proof.
  induction fuel as [| fuel IH]; intros st.
  - apply post_ret. apply grows_refl. reflexivity.
  - cbn [paging_loop]. apply post_bind, post_get_locals.
    destruct (negb (llen (reviews (snd st)) <? t)).
    { apply post_ret. apply grows_refl. reflexivity. }
    destruct (negb (page (snd st) <=? MAX_PAGES)).
    { apply post_ret. apply grows_refl. reflexivity. }
    apply post_bind.
    eapply post_weaken; [apply loop_body_grows | | auto].
    intros [| x] st1 Hg.
    + eapply post_weaken; [apply IH | | ];
        intros ? st2 Hg2; eapply grows_trans; eassumption.
    + apply post_ret. exact Hg.
Qed.

(** Every record of a finished run satisfies [P]. *)
Lemma harvest_rows (fuel : nat) (reviews_url : string) (t : Z) (s0 : Session)
  (o : @outcome W Elem) :
  harvest drv sha1_hexdigest self fuel name reviews_url t s0 = Some o ->
  Forall P (reviews (final o)).
Proof.
  rewrite harvest_unfold.
  assert (H : post (try_block drv sha1_hexdigest self fuel name reviews_url t)
                (s0, initial_locals)
                (fun _ st' => Forall P (reviews (snd st')))
                (fun _ st' => Forall P (reviews (snd st')))).
  { unfold try_block. apply post_bind.
    eapply post_weaken; [apply post_lift_any | | ].
    - intros ? st1 H1. cbn in H1.
      eapply post_weaken; [apply paging_loop_grows | | ];
        intros ? st2 (more & Hm & HF); rewrite Hm, H1; exact HF.
    - intros e st1 H1. cbn in H1. rewrite H1. constructor. }
  unfold post in H.
  destruct (try_block drv sha1_hexdigest self fuel name reviews_url t
              (s0, initial_locals)) as [[[x |] | e] [s1 l1]];
    intro Heq; inversion Heq; subst; exact H.
Qed.

End RowInvariant.

End HelperFacts.

(* ===================================================================== *)
(** ** Expansion, seen in the trace *)
(* ===================================================================== *)

Section ExpansionFacts.

Context {W Elem : Type}.
Variable drv : WebDriver W Elem.

Abbreviation Session := (session W Elem).


Lemma count_unhide_snoc (tr : list (event Elem)) (ev : event Elem) :
  count_unhide (tr ++ [ev]) =
  (count_unhide tr + if is_unhide ev then 1 else 0)%nat.
Proof.
  unfold count_unhide. rewrite filter_app, length_app. cbn [filter].
  destruct (is_unhide ev); reflexivity.
Qed.


Lemma quiet_ret {A} (a : A) : quiet (ret a : M Session A).
Proof. intro s. apply post_ret. reflexivity. Qed.

Lemma quiet_raise {A} (e : exn) : quiet (@raise Session A e).
Proof. intro s. apply post_raise. reflexivity. Qed.

Lemma quiet_bind {A B} (m : M Session A) (k : A -> M Session B) :
  quiet m -> (forall a, quiet (k a)) -> quiet (bind m k).
Proof.
  intros Hm Hk s. apply post_bind.
  eapply post_weaken; [apply Hm | | auto].
  intros a s1 H1. eapply post_weaken; [apply Hk | | ];
    intros ? s2 H2; cbn beta in *; congruence.
Qed.

Lemma quiet_try {A} (m : M Session A) (h : exn -> M Session A) :
  quiet m -> (forall e, quiet (h e)) -> quiet (try_except m h).
Proof.
  intros Hm Hh s. apply post_try.
  eapply post_weaken; [apply Hm | auto | ].
  intros e s1 H1. eapply post_weaken; [apply Hh | | ];
    intros ? s2 H2; cbn beta in *; congruence.
Qed.

Lemma quiet_for_in {X A} (body : X -> A -> M Session (ctl A)) :
  (forall x acc, quiet (body x acc)) ->
  forall xs acc, quiet (for_in xs body acc).
Proof.
  intros Hbody xs. induction xs as [| x xs IH]; intros acc.
  - apply quiet_ret.
  - cbn [for_in]. apply quiet_bind; [apply Hbody |].
    intros [a | a]; [apply IH | apply quiet_ret].
Qed.

Lemma quiet_call {A} (ev : event Elem) (f : W -> result A * W) :
  is_unhide ev = false -> quiet (call ev f).
Proof.
  intros Hev s. unfold post, call.
  destruct (f (world s)) as [[a | e] w]; cbn [trace];
    rewrite count_unhide_snoc, Hev; apply Nat.add_0_r.
Qed.

Lemma quiet_sleep (secs : pyfloat) : quiet (sleep drv secs).
Proof.
  unfold sleep. destruct secs as [ms | | |]; try apply quiet_raise.
  destruct ((ms <? - SLEEP_MAX) || (SLEEP_MAX <? ms)); [apply quiet_raise |].
  destruct (ms <? 0); [apply quiet_raise |].
  apply quiet_call. reflexivity.
Qed.

Lemma quiet_total_quiet {A} (m : M Session A) : quiet_total m -> quiet m.
Proof.
  intros H s. eapply post_weaken; [apply H | auto | intros ? ? []].
Qed.

(** A [try] whose handler returns quietly returns quietly. *)
Lemma quiet_total_try {A} (m : M Session A) (a0 : A) :
  quiet m -> quiet_total (try_except m (fun _ => ret a0)).
Proof.
  intros Hm s. apply post_try.
  eapply post_weaken; [apply Hm | auto | ].
  intros e s1 H1. apply post_ret. exact H1.
Qed.

Lemma quiet_total_for_in {X A} (body : X -> A -> M Session (ctl A)) :
  (forall x acc, quiet_total (body x acc)) ->
  forall xs acc, quiet_total (for_in xs body acc).
Proof.
  intros Hbody xs acc s.
  apply post_for_in with
    (I := fun (_ : A) s' => count_unhide (trace s') = count_unhide (trace s));
    [| auto | reflexivity].
  intros x a s1 H1.
  eapply post_weaken; [apply Hbody | | auto].
  intros [a' | a'] s2 H2; cbn beta in *; congruence.
Qed.

(** Unfold the logged calls and close a [quiet] goal rule by rule. *)
Ltac quiet_steps :=
  unfold find_element, find_elements, text_of, get_attribute,
    execute_script, click, is_displayed;
  repeat first
    [ apply quiet_ret
    | apply quiet_raise
    | apply quiet_sleep
    | apply quiet_call; reflexivity
    | apply quiet_bind; [| intro]
    | apply quiet_try; [| intro]
    | apply quiet_for_in; intros
    | match goal with
      | |- quiet (if ?b then _ else _) => destruct b
      | |- quiet (match ?o with Some _ => _ | None => _ end) => destruct o
      end ].

Lemma read_text_quiet (block : Elem) : quiet_total (read_text drv block).
Proof.
  unfold read_text. apply quiet_total_for_in. intros sel acc.
  apply quiet_total_try. quiet_steps.
Qed.

Lemma reread_text_quiet (block : Elem) (t1 : string) :
  quiet_total (reread_text drv block t1).
Proof.
  unfold reread_text. apply quiet_total_for_in. intros sel acc.
  apply quiet_total_try. quiet_steps.
Qed.




(** The second reading keeps its argument or takes a strictly longer text. *)
Lemma reread_text_longer (block : Elem) (t1 : string) (s : Session) :
  post (reread_text drv block t1) s
    (fun t _ => t = t1 \/ len t1 < len t) (fun _ _ => False).
Proof.
  unfold reread_text.
  apply post_for_in with (I := fun acc (_ : Session) => acc = t1);
    [| auto | reflexivity].
  intros sel acc s1 ->.
  apply post_try. apply post_bind.
  eapply post_weaken; [apply post_trivial | | ].
  - intros el s2 _. apply post_bind.
    eapply post_weaken; [apply post_trivial | | ].
    + intros o s3 _.
      destruct (len t1 <? len (strip (or_empty o))) eqn:Hlonger; apply post_ret.
      * right. apply Z.ltb_lt. exact Hlonger.
      * reflexivity.
    + intros e s3 _. apply post_ret. reflexivity.
  - intros e s2 _. apply post_ret. reflexivity.
Qed.


(** [_expand_review_in_block] returns, and runs the force-unhide script on
    the block exactly once, as its last call. *)
Lemma expand_review_in_block_counts (block : Elem) (s : Session) :
  exists s',
    _expand_review_in_block drv block s = (Ok tt, s') /\
    count_unhide (trace s') = S (count_unhide (trace s)) /\
    last (trace s') EvQuit = EvScript JS_UNHIDE [block].
Proof.
  unfold _expand_review_in_block.
  assert (Hloop : quiet_total
            (for_in TOGGLE_SELECTORS
               (fun selector (_ : unit) =>
                  try_except
                    (elems <- find_elements drv (Some block) CSS_SELECTOR selector ;;
                     for_in elems
                       (fun e (_ : unit) =>
                          try_except
                            (execute_script drv JS_SCROLL_INTO_VIEW_TIGHT [e] ;;
                             sleep drv 50 ;;
                             execute_script drv JS_CLICK [e] ;;
                             sleep drv 80 ;;
                             ret (Next tt))
                            (fun _ => ret (Next tt)))
                       tt ;;
                     ret (Next tt))
                    (fun _ => ret (Next tt)))
               tt)).
  { apply quiet_total_for_in. intros selector acc.
    apply quiet_total_try. quiet_steps. }
  specialize (Hloop s). unfold post in Hloop. unfold bind at 1.
  match type of Hloop with
  | match ?run with _ => _ end => destruct run as [[[] | e] s1]
  end; [| contradiction].
  unfold try_except, execute_script, call.
  destruct (d_execute_script drv JS_UNHIDE [block] (world s1)) as [[[] | e] w];
    eexists; (split; [reflexivity |]); cbn [trace];
    rewrite count_unhide_snoc, last_last; cbn [is_unhide];
    rewrite String.eqb_refl, Hloop; (split; [lia | reflexivity]).
Qed.

Lemma is_empty_true (t : string) : is_empty t = true <-> t = "".
Proof. destruct t; cbn; split; congruence. Qed.


End ExpansionFacts.

(* ===================================================================== *)
(** ** The per-series run: count, termination, stop reason *)
(* ===================================================================== *)

(** A larger loop bound than [LOOP_FUEL] changes nothing. *)
Lemma harvest_fuel_irrelevant {W Elem : Type} (drv : WebDriver W Elem)
  (sha1_hexdigest : string -> string) (self : Scraper)
  (fuel : nat) (series_name reviews_url : string) (t : Z) (s0 : session W Elem) :
  (121 <= fuel)%nat ->
  harvest drv sha1_hexdigest self fuel series_name reviews_url t s0 =
  harvest drv sha1_hexdigest self LOOP_FUEL series_name reviews_url t s0.
Proof.
  intro Hfuel. rewrite !harvest_unfold.
  assert (Heq : try_block drv sha1_hexdigest self fuel series_name reviews_url t
                  (s0, initial_locals) =
                try_block drv sha1_hexdigest self LOOP_FUEL series_name reviews_url t
                  (s0, initial_locals)).
  { unfold try_block, bind.
    pose proof (post_lift_any (open_listing drv self reviews_url)
                  (s0, initial_locals)) as Hopen.
    unfold post in Hopen.
    destruct (lift (open_listing drv self reviews_url) (s0, initial_locals))
      as [[[] | e] [s1 l1]]; [| reflexivity].
    cbn in Hopen. subst l1.
    replace fuel with ((fuel - 121) + LOOP_FUEL)%nat by (unfold LOOP_FUEL; lia).
    apply paging_loop_fuel_irrelevant.
    pose proof (paging_loop_spec drv sha1_hexdigest self series_name reviews_url t
                  LOOP_FUEL s1 initial_locals) as Hloop.
    unfold post in Hloop.
    destruct (paging_loop drv sha1_hexdigest self LOOP_FUEL series_name
                reviews_url t (s1, initial_locals)) as [[r | e] st'].
    - destruct Hloop as (x & -> & _);
        [cbn; caps_lia | cbn; caps_lia | cbn; caps_lia |].
      cbn. discriminate.
    - cbn. discriminate. }
  rewrite Heq. reflexivity.
Qed.

(** C1. For every run of [scrape_reviews_for_series] with a target
    [t >= 0], the run returns a list of at most [t] records; and once the
    list holds [t] records the loop over the blocks of a page stops at once:
    it parses no further block and makes no further call. *)
Theorem harvest_never_exceeds_target {W Elem : Type} (drv : WebDriver W Elem)
  (sha1_hexdigest : string -> string) (self : Scraper)
  (series_name reviews_url : string) (t : Z) (s0 : session W Elem) :
  0 <= t ->
  (exists rows s',
     scrape_reviews_for_series drv sha1_hexdigest self series_name reviews_url t s0
       = Some (rows, s') /\
     0 <= llen rows <= t) /\
  (forall blocks s l,
     t <= llen (reviews l) ->
     parse_blocks drv sha1_hexdigest series_name t blocks (s, l) = (Ok tt, (s, l))).
Proof.
  intro Ht. split.
  - destruct (harvest_spec drv sha1_hexdigest self LOOP_FUEL series_name
                reviews_url t s0) as (o & Ho & Hok); [unfold LOOP_FUEL; lia |].
    unfold scrape_reviews_for_series. rewrite Ho.
    exists (reviews (final o)), (closed o). split; [reflexivity |].
    split; [apply llen_nonneg |].
    unfold outcome_ok in Hok.
    destruct (exit o).
    + destruct Hok as (_ & _ & _ & -> & _). cbn. exact Ht.
    + destruct Hok as (_ & _ & _ & Hlt & _). lia.
    + destruct Hok as (_ & _ & _ & Hlt & _). lia.
    + destruct Hok as (_ & _ & _ & []).
    + destruct Hok as (_ & _ & _ & Heq). lia.
    + destruct Hok as [-> | (_ & Hlt & _)]; [cbn; exact Ht | lia].
  - intros blocks s l Hfull. apply Z.leb_le in Hfull.
    destruct blocks as [| block blocks]; [reflexivity |].
    unfold parse_blocks. cbn [for_in]. unfold bind, get_locals. cbn [snd].
    rewrite Hfull. reflexivity.
Qed.

Lemma harvest_never_exceeds_target_witness :
  0 <= 3 /\
  exists rows s',
    scrape_reviews_for_series (Toy.driver Toy.three_pages) Toy.digest Toy.scraper
      "One Piece" "https://myanimelist.net/anime/21/One_Piece/reviews" 3 Toy.fresh
      = Some (rows, s') /\
    0 <= llen rows <= 3.
Proof.
  split; [lia |].
  apply (harvest_never_exceeds_target (Toy.driver Toy.three_pages) Toy.digest
           Toy.scraper "One Piece"
           "https://myanimelist.net/anime/21/One_Piece/reviews" 3 Toy.fresh).
  lia.
Defined.

(** C2. Every run of [scrape_reviews_for_series] terminates: whatever the
    browser does, [MAX_PAGES + 1 = 121] evaluations of the loop test are
    enough, a larger bound gives the same run, and the run ends with
    [page <= MAX_PAGES + 1] and [consecutive_empty <= MAX_EMPTY_PAGES]; the
    exit on the page cap is taken at page 121 and the exit on the empty
    streak at a streak of exactly 12. The two reasons: a page without
    blocks adds one to the streak and stops the loop when the streak reaches
    12, and every pass that goes on to a next page adds one to [page]. *)
Theorem scrape_terminates {W Elem : Type} (drv : WebDriver W Elem)
  (sha1_hexdigest : string -> string) (self : Scraper)
  (fuel : nat) (series_name reviews_url : string) (t : Z) (s0 : session W Elem) :
  (Z.to_nat (MAX_PAGES + 1) <= fuel)%nat ->
  (exists o,
     harvest drv sha1_hexdigest self fuel series_name reviews_url t s0 = Some o /\
     harvest drv sha1_hexdigest self LOOP_FUEL series_name reviews_url t s0 = Some o /\
     scrape_reviews_for_series drv sha1_hexdigest self series_name reviews_url t s0
       = Some (reviews (final o), closed o) /\
     1 <= page (final o) <= MAX_PAGES + 1 /\
     0 <= consecutive_empty (final o) <= MAX_EMPTY_PAGES /\
     (exit o = CondPages -> page (final o) = MAX_PAGES + 1) /\
     (exit o = BreakEmpty -> consecutive_empty (final o) = MAX_EMPTY_PAGES) /\
     exit o <> BreakNotOk) /\
  (forall s l,
     handle_blocks drv sha1_hexdigest self series_name reviews_url t [] (s, l) =
     if MAX_EMPTY_PAGES <=? consecutive_empty l + 1
     then (Ok (Stop BreakEmpty),
           (s, set_consecutive_empty (consecutive_empty l + 1) l))
     else advance drv self reviews_url
            (s, set_consecutive_empty (consecutive_empty l + 1) l)) /\
  (forall st,
     match advance drv self reviews_url st with
     | (Ok c, (_, l')) =>
         c = Continue /\ page l' = page (snd st) + 1 /\
         reviews l' = reviews (snd st) /\
         consecutive_empty l' = consecutive_empty (snd st)
     | (Raise _, (_, l')) => l' = snd st
     end).
Proof.
  intro Hfuel. change (Z.to_nat (MAX_PAGES + 1)) with 121%nat in Hfuel.
  split; [| split].
  - destruct (harvest_spec drv sha1_hexdigest self fuel series_name
                reviews_url t s0 Hfuel) as (o & Ho & Hok).
    exists o. split; [exact Ho |].
    assert (Ho' : harvest drv sha1_hexdigest self LOOP_FUEL series_name
                    reviews_url t s0 = Some o).
    { rewrite <- Ho. symmetry. apply harvest_fuel_irrelevant. exact Hfuel. }
    split; [exact Ho' |].
    split; [unfold scrape_reviews_for_series; rewrite Ho'; reflexivity |].
    unfold outcome_ok in Hok.
    destruct (exit o) eqn:Hexit.
    + destruct Hok as (_ & Hpg & Hce & _). cbn in Hpg.
      repeat split; try caps_lia; discriminate.
    + destruct Hok as (_ & Hpg & Hce & _ & Hcap). cbn in Hpg.
      repeat split; try caps_lia; try discriminate.
    + destruct Hok as (_ & Hpg & Hce & _ & Hstreak). cbn in Hpg.
      repeat split; try caps_lia; try discriminate.
    + destruct Hok as (_ & _ & _ & []).
    + destruct Hok as (_ & Hpg & Hce & _). cbn in Hpg.
      repeat split; try caps_lia; discriminate.
    + destruct Hok as [-> | (_ & _ & Hpg & Hce)]; cbn in *;
        repeat split; try caps_lia; discriminate.
  - intros s l. unfold handle_blocks. cbn [is_nil].
    unfold bind, set_locals, get_locals. cbn [fst snd consecutive_empty set_consecutive_empty].
    destruct (MAX_EMPTY_PAGES <=? consecutive_empty l + 1); reflexivity.
  - intros [s l]. unfold advance, bind, get_locals, lift. cbn [fst snd].
    pose proof (goto_next_page_result drv self reviews_url (page l) s) as Hgo.
    unfold post in Hgo.
    destruct (_goto_next_page drv self reviews_url (page l) s) as [[r | e] s'].
    + subst r. cbn. repeat split.
    + reflexivity.
Qed.

(** On a listing where no query ever finds a block, the run stops on the
    empty streak on page 12. *)
Lemma scrape_terminates_witness :
  (Z.to_nat (MAX_PAGES + 1) <= 121)%nat /\
  (exists o,
     harvest (Toy.driver Toy.blank) Toy.digest Toy.scraper 121
       "Bleach" "https://myanimelist.net/anime/269/Bleach/reviews" 400 Toy.fresh
       = Some o /\
     1 <= page (final o) <= MAX_PAGES + 1) /\
  option_map (fun o => (exit o, final o))
    (harvest (Toy.driver Toy.blank) Toy.digest Toy.scraper 121
       "Bleach" "https://myanimelist.net/anime/269/Bleach/reviews" 400 Toy.fresh)
  = Some (BreakEmpty, {| reviews := []; page := 12; consecutive_empty := 12 |}).
Proof.
  split; [vm_compute; lia |]. split; [| vm_compute; reflexivity].
  destruct (scrape_terminates (Toy.driver Toy.blank) Toy.digest Toy.scraper 121
              "Bleach" "https://myanimelist.net/anime/269/Bleach/reviews" 400
              Toy.fresh) as ((o & Ho & _ & _ & Hpg & _) & _).
  - vm_compute. lia.
  - exists o. split; assumption.
Defined.

(** C3. For a positive target [t], a run stops with reason TargetReached
    if and only if it holds exactly [t] records at its end: the exits on
    the page cap, on the empty streak and through the [except] clause are all
    taken with fewer than [t] records, and a run that reaches [t] records
    leaves through the target exit. *)
Theorem target_reached_iff {W Elem : Type} (drv : WebDriver W Elem)
  (sha1_hexdigest : string -> string) (self : Scraper)
  (series_name reviews_url : string) (t : Z) (s0 : session W Elem) :
  0 < t ->
  exists o,
    harvest drv sha1_hexdigest self LOOP_FUEL series_name reviews_url t s0 = Some o /\
    (stopped_reason (exit o) = TargetReached <-> llen (reviews (final o)) = t) /\
    (stopped_reason (exit o) <> TargetReached -> llen (reviews (final o)) < t).
Proof.
  intro Ht.
  destruct (harvest_spec drv sha1_hexdigest self LOOP_FUEL series_name
              reviews_url t s0) as (o & Ho & Hok); [unfold LOOP_FUEL; lia |].
  exists o. split; [exact Ho |].
  unfold outcome_ok in Hok.
  destruct (exit o); cbn [stopped_reason].
  - destruct Hok as (_ & _ & _ & _ & Hge). cbn in Hge. lia.
  - destruct Hok as (_ & _ & _ & Hlt & _).
    split; [split; [discriminate | lia] | intros _; exact Hlt].
  - destruct Hok as (_ & _ & _ & Hlt & _).
    split; [split; [discriminate | lia] | intros _; exact Hlt].
  - destruct Hok as (_ & _ & _ & []).
  - destruct Hok as (_ & _ & _ & Heq).
    split; [split; [intros _; exact Heq | reflexivity] | congruence].
  - assert (Hlt : llen (reviews (final o)) < t).
    { destruct Hok as [-> | (_ & Hlt & _)]; [cbn; exact Ht | exact Hlt]. }
    split; [split; [discriminate | lia] | intros _; exact Hlt].
Qed.

Lemma target_reached_iff_witness :
  0 < 3 /\
  exists o,
    harvest (Toy.driver Toy.three_pages) Toy.digest Toy.scraper LOOP_FUEL
      "One Piece" "https://myanimelist.net/anime/21/One_Piece/reviews" 3 Toy.fresh
      = Some o /\
    (stopped_reason (exit o) = TargetReached <-> llen (reviews (final o)) = 3).
Proof.
  split; [lia |].
  destruct (target_reached_iff (Toy.driver Toy.three_pages) Toy.digest
              Toy.scraper "One Piece"
              "https://myanimelist.net/anime/21/One_Piece/reviews" 3 Toy.fresh)
    as (o & Ho & Hiff & _); [lia |].
  exists o. split; assumption.
Defined.

(* ===================================================================== *)
(** ** The length gate and the cleaning step *)
(* ===================================================================== *)

(** What the gate of [parse_review_block] does guarantee: the stored text is
    the cleaned form of a body of at least 50 characters. *)
Lemma parse_review_block_gate {W Elem : Type} (drv : WebDriver W Elem)
  (block : Elem) (s : session W Elem) :
  post (parse_review_block drv block) s
    (fun r _ =>
       match r with
       | Some p => exists raw, p_review_text p = clean_review_text raw /\ 50 <= len raw
       | None => True
       end)
    (fun _ _ => True).
Proof.
  unfold parse_review_block. apply post_try. apply post_bind.
  eapply post_weaken; [apply post_trivial | | intros; apply post_ret; exact I].
  intros raw s1 _.
  destruct (too_short raw) eqn:Hshort; [apply post_ret; exact I |].
  unfold too_short in Hshort. apply orb_false_iff in Hshort.
  destruct Hshort as [_ Hlen]. apply Z.ltb_ge in Hlen.
  apply post_bind.
  eapply post_weaken; [apply post_trivial | | intros; apply post_ret; exact I].
  intros score s2 _. apply post_bind.
  eapply post_weaken; [apply post_trivial | | intros; apply post_ret; exact I].
  intros rec s3 _. apply post_bind.
  eapply post_weaken; [apply post_trivial | | intros; apply post_ret; exact I].
  intros date s4 _. apply post_ret. exists raw. split; [reflexivity | exact Hlen].
Qed.

(** C4. The claim fails on the source: the gate runs before
    [clean_review_text]. A body of exactly 50 characters with three line
    feeds in a row passes the gate and is stored with 48 characters. *)
Theorem stored_text_shorter_than_gate :
  len Toy.gappy_text = 50 /\
  too_short Toy.gappy_text = false /\
  option_map (fun out => map (fun r => (review_text r, len (review_text r))) (fst out))
    (scrape_reviews_for_series (Toy.driver Toy.gappy_site) Toy.digest Toy.scraper
       "Naruto" "https://myanimelist.net/anime/20/Naruto/reviews" 300 Toy.fresh)
  = Some [("This show is good. I liked every part of it 100%", 48)].
Proof. repeat split; vm_compute; reflexivity. Qed.

(* ===================================================================== *)
(** ** Block discovery *)
(* ===================================================================== *)


Lemma find_first_blocks_spec {W Elem : Type} (drv : WebDriver W Elem) :
  forall (xps : list string) (s : session W Elem),
    match find_first_blocks drv xps s with
    | (Ok elems, s') =>
        exists before after s1,
          xps = (before ++ after)%list /\ misses drv before s s1 /\
          match after with
          | [] => elems = [] /\ s' = s1
          | xp :: _ =>
              elems <> [] /\
              find_elements drv None XPATH xp s1 = (Ok elems, s')
          end
    | (Raise e, s') =>
        exists before xp after s1,
          xps = (before ++ xp :: after)%list /\ misses drv before s s1 /\
          find_elements drv None XPATH xp s1 = (Raise e, s')
    end.
Proof.
  induction xps as [| xp xps IH]; intro s.
  - cbn. exists [], [], s.
    split; [reflexivity |]. split; [constructor |]. split; reflexivity.
  - unfold find_first_blocks. cbn [for_in]. unfold bind at 1. unfold bind at 1.
    destruct (find_elements drv None XPATH xp s) as [[elems | e] s1] eqn:Hq.
    + destruct elems as [| el elems]; cbn [is_nil]; unfold ret at 1; cbn beta iota.
      * change (for_in xps _ [] s1) with (find_first_blocks drv xps s1).
        specialize (IH s1).
        destruct (find_first_blocks drv xps s1) as [[found | e] s'].
        -- destruct IH as (before & after & s2 & -> & Hm & Hafter).
           exists (xp :: before), after, s2.
           split; [reflexivity |].
           split; [econstructor; eassumption | exact Hafter].
        -- destruct IH as (before & xq & after & s2 & -> & Hm & Hraise).
           exists (xp :: before), xq, after, s2.
           split; [reflexivity |].
           split; [econstructor; eassumption | exact Hraise].
      * exists [], (xp :: xps), s.
        split; [reflexivity |]. split; [constructor |].
        split; [discriminate | exact Hq].
    + exists [], xp, xps, s.
      split; [reflexivity |]. split; [constructor | exact Hq].
Qed.

(** C5. [_find_review_blocks] runs the queries of the fixed list [XPATHS]
    in order. When it returns, some prefix of the list found nothing and
    either the list is exhausted and the result is empty, or the next query
    found at least one element and the result is exactly what that one query
    returned. When it raises, the exception is that of the first query after
    a prefix that found nothing. *)
Theorem find_review_blocks_first_match {W Elem : Type} (drv : WebDriver W Elem)
  (s : session W Elem) :
  match _find_review_blocks drv s with
  | (Ok elems, s') =>
      exists before after s1,
        XPATHS = (before ++ after)%list /\ misses drv before s s1 /\
        match after with
        | [] => elems = [] /\ s' = s1
        | xp :: _ =>
            elems <> [] /\
            find_elements drv None XPATH xp s1 = (Ok elems, s')
        end
  | (Raise e, s') =>
      exists before xp after s1,
        XPATHS = (before ++ xp :: after)%list /\ misses drv before s s1 /\
        find_elements drv None XPATH xp s1 = (Raise e, s')
  end.
Proof. apply (find_first_blocks_spec drv XPATHS s). Qed.

(** Scenario D on a concrete page: the first two queries find nothing, the
    third finds three blocks, and those three are the result; the fourth
    query is never run. *)
Example find_review_blocks_scenario_D :
  let s1 := snd (driver_get (Toy.driver Toy.legacy_markup) "https://x/reviews" Toy.fresh) in
  let out := _find_review_blocks (Toy.driver Toy.legacy_markup) s1 in
  fst out = Ok [Toy.Block 0; Toy.Block 1; Toy.Block 2] /\
  skipn 1 (trace (snd out)) =
    map (EvFindElements None XPATH) (firstn 3 XPATHS).
Proof. split; vm_compute; reflexivity. Qed.

(* ===================================================================== *)
(** ** Expansion of a truncated body *)
(* ===================================================================== *)


(** The body text before the gate: the first reading [t1], and the
    expansion and second reading exactly when [t1] looks truncated. *)
Lemma extract_text_spec {W Elem : Type}
  (drv : WebDriver W Elem) (block : Elem) (s : session W Elem) :
  exists t1 s1 t s3,
    read_text drv block s = (Ok t1, s1) /\
    extract_text drv block s = (Ok t, s3) /\
    (likely_truncated t1 = true ->
       count_unhide (trace s3) = S (count_unhide (trace s)) /\
       exists s2,
         (_expand_review_in_block drv block ;; sleep drv 100) s1 = (Ok tt, s2) /\
         reread_text drv block t1 s2 = (Ok t, s3)) /\
    (likely_truncated t1 = false ->
       count_unhide (trace s3) = count_unhide (trace s) /\ t = t1 /\ s3 = s1) /\
    (t = t1 \/ len t1 < len t).
Proof.
  pose proof (read_text_quiet drv block s) as Hread. unfold post in Hread.
  destruct (read_text drv block s) as [[t1 | e] s1] eqn:Hr1; [| contradiction].
  unfold extract_text. unfold bind at 1. rewrite Hr1.
  destruct (likely_truncated t1) eqn:Htest.
  - (* expansion *)
    destruct (expand_review_in_block_counts drv block s1) as (s2 & Hexp & Hcount & _).
    unfold bind at 1. rewrite Hexp. unfold bind at 1.
    change (sleep drv 100 s2) with
      (call (W := W) (EvSleep 100) (fun w => (Ok tt, d_sleep drv 100 w)) s2).
    pose proof (quiet_call (EvSleep 100) (fun w => (Ok tt, d_sleep drv 100 w))
                  eq_refl s2) as Hsleep.
    unfold post in Hsleep.
    destruct (call (EvSleep 100) (fun w => (Ok tt, d_sleep drv 100 w)) s2)
      as [[[] | e] s3] eqn:Hs3;
      [| unfold call in Hs3; cbn in Hs3; discriminate].
    pose proof (post_and _ _ _ _ _ _
                  (reread_text_quiet drv block t1 s3)
                  (reread_text_longer drv block t1 s3)) as Hre.
    unfold post in Hre.
    destruct (reread_text drv block t1 s3) as [[t | e] s'] eqn:Hr2;
      [| destruct Hre as [[] _]].
    destruct Hre as [Hquiet Hlonger].
    exists t1, s1, t, s'.
    split; [reflexivity |]. split; [reflexivity |].
    split; [| split].
    + intros _. split; [congruence |].
      exists s3. split; [| exact Hr2].
      unfold bind. rewrite Hexp. exact Hs3.
    + intro Hc. congruence.
    + exact Hlonger.
  - (* no expansion *)
    exists t1, s1, t1, s1.
    split; [reflexivity |]. split; [reflexivity |].
    split; [| split].
    + intro Hc. congruence.
    + intros _. split; [exact Hread |]. split; reflexivity.
    + left. reflexivity.
Qed.



(* ===================================================================== *)
(** ** Pagination *)
(* ===================================================================== *)

(** C7. Whenever [_goto_next_page] returns, it returns
    [(True, page + 1)]; and when the query for a More Reviews link finds
    nothing, the call is the fallback: one [driver.get] of the listing URL
    with [?p=] and the decimal of [page + 1], the wait, the render nudge and
    the sleep, then [(True, page + 1)]. *)
Theorem goto_next_page_always_advances {W Elem : Type}
  (drv : WebDriver W Elem) (self : Scraper)
  (reviews_url : string) (pg : Z) (s : session W Elem) :
  match _goto_next_page drv self reviews_url pg s with
  | (Ok r, _) => r = (true, pg + 1)
  | (Raise _, _) => True
  end /\
  (forall s1,
     find_elements drv None XPATH "//a[contains(., 'More Reviews')]" s = (Ok [], s1) ->
     _goto_next_page drv self reviews_url pg s =
     (driver_get drv (reviews_url ++ "?p=" ++ of_int (pg + 1)) ;;
      _wait_for_reviews drv 8 ;;
      _force_render drv ;;
      sleep drv (delay self) ;;
      ret (true, pg + 1)) s1).
Proof.
  split.
  - apply (goto_next_page_result drv self reviews_url pg s).
  - intros s1 Hnone. unfold _goto_next_page.
    unfold bind at 1. unfold try_except. unfold bind at 1.
    rewrite Hnone. reflexivity.
Qed.

(** Scenario E and its counterpart on concrete pages, from page 4: with no
    More Reviews link the browser is sent to the URL with [?p=5]; with a
    displayed link the link is clicked and no URL is loaded; both calls
    return [(True, 5)]. *)
Example goto_next_page_scenario_E :
  let url := "https://myanimelist.net/anime/21/One_Piece/reviews" in
  let plain := _goto_next_page (Toy.driver Toy.three_pages) Toy.scraper url 4 Toy.fresh in
  let linked := _goto_next_page (Toy.driver Toy.with_more_link) Toy.scraper url 4 Toy.fresh in
  fst plain = Ok (true, 5) /\
  firstn 2 (trace (snd plain)) =
    [EvFindElements None XPATH "//a[contains(., 'More Reviews')]";
     EvGet "https://myanimelist.net/anime/21/One_Piece/reviews?p=5"] /\
  fst linked = Ok (true, 5) /\
  firstn 5 (trace (snd linked)) =
    [EvFindElements None XPATH "//a[contains(., 'More Reviews')]";
     EvIsDisplayed Toy.More;
     EvScript JS_SCROLL_INTO_VIEW_TIGHT [Toy.More];
     EvSleep 100;
     EvClick Toy.More].
Proof. repeat split; vm_compute; reflexivity. Qed.

(* ===================================================================== *)
(** ** The recommendation tag *)
(* ===================================================================== *)


Lemma classify_tag_value (t r : string) :
  classify_tag t = Some r -> tag_value r.
Proof.
  unfold classify_tag, tag_value.
  destruct (contains "Not Recommended" t); [intro H; inversion H; auto |].
  destruct (contains "Mixed Feelings" t); [intro H; inversion H; auto |].
  destruct (contains "Recommended" t); [intro H; inversion H; auto |].
  discriminate.
Qed.

Lemma extract_recommendation_value {W Elem : Type} (drv : WebDriver W Elem)
  (block : Elem) (s : session W Elem) :
  post (extract_recommendation drv block) s
    (fun r _ => tag_value r) (fun _ _ => False).
Proof.
  assert (Hempty : tag_value "") by (unfold tag_value; auto).
  unfold extract_recommendation. apply post_try. apply post_bind.
  eapply post_weaken; [apply post_trivial | | intros; apply post_ret; exact Hempty].
  intros tags s1 _. unfold scan_tags.
  apply post_for_in with (I := fun acc (_ : session W Elem) => acc = "").
  - intros tag acc s2 ->. apply post_bind.
    eapply post_weaken; [apply post_trivial | | intros; apply post_ret; exact Hempty].
    intros o s3 _.
    destruct (is_empty (strip (or_empty o))); [apply post_ret; reflexivity |].
    destruct (classify_tag (strip (or_empty o))) as [r |] eqn:Hc; apply post_ret.
    + eapply classify_tag_value. exact Hc.
    + reflexivity.
  - intros acc s2 ->. exact Hempty.
  - reflexivity.
Qed.

(** One step of the loop over the labels. *)
Lemma scan_tags_cons {W Elem : Type} (drv : WebDriver W Elem)
  (tag : Elem) (rest : list Elem) (s0 s1 : session W Elem) (o : option string) :
  text_of drv tag s0 = (Ok o, s1) ->
  scan_tags drv (tag :: rest) s0 =
  if is_empty (strip (or_empty o)) then scan_tags drv rest s1
  else
    match classify_tag (strip (or_empty o)) with
    | Some r => (Ok r, s1)
    | None => scan_tags drv rest s1
    end.
Proof.
  intro Htext.
  unfold scan_tags. cbn [for_in]. unfold bind at 1. unfold bind at 1.
  rewrite Htext.
  destruct (is_empty (strip (or_empty o))); [reflexivity |].
  destruct (classify_tag (strip (or_empty o))); reflexivity.
Qed.

(** Labels that do not decide are passed over. *)
Lemma scan_tags_passed {W Elem : Type} (drv : WebDriver W Elem)
  (pre rest : list Elem) (s sc : session W Elem) :
  passed_labels drv pre s sc ->
  scan_tags drv (pre ++ rest) s = scan_tags drv rest sc.
Proof.
  induction 1 as [s | tag pre s s1 s2 o Htext Hnone Hpre IH]; [reflexivity |].
  cbn [app]. rewrite (scan_tags_cons drv tag (pre ++ rest) s s1 o Htext).
  rewrite Hnone. rewrite IH. destruct (is_empty (strip (or_empty o))); reflexivity.
Qed.

Lemma classify_tag_empty (t : string) :
  is_empty t = true -> classify_tag t = None.
Proof. intro H. apply is_empty_true in H. subst t. reflexivity. Qed.

(** C8. The [recommendation] field of every parsed block is
    one of Not Recommended, Mixed Feelings, Recommended or the empty string
    (tag unknown), and it is what the scan of the labels of that block
    gave. The labels are read in order: a label whose stripped text is empty
    or holds none of the three phrases is passed over, and the first label
    that holds a phrase decides the field, whatever the later labels hold;
    the field is empty when every label is passed over, when the query for
    the labels fails, or when reading a label fails before one decided.
    Within one label text the phrases are tested in the order Not
    Recommended, Mixed Feelings, Recommended, so the first of them that
    occurs in it wins. *)
Theorem recommendation_first_label_decides {W Elem : Type}
  (drv : WebDriver W Elem) (block : Elem) (s : session W Elem) :
  match parse_review_block drv block s with
  | (Ok (Some p), _) =>
      tag_value (p_recommendation p) /\
      exists raw s1 score s2 s3,
        extract_text drv block s = (Ok raw, s1) /\
        extract_score drv block s1 = (Ok score, s2) /\
        extract_recommendation drv block s2 = (Ok (p_recommendation p), s3)
  | (Ok None, _) => True
  | (Raise _, _) => False
  end /\
  (forall sa tags sb,
     find_elements drv (Some block) CSS_SELECTOR
       ".tag, .review-tag, .review-element .tag" sa = (Ok tags, sb) ->
     (forall pre tag post sc o sd r,
        tags = (pre ++ tag :: post)%list ->
        passed_labels drv pre sb sc ->
        text_of drv tag sc = (Ok o, sd) ->
        classify_tag (strip (or_empty o)) = Some r ->
        extract_recommendation drv block sa = (Ok r, sd)) /\
     (forall sc,
        passed_labels drv tags sb sc ->
        extract_recommendation drv block sa = (Ok "", sc)) /\
     (forall pre tag post sc e sd,
        tags = (pre ++ tag :: post)%list ->
        passed_labels drv pre sb sc ->
        text_of drv tag sc = (Raise e, sd) ->
        extract_recommendation drv block sa = (Ok "", sd))) /\
  (forall sa e sb,
     find_elements drv (Some block) CSS_SELECTOR
       ".tag, .review-tag, .review-element .tag" sa = (Raise e, sb) ->
     extract_recommendation drv block sa = (Ok "", sb)) /\
  (forall t,
     (contains "Not Recommended" t = true ->
        classify_tag t = Some "Not Recommended") /\
     (contains "Not Recommended" t = false -> contains "Mixed Feelings" t = true ->
        classify_tag t = Some "Mixed Feelings") /\
     (contains "Not Recommended" t = false -> contains "Mixed Feelings" t = false ->
      contains "Recommended" t = true ->
        classify_tag t = Some "Recommended") /\
     (contains "Not Recommended" t = false -> contains "Mixed Feelings" t = false ->
      contains "Recommended" t = false ->
        classify_tag t = None)).
Proof.
  split; [| split; [| split]].
  - destruct (extract_text_spec drv block s)
      as (t1 & s1' & raw & s1 & _ & Hext & _).
    unfold parse_review_block, try_except. unfold bind at 1. rewrite Hext.
    destruct (too_short raw); [exact I |].
    unfold bind at 1.
    destruct (extract_score drv block s1) as [[score | e] s2] eqn:Hscore;
      [| exact I].
    unfold bind at 1.
    pose proof (extract_recommendation_value drv block s2) as Hval.
    unfold post in Hval.
    destruct (extract_recommendation drv block s2) as [[rec | e] s3] eqn:Hrec;
      [| exact I].
    unfold bind at 1.
    destruct (extract_date drv block s3) as [[date | e] s4]; [| exact I].
    unfold ret. cbn [p_recommendation]. split; [exact Hval |].
    exists raw, s1, score, s2, s3.
    split; [reflexivity |]. split; [exact Hscore | exact Hrec].
  - intros sa tags sb Hfind.
    assert (Hrun : extract_recommendation drv block sa =
                   match scan_tags drv tags sb with
                   | (Ok r, s') => (Ok r, s')
                   | (Raise _, s') => (Ok "", s')
                   end).
    { unfold extract_recommendation, try_except. unfold bind at 1.
      rewrite Hfind. destruct (scan_tags drv tags sb) as [[r | e] s'];
        reflexivity. }
    split; [| split].
    + intros pre tag post sc o sd r -> Hpre Htext Hsome.
      rewrite Hrun, (scan_tags_passed drv pre (tag :: post) sb sc Hpre).
      rewrite (scan_tags_cons drv tag post sc sd o Htext).
      destruct (is_empty (strip (or_empty o))) eqn:Hempty.
      * rewrite (classify_tag_empty _ Hempty) in Hsome. discriminate.
      * rewrite Hsome. reflexivity.
    + intros sc Hall.
      rewrite Hrun. rewrite <- (app_nil_r tags).
      rewrite (scan_tags_passed drv tags [] sb sc Hall). reflexivity.
    + intros pre tag post sc e sd -> Hpre Htext.
      rewrite Hrun, (scan_tags_passed drv pre (tag :: post) sb sc Hpre).
      unfold scan_tags. cbn [for_in]. unfold bind at 1. unfold bind at 1.
      rewrite Htext. reflexivity.
  - intros sa e sb Hfind.
    unfold extract_recommendation, try_except. unfold bind at 1.
    rewrite Hfind. reflexivity.
  - intro t. unfold classify_tag.
    repeat split; intros; repeat match goal with H : _ = _ |- _ => rewrite H end;
      reflexivity.
Qed.

(** The claim as first worded fails on the source. On a block whose labels
    read Recommended and Not Recommended, in this order, both phrases occur
    among the labels and the priority over the block would give Not
    Recommended; the record holds Recommended, the phrase of the first
    label. *)
Lemma recommendation_block_priority_fails :
  let drv := Toy.driver Toy.mixed_labels_site in
  let s := snd (driver_get drv "https://x/reviews" Toy.fresh) in
  exists p s' tags s1,
    parse_review_block drv (Toy.Block 0) s = (Ok (Some p), s') /\
    find_elements drv (Some (Toy.Block 0)) CSS_SELECTOR
      ".tag, .review-tag, .review-element .tag" s = (Ok tags, s1) /\
    map (fun tag => fst (text_of drv tag s1)) tags =
      [Ok (Some "Recommended"); Ok (Some "Not Recommended")] /\
    tag_by_block_priority ["Recommended"; "Not Recommended"] = "Not Recommended" /\
    p_recommendation p = "Recommended" /\
    p_recommendation p <> tag_by_block_priority ["Recommended"; "Not Recommended"].
Proof.
  cbv zeta. do 4 eexists.
  split; [vm_compute; reflexivity |].
  split; [vm_compute; reflexivity |].
  split; [vm_compute; reflexivity |].
  split; [vm_compute; reflexivity |].
  split; [vm_compute; reflexivity |].
  vm_compute. discriminate.
Qed.

(** On a block with the labels blank, Funny, Not Recommended and Mixed
    Feelings, in this order: the blank label and the label without a phrase
    are passed over, and the third label decides, whatever the fourth
    holds. *)
Lemma recommendation_first_label_decides_witness :
  let drv := Toy.driver Toy.labels_site in
  let s := snd (driver_get drv "https://x/reviews" Toy.fresh) in
  exists tags s1 sd,
    find_elements drv (Some (Toy.Block 0)) CSS_SELECTOR
      ".tag, .review-tag, .review-element .tag" s = (Ok tags, s1) /\
    map (fun tag => fst (text_of drv tag s1)) tags =
      [Ok (Some " "); Ok (Some "Funny"); Ok (Some "Not Recommended");
       Ok (Some "Mixed Feelings")] /\
    extract_recommendation drv (Toy.Block 0) s = (Ok "Not Recommended", sd).
Proof.
  cbv zeta.
  destruct (recommendation_first_label_decides (Toy.driver Toy.labels_site)
              (Toy.Block 0)
              (snd (driver_get (Toy.driver Toy.labels_site)
                      "https://x/reviews" Toy.fresh)))
    as (_ & Hscan & _).
  destruct (find_elements (Toy.driver Toy.labels_site) (Some (Toy.Block 0))
              CSS_SELECTOR ".tag, .review-tag, .review-element .tag"
              (snd (driver_get (Toy.driver Toy.labels_site)
                      "https://x/reviews" Toy.fresh)))
    as [[tags | e] s1] eqn:Hfind; [| vm_compute in Hfind; discriminate].
  pose proof Hfind as Hrun.
  vm_compute in Hfind. injection Hfind as Htags Hs1. subst tags s1.
  destruct (Hscan _ _ _ Hrun) as (Hfirst & _).
  do 3 eexists.
  split; [reflexivity |].
  split; [vm_compute; reflexivity |].
  eapply (Hfirst [Toy.Tag 0 0; Toy.Tag 0 1] (Toy.Tag 0 2) [Toy.Tag 0 3]).
  - reflexivity.
  - eapply passed_cons; [vm_compute; reflexivity | vm_compute; reflexivity |].
    eapply passed_cons; [vm_compute; reflexivity | vm_compute; reflexivity |].
    apply passed_nil.
  - vm_compute. reflexivity.
  - vm_compute. reflexivity.
Defined.

(** Within one label text: Not Recommended holds the phrase Recommended
    too and is tested first; of Mixed Feelings and Recommended in one text,
    Mixed Feelings wins. *)
Example recommendation_of_labels :
  classify_tag "Not Recommended" = Some "Not Recommended" /\
  contains "Recommended" "Not Recommended" = true /\
  classify_tag "Mixed Feelings, Recommended" = Some "Mixed Feelings".
Proof. repeat split; vm_compute; reflexivity. Qed.

(* ===================================================================== *)
(** ** Faults *)
(* ===================================================================== *)

(** The weakest fact about an accepted block, for records on which nothing
    is asked. *)
Lemma parse_review_block_any {W Elem : Type} (drv : WebDriver W Elem)
  (block : Elem) (s : session W Elem) :
  post (parse_review_block drv block) s
    (fun r _ => match r with Some _ => True | None => True end)
    (fun _ _ => True).
Proof.
  eapply post_weaken; [apply post_trivial | intros [p |] ? _; exact I | auto].
Qed.

(** C9. However the [try] block of [scrape_reviews_for_series] ends, by
    a raise or by leaving the loop, the run returns the record list held at
    that moment and the session is closed: [driver.quit()] is the last call
    of the trace. And the records only accumulate: from any state of the
    loop, whatever happens later, fault included, the list at the end
    extends the list held then. *)
Theorem fault_keeps_records_and_closes {W Elem : Type} (drv : WebDriver W Elem)
  (sha1_hexdigest : string -> string) (self : Scraper)
  (series_name reviews_url : string) (t : Z) (s0 : session W Elem) :
  match try_block drv sha1_hexdigest self LOOP_FUEL series_name reviews_url t
          (s0, initial_locals) with
  | (Raise e, (s1, l1)) =>
      harvest drv sha1_hexdigest self LOOP_FUEL series_name reviews_url t s0 =
        Some {| exit := Raised e; final := l1; closed := quit_session drv s1 |} /\
      scrape_reviews_for_series drv sha1_hexdigest self series_name reviews_url t s0 =
        Some (reviews l1, quit_session drv s1)
  | (Ok (Some x), (s1, l1)) =>
      harvest drv sha1_hexdigest self LOOP_FUEL series_name reviews_url t s0 =
        Some {| exit := x; final := l1; closed := quit_session drv s1 |} /\
      scrape_reviews_for_series drv sha1_hexdigest self series_name reviews_url t s0 =
        Some (reviews l1, quit_session drv s1)
  | (Ok None, _) => False
  end /\
  (forall s1, last (trace (quit_session drv s1)) (EvGet "") = EvQuit) /\
  (forall fuel s l,
     match paging_loop drv sha1_hexdigest self fuel series_name reviews_url t (s, l) with
     | (_, (_, l')) => exists more, reviews l' = (reviews l ++ more)%list
     end).
Proof.
  split; [| split].
  - pose proof (harvest_unfold drv sha1_hexdigest self LOOP_FUEL series_name
                  reviews_url t s0) as Hh.
    pose proof (try_block_spec drv sha1_hexdigest self LOOP_FUEL series_name
                  reviews_url t s0) as Hspec.
    unfold scrape_reviews_for_series. unfold post in Hspec.
    destruct (try_block drv sha1_hexdigest self LOOP_FUEL series_name
                reviews_url t (s0, initial_locals)) as [[[x |] | e] [s1 l1]];
      try (rewrite Hh; split; reflexivity).
    destruct Hspec as (x & Hx & _); [unfold LOOP_FUEL; lia | discriminate].
  - intro s1. unfold quit_session. cbn [trace]. apply last_last.
  - intros fuel s l.
    pose proof (paging_loop_grows drv sha1_hexdigest self series_name
                  (fun _ => True) (fun _ => True)
                  (parse_review_block_any drv) (fun _ _ _ => I)
                  reviews_url t fuel (s, l)) as Hg.
    unfold post in Hg.
    destruct (paging_loop drv sha1_hexdigest self fuel series_name reviews_url t
                (s, l)) as [[r | e] [s' l']];
      destruct Hg as (more & Hm & _); exists more; exact Hm.
Qed.

(** A session that breaks on loading page 3: the four records of pages 1
    and 2 are returned, and the last call is [driver.quit()]. *)
Example fault_on_page_3 :
  let run := scrape_reviews_for_series (Toy.driver Toy.breaks_on_page_3) Toy.digest
               Toy.scraper "Bleach" "https://myanimelist.net/anime/269/Bleach/reviews"
               400 Toy.fresh in
  option_map (fun o => exit o)
    (harvest (Toy.driver Toy.breaks_on_page_3) Toy.digest Toy.scraper LOOP_FUEL
       "Bleach" "https://myanimelist.net/anime/269/Bleach/reviews" 400 Toy.fresh)
    = Some (Raised (Exception "invalid session id")) /\
  option_map (fun out => map page_number (fst out)) run = Some [1; 1; 2; 2] /\
  option_map (fun out => last (trace (snd out)) (EvGet "")) run = Some EvQuit.
Proof. repeat split; vm_compute; reflexivity. Qed.

(* ===================================================================== *)
(** ** Review identifiers *)
(* ===================================================================== *)

(** Every record of a run carries the identifier computed from the series
    name and its own stored text. *)
Lemma harvest_review_ids {W Elem : Type} (drv : WebDriver W Elem)
  (sha1_hexdigest : string -> string) (self : Scraper) (fuel : nat)
  (series_name reviews_url : string) (t : Z) (s0 : session W Elem)
  (o : @outcome W Elem) :
  harvest drv sha1_hexdigest self fuel series_name reviews_url t s0 = Some o ->
  Forall (fun r => review_id r = _review_id sha1_hexdigest series_name (review_text r))
    (reviews (final o)).
Proof.
  apply (harvest_rows drv sha1_hexdigest self series_name (fun _ => True)).
  - apply parse_review_block_any.
  - intros pg p _. reflexivity.
Qed.

(** C10. [_review_id] is a function of the series name and of the first
    120 characters of the text only: two texts with the same first 120
    characters get the same identifier for the same series, whatever follows,
    and so do the records made from them, on whatever page they were found. *)
Theorem review_id_depends_on_prefix_only (sha1_hexdigest : string -> string)
  (series_name text1 text2 : string) :
  take 120 text1 = take 120 text2 ->
  _review_id sha1_hexdigest series_name text1 =
  _review_id sha1_hexdigest series_name text2 /\
  (forall pg1 pg2 p1 p2,
     p_review_text p1 = text1 -> p_review_text p2 = text2 ->
     review_id (make_row sha1_hexdigest series_name pg1 p1) =
     review_id (make_row sha1_hexdigest series_name pg2 p2)) /\
  _review_id sha1_hexdigest series_name text1 =
    replace_char SPACE UNDERSCORE (lower series_name) ++ "_" ++
    take 10 (sha1_hexdigest (series_name ++ take 120 text1)).
Proof.
  intro Hprefix.
  assert (Hid : _review_id sha1_hexdigest series_name text1 =
                _review_id sha1_hexdigest series_name text2).
  { unfold _review_id. rewrite Hprefix. reflexivity. }
  split; [exact Hid |]. split; [| reflexivity].
  intros pg1 pg2 p1 p2 H1 H2. cbn [make_row review_id]. rewrite H1, H2. exact Hid.
Qed.

(** Two different texts of 142 and 143 characters with the same first 120. *)
Lemma review_id_depends_on_prefix_only_witness :
  Toy.long_text "a1" ++ " and more" <> Toy.long_text "a1" ++ " and less." /\
  take 120 (Toy.long_text "a1" ++ " and more") =
    take 120 (Toy.long_text "a1" ++ " and less.") /\
  _review_id Toy.digest "One Piece" (Toy.long_text "a1" ++ " and more") =
  _review_id Toy.digest "One Piece" (Toy.long_text "a1" ++ " and less.").
Proof.
  split; [vm_compute; discriminate |].
  split; [vm_compute; reflexivity |].
  apply (review_id_depends_on_prefix_only Toy.digest "One Piece"
           (Toy.long_text "a1" ++ " and more") (Toy.long_text "a1" ++ " and less.")).
  vm_compute. reflexivity.
Defined.

(* ===================================================================== *)
(** ** Facts about [clean_review_text] *)
(* ===================================================================== *)

Lemma is_empty_append (a b : string) :
  is_empty (a ++ b) = is_empty a && is_empty b.
Proof. destruct a; reflexivity. Qed.

Lemma append_empty_r (a : string) : a ++ "" = a.
Proof. induction a as [| c a IH]; cbn; [reflexivity | rewrite IH; reflexivity]. Qed.

Lemma append_assoc (a b c : string) : (a ++ b) ++ c = a ++ (b ++ c).
Proof. induction a as [| x a IH]; cbn; [reflexivity | rewrite IH; reflexivity]. Qed.

Lemma length_append (a b : string) :
  String.length (a ++ b) = (String.length a + String.length b)%nat.
Proof. induction a as [| x a IH]; cbn; [reflexivity | rewrite IH; reflexivity]. Qed.

Lemma all_chars_append (p : ascii -> bool) (a b : string) :
  all_chars p (a ++ b) = all_chars p a && all_chars p b.
Proof.
  induction a as [| x a IH]; cbn; [reflexivity |].
  rewrite IH. apply andb_assoc.
Qed.

Lemma length_replace_char (a b : ascii) (s : string) :
  String.length (replace_char a b s) = String.length s.
Proof. induction s as [| c s IH]; cbn; [reflexivity | rewrite IH; reflexivity]. Qed.

Lemma length_lstrip (s : string) : (String.length (lstrip s) <= String.length s)%nat.
Proof.
  induction s as [| c s IH]; cbn; [lia |].
  destruct (isspace c); cbn; lia.
Qed.

Lemma length_rstrip (s : string) : (String.length (rstrip s) <= String.length s)%nat.
Proof.
  induction s as [| c s IH]; cbn; [lia |].
  destruct (isspace c && is_empty (rstrip s)); cbn; lia.
Qed.

Lemma length_strip (s : string) : (String.length (strip s) <= String.length s)%nat.
Proof.
  unfold strip. pose proof (length_rstrip (lstrip s)). pose proof (length_lstrip s). lia.
Qed.

(** The words of a split, joined by single spaces, are no longer than the
    text that was split. *)
Lemma length_join_split_from (s : string) :
  forall cur,
    (String.length (join " " (split_from cur s))
     <= String.length cur + String.length s)%nat.
Proof.
  induction s as [| c s IH]; intro cur; cbn [split_from].
  - destruct (is_empty cur); cbn; [lia |]. lia.
  - destruct (isspace c).
    + destruct (is_empty cur) eqn:Hcur.
      * specialize (IH ""). cbn in *. lia.
      * specialize (IH ""). cbn [String.length] in *.
        unfold join in *. cbn [String.concat].
        destruct (split_from "" s) as [| w ws]; [cbn; lia |].
        rewrite !length_append. cbn [String.length] in *. lia.
    + specialize (IH (cur ++ String c "")).
      rewrite length_append in IH. cbn [String.length] in *. lia.
Qed.

(** Every piece of a split is a word. *)
Lemma split_from_words (s : string) :
  forall cur,
    all_chars nonspace cur = true ->
    Forall (fun w => is_word w = true) (split_from cur s).
Proof.
  induction s as [| c s IH]; intros cur Hcur; cbn [split_from].
  - destruct (is_empty cur) eqn:He; constructor; [| constructor].
    unfold is_word. rewrite He, Hcur. reflexivity.
  - destruct (isspace c) eqn:Hc.
    + destruct (is_empty cur) eqn:He.
      * apply IH. reflexivity.
      * constructor; [| apply IH; reflexivity].
        unfold is_word. rewrite He, Hcur. reflexivity.
    + apply IH. rewrite all_chars_append, Hcur. cbn.
      unfold nonspace. rewrite Hc. reflexivity.
Qed.

Lemma split_from_word_prefix (w : string) :
  all_chars nonspace w = true ->
  forall cur s, split_from cur (w ++ s) = split_from (cur ++ w) s.
Proof.
  induction w as [| c w IH]; intros Hw cur s.
  - cbn. rewrite append_empty_r. reflexivity.
  - cbn in Hw. apply andb_true_iff in Hw. destruct Hw as [Hc Hw].
    unfold nonspace in Hc. apply negb_true_iff in Hc.
    cbn [append split_from]. rewrite Hc. rewrite (IH Hw).
    rewrite append_assoc. reflexivity.
Qed.

Lemma join_cons2 (sep w w2 : string) (ws : list string) :
  join sep (w :: w2 :: ws) = w ++ sep ++ join sep (w2 :: ws).
Proof. reflexivity. Qed.

Lemma join_words_nonempty (w : string) (ws : list string) :
  is_empty w = false -> is_empty (join " " (w :: ws)) = false.
Proof.
  intro Hw. destruct ws as [| w2 ws]; [exact Hw |].
  rewrite join_cons2, is_empty_append, Hw. reflexivity.
Qed.

(** Splitting a join of words gives the words back. *)
Lemma split_join_words (ws : list string) :
  Forall (fun w => is_word w = true) ws -> split (join " " ws) = ws.
Proof.
  unfold split. induction ws as [| w ws IH]; intro Hws; [reflexivity |].
  inversion Hws as [| ? ? Hw Hrest]; subst.
  unfold is_word in Hw. apply andb_true_iff in Hw. destruct Hw as [Hne Hw].
  apply negb_true_iff in Hne.
  destruct ws as [| w2 ws].
  - cbn [join String.concat].
    rewrite <- (append_empty_r w) at 1.
    rewrite (split_from_word_prefix w Hw). cbn [append split_from].
    rewrite Hne. reflexivity.
  - rewrite join_cons2. rewrite (split_from_word_prefix w Hw).
    cbn [append split_from]. change (isspace " ") with true. cbn iota.
    rewrite Hne. rewrite (IH Hrest). reflexivity.
Qed.

Lemma lstrip_word_prefix (w s : string) :
  is_word w = true -> lstrip (w ++ s) = w ++ s.
Proof.
  unfold is_word. destruct w as [| c w]; [discriminate |]. cbn.
  intro H. apply andb_true_iff in H. destruct H as [Hc _].
  unfold nonspace in Hc. apply negb_true_iff in Hc. rewrite Hc. reflexivity.
Qed.

Lemma rstrip_nonspace (w : string) :
  all_chars nonspace w = true -> rstrip w = w.
Proof.
  induction w as [| c w IH]; intro H; [reflexivity |].
  cbn in H. apply andb_true_iff in H. destruct H as [Hc Hw].
  unfold nonspace in Hc. apply negb_true_iff in Hc.
  cbn. rewrite Hc, (IH Hw). reflexivity.
Qed.

Lemma rstrip_append_fixed (a t : string) :
  rstrip t = t -> is_empty t = false -> rstrip (a ++ t) = a ++ t.
Proof.
  intros Ht Hne. induction a as [| c a IH]; [exact Ht |].
  cbn. rewrite IH, is_empty_append, Hne, andb_false_r, andb_false_r. reflexivity.
Qed.

Lemma rstrip_join_words (ws : list string) :
  Forall (fun w => is_word w = true) ws -> rstrip (join " " ws) = join " " ws.
Proof.
  induction ws as [| w ws IH]; intro Hws; [reflexivity |].
  inversion Hws as [| ? ? Hw Hrest]; subst.
  unfold is_word in Hw. apply andb_true_iff in Hw. destruct Hw as [Hne Hw].
  destruct ws as [| w2 ws]; [apply rstrip_nonspace; exact Hw |].
  rewrite join_cons2. apply rstrip_append_fixed; [| reflexivity].
  assert (Hj : is_empty (join " " (w2 :: ws)) = false).
  { inversion Hrest as [| ? ? Hw2 _]; subst.
    unfold is_word in Hw2. apply andb_true_iff in Hw2.
    apply join_words_nonempty. apply negb_true_iff. apply Hw2. }
  change (" " ++ join " " (w2 :: ws)) with (String " " (join " " (w2 :: ws))).
  cbn [rstrip]. rewrite (IH Hrest), Hj, andb_false_r. reflexivity.
Qed.

Lemma strip_join_words (ws : list string) :
  Forall (fun w => is_word w = true) ws -> strip (join " " ws) = join " " ws.
Proof.
  intro Hws. unfold strip.
  assert (Hl : lstrip (join " " ws) = join " " ws).
  { destruct ws as [| w ws]; [reflexivity |].
    inversion Hws as [| ? ? Hw _]; subst.
    destruct ws as [| w2 ws].
    - cbn [join String.concat]. rewrite <- (append_empty_r w).
      apply lstrip_word_prefix. exact Hw.
    - rewrite join_cons2. apply lstrip_word_prefix. exact Hw. }
  rewrite Hl. apply rstrip_join_words. exact Hws.
Qed.

Lemma all_chars_weaken (p q : ascii -> bool) (s : string) :
  (forall c, p c = true -> q c = true) ->
  all_chars p s = true -> all_chars q s = true.
Proof.
  intro Hpq. induction s as [| c s IH]; cbn; [reflexivity |].
  intro H. apply andb_true_iff in H. destruct H as [Hc Hs].
  rewrite (Hpq c Hc), (IH Hs). reflexivity.
Qed.

Lemma tidy_join_words (ws : list string) :
  Forall (fun w => is_word w = true) ws ->
  all_chars tidy_char (join " " ws) = true.
Proof.
  assert (Hword : forall w, is_word w = true -> all_chars tidy_char w = true).
  { intros w Hw. unfold is_word in Hw. apply andb_true_iff in Hw.
    apply (all_chars_weaken nonspace); [| apply Hw].
    intros c Hc. unfold tidy_char. rewrite Hc. reflexivity. }
  induction ws as [| w ws IH]; intro Hws; [reflexivity |].
  inversion Hws as [| ? ? Hw Hrest]; subst.
  destruct ws as [| w2 ws]; [apply Hword; exact Hw |].
  rewrite join_cons2, !all_chars_append, (Hword w Hw), (IH Hrest). reflexivity.
Qed.

Lemma replace_char_tidy (a : ascii) (s : string) :
  isspace a = true -> Ascii.eqb SPACE a = false ->
  all_chars tidy_char s = true -> replace_char a SPACE s = s.
Proof.
  intros Ha Hsp. induction s as [| c s IH]; [reflexivity |].
  cbn [all_chars]. intro H. apply andb_true_iff in H. destruct H as [Hc Hs].
  cbn [replace_char]. rewrite (IH Hs).
  destruct (Ascii.eqb c a) eqn:Hca; [| reflexivity].
  apply Ascii.eqb_eq in Hca. subst c. exfalso.
  unfold tidy_char, nonspace in Hc. rewrite Ha in Hc. cbn in Hc.
  apply Ascii.eqb_eq in Hc. subst a. discriminate.
Qed.

(** [clean_review_text] as the words of its argument, joined by spaces. *)
Lemma clean_review_text_words (text : string) :
  clean_review_text text = join " " (split (respaced text)) /\
  Forall (fun w => is_word w = true) (split (respaced text)).
Proof.
  assert (Hws : Forall (fun w => is_word w = true) (split (respaced text))).
  { apply split_from_words. reflexivity. }
  split; [| exact Hws].
  unfold clean_review_text. destruct text as [| c text]; [reflexivity |].
  cbn [is_empty]. apply strip_join_words. exact Hws.
Qed.

(** A cleaned text is a fixed point of [clean_review_text]. *)
Lemma clean_review_text_of_words (ws : list string) :
  Forall (fun w => is_word w = true) ws ->
  clean_review_text (join " " ws) = join " " ws.
Proof.
  intro Hws. unfold clean_review_text.
  destruct (is_empty (join " " ws)) eqn:He.
  - destruct (join " " ws); [reflexivity | discriminate].
  - pose proof (tidy_join_words ws Hws) as Htidy.
    rewrite (replace_char_tidy CR), (replace_char_tidy LF), (replace_char_tidy TAB);
      try reflexivity; try exact Htidy.
    rewrite (split_join_words ws Hws). apply strip_join_words. exact Hws.
Qed.

Lemma isspace_replace (a c : ascii) :
  isspace a = true ->
  isspace (if Ascii.eqb c a then SPACE else c) = isspace c.
Proof.
  intro Ha. destruct (Ascii.eqb c a) eqn:Hca; [| reflexivity].
  apply Ascii.eqb_eq in Hca. subst c. rewrite Ha. reflexivity.
Qed.

Lemma all_space_replace_char (a : ascii) (s : string) :
  isspace a = true ->
  all_chars isspace (replace_char a SPACE s) = all_chars isspace s.
Proof.
  intro Ha. induction s as [| c s IH]; [reflexivity |].
  cbn [replace_char all_chars]. rewrite IH, (isspace_replace a c Ha). reflexivity.
Qed.

Lemma all_space_respaced (s : string) :
  all_chars isspace (respaced s) = all_chars isspace s.
Proof.
  unfold respaced.
  rewrite !all_space_replace_char; reflexivity.
Qed.

Lemma split_from_cur_nonempty (s : string) :
  forall cur, is_empty cur = false -> split_from cur s <> [].
Proof.
  induction s as [| c s IH]; intros cur Hcur; cbn [split_from].
  - rewrite Hcur. discriminate.
  - destruct (isspace c); [rewrite Hcur; discriminate |].
    apply IH. rewrite is_empty_append, Hcur. reflexivity.
Qed.

Lemma split_nil_iff (s : string) :
  split s = [] <-> all_chars isspace s = true.
Proof.
  unfold split. induction s as [| c s IH]; cbn [split_from all_chars is_empty].
  - split; reflexivity.
  - destruct (isspace c) eqn:Hc; cbn [andb].
    + exact IH.
    + split; [| discriminate].
      intro H. exfalso. revert H. apply split_from_cur_nonempty. reflexivity.
Qed.

Lemma lstrip_fixed_head (c : ascii) (s : string) :
  lstrip (String c s) = String c s -> isspace c = false.
Proof.
  cbn. destruct (isspace c); [| reflexivity].
  intro H. pose proof (length_lstrip s) as Hl. rewrite H in Hl. cbn in Hl. lia.
Qed.

Lemma strip_fixed_head (c : ascii) (s : string) :
  strip (String c s) = String c s -> isspace c = false.
Proof.
  unfold strip. intro H.
  destruct (isspace c) eqn:Hc; [| reflexivity]. exfalso.
  cbn [lstrip] in H. rewrite Hc in H.
  pose proof (length_rstrip (lstrip s)) as Hr. pose proof (length_lstrip s) as Hl.
  rewrite H in Hr. cbn in Hr. lia.
Qed.

Lemma lstrip_idempotent (s : string) : lstrip (lstrip s) = lstrip s.
Proof.
  induction s as [| c s IH]; [reflexivity |].
  cbn [lstrip]. destruct (isspace c) eqn:Hc; [exact IH |].
  cbn [lstrip]. rewrite Hc. reflexivity.
Qed.

Lemma rstrip_idempotent (s : string) : rstrip (rstrip s) = rstrip s.
Proof.
  induction s as [| c s IH]; [reflexivity |].
  cbn [rstrip]. destruct (isspace c && is_empty (rstrip s)) eqn:Hc; [reflexivity |].
  cbn [rstrip]. rewrite IH, Hc. reflexivity.
Qed.

Lemma lstrip_rstrip_fixed (y : string) :
  lstrip y = y -> lstrip (rstrip y) = rstrip y.
Proof.
  destruct y as [| c y]; [reflexivity |]. intro H.
  pose proof (lstrip_fixed_head c y H) as Hc.
  cbn [rstrip]. rewrite Hc. cbn [andb lstrip]. rewrite Hc. reflexivity.
Qed.

(** [strip] leaves a stripped text alone. *)
Lemma strip_idempotent (s : string) : strip (strip s) = strip s.
Proof.
  unfold strip.
  rewrite (lstrip_rstrip_fixed (lstrip s) (lstrip_idempotent s)).
  apply rstrip_idempotent.
Qed.

Lemma prefix_two_spaces_nonspace (c : ascii) (s : string) :
  isspace c = false -> String.prefix "  " (String c s) = false.
Proof.
  intro Hc. cbn [String.prefix].
  destruct (ascii_dec " " c) as [Heq | _]; [| reflexivity].
  subst c. discriminate.
Qed.

Lemma contains_two_spaces_word_prefix (w s : string) :
  all_chars nonspace w = true ->
  contains "  " (w ++ s) = contains "  " s.
Proof.
  induction w as [| c w IH]; intro Hw; [reflexivity |].
  cbn in Hw. apply andb_true_iff in Hw. destruct Hw as [Hc Hw].
  unfold nonspace in Hc. apply negb_true_iff in Hc.
  cbn [append contains]. rewrite (prefix_two_spaces_nonspace c _ Hc).
  cbn [orb]. apply IH. exact Hw.
Qed.

Lemma no_two_spaces_join_words (ws : list string) :
  Forall (fun w => is_word w = true) ws ->
  contains "  " (join " " ws) = false.
Proof.
  induction ws as [| w ws IH]; intro Hws; [reflexivity |].
  inversion Hws as [| ? ? Hw Hrest]; subst.
  unfold is_word in Hw. apply andb_true_iff in Hw. destruct Hw as [_ Hw].
  destruct ws as [| w2 ws].
  - cbn [join String.concat]. rewrite <- (append_empty_r w).
    rewrite (contains_two_spaces_word_prefix w "" Hw). reflexivity.
  - rewrite join_cons2. rewrite (contains_two_spaces_word_prefix w _ Hw).
    change (" " ++ join " " (w2 :: ws)) with (String " " (join " " (w2 :: ws))).
    cbn [contains]. rewrite (IH Hrest), orb_false_r.
    inversion Hrest as [| ? ? Hw2 _]; subst.
    unfold is_word in Hw2. apply andb_true_iff in Hw2. destruct Hw2 as [Hne2 Hc2].
    destruct w2 as [| c2 w2]; [discriminate |].
    cbn in Hc2. apply andb_true_iff in Hc2. destruct Hc2 as [Hc2 _].
    unfold nonspace in Hc2. apply negb_true_iff in Hc2.
    assert (Hj : exists rest, join " " (String c2 w2 :: ws) = String c2 rest).
    { destruct ws as [| w3 ws]; [exists w2; reflexivity |].
      rewrite join_cons2. eexists. reflexivity. }
    destruct Hj as [rest ->].
    cbn [String.prefix].
    destruct (ascii_dec " " " ") as [_ | Hn]; [| contradiction].
    destruct (ascii_dec " " c2) as [Heq | _]; [subst c2; discriminate | reflexivity].
Qed.

Lemma split_from_replace_char (a : ascii) (s : string) :
  isspace a = true ->
  forall cur, split_from cur (replace_char a SPACE s) = split_from cur s.
Proof.
  intro Ha. induction s as [| c s IH]; intro cur; [reflexivity |].
  cbn [replace_char split_from].
  destruct (Ascii.eqb c a) eqn:Hca.
  - apply Ascii.eqb_eq in Hca. subst c. rewrite Ha.
    change (isspace SPACE) with true. cbn iota. rewrite !IH. reflexivity.
  - rewrite !IH. reflexivity.
Qed.

Lemma split_respaced (s : string) : split (respaced s) = split s.
Proof.
  unfold split, respaced.
  rewrite !split_from_replace_char; reflexivity.
Qed.

(** X1. [clean_review_text] never makes a text longer. *)
Theorem clean_review_text_never_longer (text : string) :
  len (clean_review_text text) <= len text.
Proof.
  destruct (clean_review_text_words text) as [-> _].
  pose proof (length_join_split_from (respaced text) "") as H.
  unfold len, split. unfold respaced in H at 2.
  rewrite !length_replace_char in H. cbn [String.length] in H. lia.
Qed.

(** X2. [clean_review_text] is idempotent: cleaning a cleaned text changes
    nothing. *)
Theorem clean_review_text_idempotent (text : string) :
  clean_review_text (clean_review_text text) = clean_review_text text.
Proof.
  destruct (clean_review_text_words text) as [-> Hws].
  apply clean_review_text_of_words. exact Hws.
Qed.

(** X3. The result of [clean_review_text] is in normal form: it has no
    whitespace at either end, its only whitespace characters are plain
    spaces (no tab, line feed or carriage return is left), no two spaces
    stand in a row, and its words are the words of the argument. *)
Theorem clean_review_text_normal_form (text : string) :
  strip (clean_review_text text) = clean_review_text text /\
  all_chars (fun c => negb (isspace c) || Ascii.eqb c SPACE)
    (clean_review_text text) = true /\
  contains "  " (clean_review_text text) = false /\
  split (clean_review_text text) = split text.
Proof.
  rewrite <- (split_respaced text).
  destruct (clean_review_text_words text) as [-> Hws].
  split; [apply strip_join_words; exact Hws |].
  split; [apply (tidy_join_words _ Hws) |].
  split; [apply no_two_spaces_join_words; exact Hws |].
  apply split_join_words. exact Hws.
Qed.

Lemma clean_review_text_empty_aux (text : string) :
  clean_review_text text = "" <-> all_chars isspace text = true.
Proof.
  destruct (clean_review_text_words text) as [-> Hws].
  rewrite <- all_space_respaced, <- split_nil_iff.
  destruct (split (respaced text)) as [| w ws] eqn:Hs.
  - split; reflexivity.
  - split; [| discriminate].
    intro Hj. exfalso.
    inversion Hws as [| ? ? Hw _]; subst.
    unfold is_word in Hw. apply andb_true_iff in Hw. destruct Hw as [Hne _].
    apply negb_true_iff in Hne.
    pose proof (join_words_nonempty w ws Hne) as Hn.
    rewrite Hj in Hn. discriminate.
Qed.

(** X4. [clean_review_text] returns the empty string exactly on the texts
    made of whitespace only (the empty text included). *)
Theorem clean_review_text_empty_iff (text : string) :
  clean_review_text text = "" <-> all_chars isspace text = true.
Proof. apply clean_review_text_empty_aux. Qed.


(** X5. [clean_review_text] is the join by single spaces of the words of
    its argument: the three replacements and the final [strip] change
    nothing, and the function agrees with [normalize_whitespace] of
    [utils/text_cleaning.py] on every string. *)
Theorem clean_review_text_is_normalize_whitespace (text : string) :
  clean_review_text text = join " " (split text) /\
  clean_review_text text = normalize_whitespace (Some text).
Proof.
  destruct (clean_review_text_words text) as [H _].
  rewrite split_respaced in H. split; exact H.
Qed.

(* ===================================================================== *)
(** ** What every record holds *)
(* ===================================================================== *)

Section RecordFacts.

Context {W Elem : Type}.
Variable drv : WebDriver W Elem.

Abbreviation Session := (session W Elem).

Lemma score_of_tokens_range (toks : list string) (s : Session) :
  post (score_of_tokens toks None) s
    (fun r _ => match r with Some v => 1 <= v <= 10 | None => True end)
    (fun _ _ => True).
Proof.
  unfold score_of_tokens.
  apply post_for_in with (I := fun (acc : option Z) (_ : Session) => acc = None).
  - intros tok acc s1 ->.
    destruct (isdigit tok); [| apply post_ret; reflexivity].
    destruct (to_int tok) as [val |]; [| apply post_raise; exact I].
    destruct ((1 <=? val) && (val <=? 10)) eqn:Hin; apply post_ret; [| reflexivity].
    apply andb_true_iff in Hin. destruct Hin as [H1 H2].
    apply Z.leb_le in H1. apply Z.leb_le in H2. lia.
  - intros acc s1 ->. exact I.
  - reflexivity.
Qed.

(** The score is absent or between 1 and 10. *)
Lemma extract_score_range (block : Elem) (s : Session) :
  post (extract_score drv block) s
    (fun r _ => match r with Some v => 1 <= v <= 10 | None => True end)
    (fun _ _ => True).
Proof.
  unfold extract_score.
  apply post_for_in with (I := fun (acc : option Z) (_ : Session) => acc = None).
  - intros sel acc s1 ->. apply post_bind.
    eapply post_weaken; [apply post_try_returns | | intros ? ? []].
    intros [txt |] s2 _; [| apply post_ret; reflexivity].
    apply post_bind.
    eapply post_weaken; [apply score_of_tokens_range | | auto].
    intros [v |] s3 Hv; cbn [is_some]; apply post_ret; [exact Hv | reflexivity].
  - intros acc s1 ->. exact I.
  - reflexivity.
Qed.

Lemma read_text_stripped (block : Elem) (s : Session) :
  post (read_text drv block) s (fun t _ => strip t = t) (fun _ _ => False).
Proof.
  unfold read_text.
  apply post_for_in with (I := fun (acc : string) (_ : Session) => acc = "").
  - intros sel acc s1 ->. apply post_try. apply post_bind.
    eapply post_weaken; [apply post_trivial | | intros; apply post_ret; reflexivity].
    intros el s2 _. apply post_bind.
    eapply post_weaken; [apply post_trivial | | intros; apply post_ret; reflexivity].
    intros o s3 _.
    destruct (is_empty (strip (or_empty o))) eqn:He; cbn [negb]; apply post_ret.
    + apply is_empty_true. exact He.
    + apply strip_idempotent.
  - intros acc s1 ->. reflexivity.
  - reflexivity.
Qed.

Lemma reread_text_stripped (block : Elem) (t1 : string) (s : Session) :
  strip t1 = t1 ->
  post (reread_text drv block t1) s (fun t _ => strip t = t) (fun _ _ => False).
Proof.
  intro H1. unfold reread_text.
  apply post_for_in with (I := fun (acc : string) (_ : Session) => strip acc = acc);
    [| auto | exact H1].
  intros sel acc s1 Hacc. apply post_try. apply post_bind.
  eapply post_weaken; [apply post_trivial | | intros; apply post_ret; exact Hacc].
  intros el s2 _. apply post_bind.
  eapply post_weaken; [apply post_trivial | | intros; apply post_ret; exact Hacc].
  intros o s3 _.
  destruct (len acc <? len (strip (or_empty o))); apply post_ret;
    [apply strip_idempotent | exact Hacc].
Qed.

(** The body text that reaches the length gate has no whitespace at either
    end. *)
Lemma extract_text_stripped (block : Elem) (s : Session) :
  post (extract_text drv block) s (fun t _ => strip t = t) (fun _ _ => True).
Proof.
  unfold extract_text. apply post_bind.
  eapply post_weaken; [apply read_text_stripped | | intros ? ? []].
  intros t1 s1 H1.
  destruct (likely_truncated t1); [| apply post_ret; exact H1].
  do 2 post_skip.
  eapply post_weaken; [apply reread_text_stripped; exact H1 | auto | intros ? ? []].
Qed.

Lemma extract_date_stripped (block : Elem) (s : Session) :
  post (extract_date drv block) s (fun d _ => strip d = d) (fun _ _ => False).
Proof.
  unfold extract_date.
  apply post_for_in with (I := fun (acc : string) (_ : Session) => acc = "").
  - intros sel acc s1 ->. apply post_try. apply post_bind.
    eapply post_weaken; [apply post_trivial | | intros; apply post_ret; reflexivity].
    intros el s2 _. apply post_bind.
    eapply post_weaken; [apply post_trivial | | intros; apply post_ret; reflexivity].
    intros [t |] s3 _; [| apply post_raise; apply post_ret; reflexivity].
    destruct (is_empty (strip t)); cbn [negb]; apply post_ret;
      [reflexivity | apply strip_idempotent].
  - intros acc s1 ->. reflexivity.
  - reflexivity.
Qed.

Lemma parse_review_block_well_formed (block : Elem) (s : Session) :
  post (parse_review_block drv block) s
    (fun r _ => match r with Some p => well_formed_parsed p | None => True end)
    (fun _ _ => True).
Proof.
  unfold parse_review_block. apply post_try. apply post_bind.
  eapply post_weaken;
    [apply extract_text_stripped | | intros; apply post_ret; exact I].
  intros raw s1 Hraw.
  destruct (too_short raw) eqn:Hshort; [apply post_ret; exact I |].
  unfold too_short in Hshort. apply orb_false_iff in Hshort.
  destruct Hshort as [_ Hlen]. apply Z.ltb_ge in Hlen.
  apply post_bind.
  eapply post_weaken;
    [apply extract_score_range | | intros; apply post_ret; exact I].
  intros score s2 Hscore. apply post_bind.
  eapply post_weaken; [apply extract_recommendation_value | | intros ? ? []].
  intros rec s3 Hrec. apply post_bind.
  eapply post_weaken; [apply extract_date_stripped | | intros ? ? []].
  intros date s4 Hdate. apply post_ret.
  unfold well_formed_parsed. cbn.
  split; [exists raw; auto |]. auto.
Qed.

End RecordFacts.

(** Every record of a run satisfies whatever holds of every record made
    from an accepted block. *)
Lemma scrape_rows_satisfy {W Elem : Type} (drv : WebDriver W Elem)
  (sha1_hexdigest : string -> string) (self : Scraper)
  (series_name reviews_url : string) (t : Z) (s0 : session W Elem)
  (P : row -> Prop) :
  (forall pg p, well_formed_parsed p -> P (make_row sha1_hexdigest series_name pg p)) ->
  exists rows s',
    scrape_reviews_for_series drv sha1_hexdigest self series_name reviews_url t s0
      = Some (rows, s') /\
    Forall P rows.
Proof.
  intro Hrow.
  destruct (harvest_spec drv sha1_hexdigest self LOOP_FUEL series_name
              reviews_url t s0) as (o & Ho & _); [unfold LOOP_FUEL; lia |].
  unfold scrape_reviews_for_series. rewrite Ho.
  exists (reviews (final o)), (closed o). split; [reflexivity |].
  apply (harvest_rows drv sha1_hexdigest self series_name well_formed_parsed P
           (parse_review_block_well_formed drv) Hrow
           LOOP_FUEL reviews_url t s0 o Ho).
Qed.

Lemma stripped_nonempty_not_blank (raw : string) :
  strip raw = raw -> 50 <= len raw -> all_chars isspace raw = false.
Proof.
  intros Hs Hlen. destruct raw as [| c raw]; [cbn in Hlen; lia |].
  cbn [all_chars]. rewrite (strip_fixed_head c raw Hs). reflexivity.
Qed.

(** X6. Every record that [scrape_reviews_for_series] returns stores a
    [review_text] that is not empty and has no whitespace at either end; it
    is the cleaned form of a body that passed the gate, a text of at least
    50 characters without whitespace at either end, and it is no longer than
    that body. *)
Theorem records_store_cleaned_body {W Elem : Type} (drv : WebDriver W Elem)
  (sha1_hexdigest : string -> string) (self : Scraper)
  (series_name reviews_url : string) (t : Z) (s0 : session W Elem) :
  exists rows s',
    scrape_reviews_for_series drv sha1_hexdigest self series_name reviews_url t s0
      = Some (rows, s') /\
    Forall (fun r =>
              review_text r <> "" /\
              strip (review_text r) = review_text r /\
              exists raw,
                review_text r = clean_review_text raw /\
                strip raw = raw /\ 50 <= len raw /\
                len (review_text r) <= len raw) rows.
Proof.
  apply scrape_rows_satisfy.
  intros pg p ((raw & Htext & Hraw & Hlen) & _). cbn [make_row review_text].
  rewrite Htext.
  split; [| split].
  - intro Hempty. apply clean_review_text_empty_aux in Hempty.
    rewrite (stripped_nonempty_not_blank raw Hraw Hlen) in Hempty. discriminate.
  - destruct (clean_review_text_words raw) as [-> Hws].
    apply strip_join_words. exact Hws.
  - exists raw. repeat split; try assumption.
    destruct (clean_review_text_words raw) as [-> _].
    pose proof (length_join_split_from (respaced raw) "") as H.
    unfold len, split. unfold respaced in H at 2.
    rewrite !length_replace_char in H. cbn [String.length] in H. lia.
Qed.

(** X7. Every record that [scrape_reviews_for_series] returns has a
    [user_score] that is absent or an integer from 1 to 10. *)
Theorem records_score_in_range {W Elem : Type} (drv : WebDriver W Elem)
  (sha1_hexdigest : string -> string) (self : Scraper)
  (series_name reviews_url : string) (t : Z) (s0 : session W Elem) :
  exists rows s',
    scrape_reviews_for_series drv sha1_hexdigest self series_name reviews_url t s0
      = Some (rows, s') /\
    Forall (fun r => user_score r = None \/
                     exists v, user_score r = Some v /\ 1 <= v <= 10) rows.
Proof.
  apply scrape_rows_satisfy.
  intros pg p (_ & Hscore & _). cbn [make_row user_score].
  destruct (p_user_score p) as [v |]; [right; exists v; auto | left; reflexivity].
Qed.

(** X8. Every record that [scrape_reviews_for_series] returns has a
    [recommendation] among Not Recommended, Mixed Feelings, Recommended and
    the empty string, and a [review_date] without whitespace at either end
    (empty when no date was read). *)
Theorem records_tag_and_date {W Elem : Type} (drv : WebDriver W Elem)
  (sha1_hexdigest : string -> string) (self : Scraper)
  (series_name reviews_url : string) (t : Z) (s0 : session W Elem) :
  exists rows s',
    scrape_reviews_for_series drv sha1_hexdigest self series_name reviews_url t s0
      = Some (rows, s') /\
    Forall (fun r =>
              (recommendation r = "Not Recommended" \/
               recommendation r = "Mixed Feelings" \/
               recommendation r = "Recommended" \/
               recommendation r = "") /\
              strip (review_date r) = review_date r) rows.
Proof.
  apply scrape_rows_satisfy.
  intros pg p (_ & _ & Htag & Hdate). cbn [make_row recommendation review_date].
  split; [exact Htag | exact Hdate].
Qed.

(** X9. Every record that [scrape_reviews_for_series] returns belongs to
    the series asked for: it carries the series name, the entity and the
    numeric identifier that the two tables give for that name, and the
    identifier computed from that name and the record's own stored text. *)
Theorem records_belong_to_series {W Elem : Type} (drv : WebDriver W Elem)
  (sha1_hexdigest : string -> string) (self : Scraper)
  (series_name reviews_url : string) (t : Z) (s0 : session W Elem) :
  exists rows s',
    scrape_reviews_for_series drv sha1_hexdigest self series_name reviews_url t s0
      = Some (rows, s') /\
    Forall (fun r =>
              series_component r = series_name /\
              entity r = _entity_for series_name /\
              series_id r = _mal_id_for series_name /\
              review_id r = _review_id sha1_hexdigest series_name (review_text r)) rows.
Proof.
  apply scrape_rows_satisfy.
  intros pg p _. repeat split.
Qed.

(* ===================================================================== *)
(** ** Page numbers of the records *)
(* ===================================================================== *)

Lemma nondecreasing_snoc (l : list Z) (x : Z) :
  nondecreasing l -> Forall (fun y => y <= x) l -> nondecreasing (l ++ [x]).
Proof.
  induction l as [| y l IH]; intros Hl Hx; cbn.
  - split; [constructor | exact I].
  - destruct Hl as [Hy Hl]. inversion Hx as [| ? ? Hyx Hx']; subst.
    split; [| apply IH; assumption].
    apply Forall_app. split; [exact Hy |]. constructor; [exact Hyx | constructor].
Qed.

Lemma paged_same (l l' : locals) :
  reviews l' = reviews l -> page l' = page l -> paged l -> paged l'.
Proof. unfold paged. intros -> ->. auto. Qed.

Lemma paged_next_page (l : locals) :
  paged l -> paged (set_page (page l + 1) l).
Proof.
  unfold paged. cbn. intros (Hall & Hsorted & Hpg).
  split; [| split; [exact Hsorted | lia]].
  eapply Forall_impl; [| exact Hall]. cbn. intros r H. lia.
Qed.

Lemma paged_append (l : locals) (r : row) :
  paged l -> page l <= MAX_PAGES -> page_number r = page l ->
  paged (append_review r l).
Proof.
  unfold paged. cbn. intros (Hall & Hsorted & Hpg) Hcap Hr.
  split; [| split; [| exact Hpg]].
  - apply Forall_app. split; [exact Hall |].
    constructor; [lia | constructor].
  - rewrite map_app. cbn [map]. apply nondecreasing_snoc; [exact Hsorted |].
    rewrite Hr. apply Forall_map.
    eapply Forall_impl; [| exact Hall]. cbn. intros r' H. lia.
Qed.

Section PageFacts.

Context {W Elem : Type}.
Variable drv : WebDriver W Elem.
Variable sha1_hexdigest : string -> string.
Variable self : Scraper.
Variable name : string.

Abbreviation Session := (session W Elem).

Lemma parse_blocks_paged (t : Z) (blocks : list Elem) (st : Session * locals) :
  paged (snd st) -> page (snd st) <= MAX_PAGES ->
  post (parse_blocks drv sha1_hexdigest name t blocks) st
    (fun _ st' => paged (snd st') /\ page (snd st') = page (snd st))
    (fun _ _ => False).
Proof.
  intros Hp Hcap. unfold parse_blocks.
  apply post_for_in with
    (I := fun (_ : unit) (st' : Session * locals) =>
            paged (snd st') /\ page (snd st') = page (snd st));
    [| auto | auto].
  intros block [] st1 [Hp1 Hpg1].
  apply post_bind, post_get_locals.
  destruct (t <=? llen (reviews (snd st1))); [apply post_ret; auto |].
  apply post_bind.
  eapply post_weaken.
  - apply post_lift with (Qa := fun _ => True) (Ee := fun _ => False).
    apply parse_review_block_returns.
  - intros [p |] st2 [Hsame _]; cbn beta.
    + apply post_bind, post_set_locals, post_ret. cbn [snd].
      rewrite Hsame. split; [| cbn; exact Hpg1].
      apply paged_append; [exact Hp1 | lia | reflexivity].
    + apply post_ret. rewrite Hsame. auto.
  - intros e st2 [_ []].
Qed.

Lemma advance_paged (reviews_url : string) (st : Session * locals) :
  paged (snd st) ->
  post (advance drv self reviews_url) st
    (fun _ st' => paged (snd st')) (fun _ st' => paged (snd st')).
Proof.
  intro Hp. unfold advance.
  apply post_bind, post_get_locals.
  apply post_bind.
  eapply post_weaken.
  - apply post_lift with
      (Qa := fun r => r = (true, page (snd st) + 1)) (Ee := fun _ => True).
    apply goto_next_page_result.
  - intros r st1 [Hsame ->]. cbn beta.
    apply post_bind, post_set_locals. cbn [fst snd negb].
    apply post_ret. cbn [snd]. rewrite Hsame.
    apply paged_next_page. exact Hp.
  - intros e st1 [Hsame _]. rewrite Hsame. exact Hp.
Qed.

Lemma loop_body_paged (reviews_url : string) (t : Z) (st : Session * locals) :
  paged (snd st) -> page (snd st) <= MAX_PAGES ->
  post (loop_body drv sha1_hexdigest self name reviews_url t) st
    (fun _ st' => paged (snd st')) (fun _ st' => paged (snd st')).
Proof.
  intros Hp Hcap. unfold loop_body.
  apply post_bind.
  eapply post_weaken; [apply post_lift_any | | intros e st' ->; exact Hp].
  intros ? st1 H1. cbn in H1.
  apply post_bind.
  eapply post_weaken; [apply post_lift_any | | intros e st' ->; rewrite H1; exact Hp].
  intros ? st2 H2. cbn in H2. rewrite H1 in H2.
  apply post_bind.
  eapply post_weaken; [apply post_lift_any | | intros e st' ->; rewrite H2; exact Hp].
  intros ? st3 H3. cbn in H3. rewrite H2 in H3.
  apply post_bind.
  eapply post_weaken; [apply post_lift_any | | intros e st' ->; rewrite H3; exact Hp].
  intros blocks st4 H4. cbn in H4. rewrite H3 in H4.
  unfold handle_blocks.
  destruct (is_nil blocks).
  - apply post_bind, post_set_locals.
    apply post_bind, post_get_locals. cbn [snd fst].
    assert (Hp4 : paged (set_consecutive_empty (consecutive_empty (snd st4) + 1)
                           (snd st4))).
    { eapply paged_same; [| | exact Hp]; cbn; rewrite H4; reflexivity. }
    destruct (MAX_EMPTY_PAGES <=? _); [apply post_ret; exact Hp4 |].
    apply advance_paged. exact Hp4.
  - apply post_bind, post_set_locals.
    apply post_bind.
    eapply post_weaken.
    + apply parse_blocks_paged; cbn [snd].
      * eapply paged_same; [| | exact Hp]; cbn; rewrite H4; reflexivity.
      * cbn. rewrite H4. exact Hcap.
    + intros ? st5 [Hp5 _].
      apply post_bind, post_get_locals.
      destruct (t <=? llen (reviews (snd st5))); [apply post_ret; exact Hp5 |].
      apply advance_paged. exact Hp5.
    + intros e st5 [].
Qed.

Lemma paging_loop_paged (reviews_url : string) (t : Z) :
  forall (fuel : nat) (st : Session * locals),
    paged (snd st) ->
    post (paging_loop drv sha1_hexdigest self fuel name reviews_url t) st
      (fun _ st' => paged (snd st')) (fun _ st' => paged (snd st')).
Proof.
  induction fuel as [| fuel IH]; intros st Hp.
  - apply post_ret. exact Hp.
  - cbn [paging_loop]. apply post_bind, post_get_locals.
    destruct (negb (llen (reviews (snd st)) <? t)); [apply post_ret; exact Hp |].
    destruct (page (snd st) <=? MAX_PAGES) eqn:Hcap; cbn [negb];
      [| apply post_ret; exact Hp].
    apply Z.leb_le in Hcap.
    apply post_bind.
    eapply post_weaken; [apply loop_body_paged; assumption | | auto].
    intros [| x] st1 Hp1; [apply IH; exact Hp1 | apply post_ret; exact Hp1].
Qed.

Lemma harvest_paged (fuel : nat) (reviews_url : string) (t : Z) (s0 : Session)
  (o : @outcome W Elem) :
  harvest drv sha1_hexdigest self fuel name reviews_url t s0 = Some o ->
  paged (final o).
Proof.
  rewrite harvest_unfold.
  assert (Hinit : paged initial_locals).
  { unfold paged. cbn. repeat split; [constructor | lia]. }
  assert (H : post (try_block drv sha1_hexdigest self fuel name reviews_url t)
                (s0, initial_locals)
                (fun _ st' => paged (snd st')) (fun _ st' => paged (snd st'))).
  { unfold try_block. apply post_bind.
    eapply post_weaken; [apply post_lift_any | | intros e st1 ->; exact Hinit].
    intros ? st1 H1. cbn in H1.
    apply paging_loop_paged. rewrite H1. exact Hinit. }
  unfold post in H.
  destruct (try_block drv sha1_hexdigest self fuel name reviews_url t
              (s0, initial_locals)) as [[[x |] | e] [s1 l1]];
    intro Heq; inversion Heq; subst; exact H.
Qed.

End PageFacts.

(** X10. The records that [scrape_reviews_for_series] returns are in page
    order: every [page_number] is between 1 and the page cap 120, and along
    the list the page numbers never decrease. *)
Theorem records_in_page_order {W Elem : Type} (drv : WebDriver W Elem)
  (sha1_hexdigest : string -> string) (self : Scraper)
  (series_name reviews_url : string) (t : Z) (s0 : session W Elem) :
  exists rows s',
    scrape_reviews_for_series drv sha1_hexdigest self series_name reviews_url t s0
      = Some (rows, s') /\
    Forall (fun r => 1 <= page_number r <= MAX_PAGES) rows /\
    nondecreasing (map page_number rows).
Proof.
  destruct (harvest_spec drv sha1_hexdigest self LOOP_FUEL series_name
              reviews_url t s0) as (o & Ho & _); [unfold LOOP_FUEL; lia |].
  unfold scrape_reviews_for_series. rewrite Ho.
  exists (reviews (final o)), (closed o). split; [reflexivity |].
  destruct (harvest_paged drv sha1_hexdigest self series_name LOOP_FUEL
              reviews_url t s0 o Ho) as (Hall & Hsorted & _).
  split; [| exact Hsorted].
  eapply Forall_impl; [| exact Hall]. cbn. intros r H. lia.
Qed.

(* ===================================================================== *)
(** ** Which failures can end a run *)
(* ===================================================================== *)

Section TotalRules.

Context {S : Type}.

Lemma total_ret {A} (a : A) : total (ret a : M S A).
Proof. intro s. exists a, s. reflexivity. Qed.

Lemma total_bind {A B} (m : M S A) (k : A -> M S B) :
  total m -> (forall a, total (k a)) -> total (bind m k).
Proof.
  intros Hm Hk s. destruct (Hm s) as (a & s1 & H1).
  destruct (Hk a s1) as (b & s2 & H2).
  exists b, s2. unfold bind. rewrite H1. exact H2.
Qed.

Lemma total_try {A} (m : M S A) (h : exn -> M S A) :
  (forall e, total (h e)) -> total (try_except m h).
Proof.
  intros Hh s. unfold try_except.
  destruct (m s) as [[a | e] s1]; [exists a, s1; reflexivity | apply Hh].
Qed.

Lemma total_for_in {X A} (body : X -> A -> M S (ctl A)) :
  (forall x acc, total (body x acc)) ->
  forall xs acc, total (for_in xs body acc).
Proof.
  intros Hbody xs. induction xs as [| x xs IH]; intro acc.
  - apply total_ret.
  - cbn [for_in]. apply total_bind; [apply Hbody |].
    intros [a | a]; [apply IH | apply total_ret].
Qed.

Lemma total_if {A} (b : bool) (m1 m2 : M S A) :
  total m1 -> total m2 -> total (if b then m1 else m2).
Proof. destruct b; auto. Qed.

End TotalRules.

Section AbortFacts.

Context {W Elem : Type}.
Variable drv : WebDriver W Elem.
Variable sha1_hexdigest : string -> string.
Variable self : Scraper.

Abbreviation Session := (session W Elem).

(** [driver.get] does not raise, queries on the driver do not raise, and
    the delay is a length that [time.sleep] accepts. *)
Hypothesis get_ok : forall url w, fst (d_get drv url w) = Ok tt.
Hypothesis find_ok : forall by_ q w,
  exists els, fst (d_find_elements drv None by_ q w) = Ok els.
Hypothesis delay_ok : sleeps (delay self).

Lemma driver_get_total (url : string) : total (driver_get drv url).
Proof.
  intro s. unfold driver_get, call.
  pose proof (get_ok url (world s)) as H.
  destruct (d_get drv url (world s)) as [r w]. cbn in H. subst r.
  eexists. eexists. reflexivity.
Qed.

Lemma find_elements_total (by_ : By) (q : string) :
  total (find_elements drv None by_ q).
Proof.
  intro s. unfold find_elements, call.
  destruct (find_ok by_ q (world s)) as [els H].
  destruct (d_find_elements drv None by_ q (world s)) as [r w]. cbn in H. subst r.
  eexists. eexists. reflexivity.
Qed.

Lemma sleep_total (secs : pyfloat) : sleeps secs -> total (sleep drv secs).
Proof.
  intros (ms & -> & Hlo & Hhi) s. unfold sleep.
  replace ((ms <? - SLEEP_MAX) || (SLEEP_MAX <? ms)) with false
    by (symmetry; apply orb_false_iff; split; apply Z.ltb_ge;
        unfold SLEEP_MAX in *; lia).
  destruct (ms <? 0) eqn:Hneg; [apply Z.ltb_lt in Hneg; lia |].
  unfold call. eexists. eexists. reflexivity.
Qed.

(** The fixed sleeps of the source are accepted. *)
Lemma sleeps_ms (ms : Z) : 0 <= ms <= 1000 -> sleeps ms.
Proof. intro H. exists ms. split; [reflexivity | unfold SLEEP_MAX; lia]. Qed.

Lemma wait_for_reviews_total (timeout : Z) : total (_wait_for_reviews drv timeout).
Proof. apply total_try. intro e. apply total_ret. Qed.

Lemma force_render_total : total (_force_render drv).
Proof. apply total_try. intro e. apply total_ret. Qed.

Lemma prepare_page_filters_total : total (_prepare_page_filters drv).
Proof.
  unfold _prepare_page_filters.
  repeat (apply total_bind; [apply total_try; intro; apply total_ret | intro]).
  apply total_try. intro. apply total_ret.
Qed.

Lemma open_listing_total (reviews_url : string) :
  total (open_listing drv self reviews_url).
Proof.
  unfold open_listing.
  apply total_bind; [apply driver_get_total | intro].
  apply total_bind; [apply wait_for_reviews_total | intro].
  apply total_bind; [apply prepare_page_filters_total | intro].
  apply total_bind; [apply force_render_total | intro].
  apply sleep_total. exact delay_ok.
Qed.

Lemma click_round_total (buttons : list Elem) : total (click_round drv buttons).
Proof.
  unfold click_round. apply total_for_in. intros btn n.
  apply total_try. intro. apply total_ret.
Qed.

Lemma click_all_read_more_total : total (click_all_read_more drv).
Proof.
  unfold click_all_read_more. apply total_for_in. intros i n.
  apply total_bind; [apply find_elements_total | intro buttons].
  apply total_bind; [apply click_round_total | intro k].
  apply total_if; [apply total_ret |].
  apply total_bind; [apply sleep_total, sleeps_ms; lia | intro; apply total_ret].
Qed.

Lemma find_review_blocks_total : total (_find_review_blocks drv).
Proof.
  unfold _find_review_blocks, find_first_blocks. apply total_for_in. intros xp acc.
  apply total_bind; [apply find_elements_total | intro elems].
  apply total_if; apply total_ret.
Qed.

Lemma goto_next_page_total (reviews_url : string) (pg : Z) :
  total (_goto_next_page drv self reviews_url pg).
Proof.
  unfold _goto_next_page.
  apply total_bind; [apply total_try; intro; apply total_ret |].
  intros [res |]; [apply total_ret |].
  apply total_bind; [apply driver_get_total | intro].
  apply total_bind; [apply wait_for_reviews_total | intro].
  apply total_bind; [apply force_render_total | intro].
  apply total_bind; [apply sleep_total; exact delay_ok | intro].
  apply total_ret.
Qed.

Lemma lift_total {A} (m : M Session A) : total m -> total (@lift _ locals _ m).
Proof.
  intros Hm [s l]. destruct (Hm s) as (a & s1 & H1).
  exists a, (s1, l). unfold lift. cbn [fst snd]. rewrite H1. reflexivity.
Qed.

Lemma get_locals_total : total (@get_locals Session locals).
Proof. intro st. exists (snd st), st. reflexivity. Qed.

Lemma set_locals_total (f : locals -> locals) : total (@set_locals Session _ f).
Proof. intro st. eexists. eexists. reflexivity. Qed.

Lemma parse_blocks_total (name : string) (t : Z) (blocks : list Elem) :
  total (parse_blocks drv sha1_hexdigest name t blocks).
Proof.
  unfold parse_blocks. apply total_for_in. intros block [].
  apply total_bind; [apply get_locals_total | intro l].
  apply total_if; [apply total_ret |].
  apply total_bind.
  - apply lift_total. apply total_try. intro. apply total_ret.
  - intros [p |]; [| apply total_ret].
    apply total_bind; [apply set_locals_total | intro; apply total_ret].
Qed.

Lemma advance_total (reviews_url : string) : total (advance drv self reviews_url).
Proof.
  unfold advance.
  apply total_bind; [apply get_locals_total | intro l].
  apply total_bind; [apply lift_total, goto_next_page_total | intro r].
  apply total_bind; [apply set_locals_total | intro].
  apply total_if; apply total_ret.
Qed.

Lemma loop_body_total (name reviews_url : string) (t : Z) :
  total (loop_body drv sha1_hexdigest self name reviews_url t).
Proof.
  unfold loop_body.
  apply total_bind; [apply lift_total, click_all_read_more_total | intro].
  apply total_bind; [apply lift_total, force_render_total | intro].
  apply total_bind; [apply lift_total, sleep_total, sleeps_ms; lia | intro].
  apply total_bind; [apply lift_total, find_review_blocks_total | intro blocks].
  unfold handle_blocks. apply total_if.
  - apply total_bind; [apply set_locals_total | intro].
    apply total_bind; [apply get_locals_total | intro l].
    apply total_if; [apply total_ret | apply advance_total].
  - apply total_bind; [apply set_locals_total | intro].
    apply total_bind; [apply parse_blocks_total | intro].
    apply total_bind; [apply get_locals_total | intro l].
    apply total_if; [apply total_ret | apply advance_total].
Qed.

Lemma paging_loop_total (name reviews_url : string) (t : Z) (fuel : nat) :
  total (paging_loop drv sha1_hexdigest self fuel name reviews_url t).
Proof.
  induction fuel as [| fuel IH]; [apply total_ret |].
  cbn [paging_loop].
  apply total_bind; [apply get_locals_total | intro l].
  apply total_if; [apply total_ret |].
  apply total_if; [apply total_ret |].
  apply total_bind; [apply loop_body_total |].
  intros [| x]; [exact IH | apply total_ret].
Qed.

Lemma try_block_total (name reviews_url : string) (t : Z) (fuel : nat) :
  total (try_block drv sha1_hexdigest self fuel name reviews_url t).
Proof.
  unfold try_block.
  apply total_bind; [apply lift_total, open_listing_total | intro].
  apply paging_loop_total.
Qed.

Lemma harvest_not_raised (name reviews_url : string) (t : Z) (s0 : Session) :
  exists o,
    harvest drv sha1_hexdigest self LOOP_FUEL name reviews_url t s0 = Some o /\
    (exit o = CondTarget \/ exit o = CondPages \/
     exit o = BreakEmpty \/ exit o = BreakTarget).
Proof.
  destruct (harvest_spec drv sha1_hexdigest self LOOP_FUEL name reviews_url t s0)
    as (o & Ho & Hok); [unfold LOOP_FUEL; lia |].
  exists o. split; [exact Ho |].
  rewrite harvest_unfold in Ho.
  destruct (try_block_total name reviews_url t LOOP_FUEL (s0, initial_locals))
    as (r & st1 & Hrun).
  rewrite Hrun in Ho. destruct st1 as [s1 l1].
  destruct r as [x |]; [| discriminate].
  inversion Ho; subst o. unfold outcome_ok in Hok. cbn [exit final] in *.
  destruct x; auto.
  - destruct Hok as (_ & _ & _ & []).
  - (* the loop never returns the exit of the [except] clause *)
    exfalso. clear Hok Ho.
    unfold try_block, bind in Hrun.
    pose proof (post_lift_any (open_listing drv self reviews_url)
                  (s0, initial_locals)) as Hl.
    unfold post in Hl.
    destruct (lift (open_listing drv self reviews_url) (s0, initial_locals))
      as [[[] | e0] [s2 l2]]; [| discriminate].
    cbn in Hl. subst l2.
    pose proof (paging_loop_spec drv sha1_hexdigest self name reviews_url t
                  LOOP_FUEL s2 initial_locals) as Hloop.
    unfold post in Hloop. rewrite Hrun in Hloop.
    destruct Hloop as (x & Hx & _ & _ & _ & Hfalse);
      [cbn; caps_lia | cbn; caps_lia | cbn; caps_lia |].
    inversion Hx; subst x. exact Hfalse.
Qed.

End AbortFacts.

(** X11. With a target of zero or less, [scrape_reviews_for_series] opens
    the listing, never enters the loop and returns the empty list: the calls
    made are those of the opening steps, then [driver.quit()]. *)
Theorem nonpositive_target_returns_nothing {W Elem : Type} (drv : WebDriver W Elem)
  (sha1_hexdigest : string -> string) (self : Scraper)
  (series_name reviews_url : string) (t : Z) (s0 : session W Elem) :
  t <= 0 ->
  scrape_reviews_for_series drv sha1_hexdigest self series_name reviews_url t s0 =
  Some ([], quit_session drv (snd (open_listing drv self reviews_url s0))).
Proof.
  intro Ht. unfold scrape_reviews_for_series. rewrite harvest_unfold.
  unfold try_block, bind, lift. cbn [fst snd].
  destruct (open_listing drv self reviews_url s0) as [[[] | e] s1]; cbn [snd].
  - unfold LOOP_FUEL. rewrite paging_loop_step. cbn [reviews initial_locals].
    change (llen (@nil row)) with 0.
    destruct (0 <? t) eqn:Hpos; [apply Z.ltb_lt in Hpos; lia |].
    reflexivity.
  - reflexivity.
Qed.

Lemma nonpositive_target_returns_nothing_witness :
  0 <= 0 /\
  option_map fst
    (scrape_reviews_for_series (Toy.driver Toy.three_pages) Toy.digest Toy.scraper
       "Naruto" "https://myanimelist.net/anime/20/Naruto/reviews" 0 Toy.fresh)
  = Some [].
Proof.
  split; [lia |].
  rewrite (nonpositive_target_returns_nothing (Toy.driver Toy.three_pages)
             Toy.digest Toy.scraper "Naruto"
             "https://myanimelist.net/anime/20/Naruto/reviews" 0 Toy.fresh);
    [reflexivity | lia].
Defined.

(** X12. The only failures that can end a run early are those of
    [driver.get], of a query made on the driver itself, and of
    [time.sleep(self.delay)] on a delay it refuses (negative, not a number,
    infinite or too long for the clock): when these three cannot happen,
    whatever else fails in the browser (waits, clicks, scripts, queries
    inside elements, reads of text and attributes), the run ends on the
    target, on the page cap or on the empty streak, never through the
    [except] clause. *)
Theorem run_survives_element_failures {W Elem : Type} (drv : WebDriver W Elem)
  (sha1_hexdigest : string -> string) (self : Scraper)
  (series_name reviews_url : string) (t : Z) (s0 : session W Elem) :
  (forall url w, fst (d_get drv url w) = Ok tt) ->
  (forall by_ q w, exists els, fst (d_find_elements drv None by_ q w) = Ok els) ->
  sleeps (delay self) ->
  exists o,
    harvest drv sha1_hexdigest self LOOP_FUEL series_name reviews_url t s0 = Some o /\
    (exit o = CondTarget \/ exit o = CondPages \/
     exit o = BreakEmpty \/ exit o = BreakTarget) /\
    stopped_reason (exit o) <> SessionError.
Proof.
  intros Hget Hfind Hdelay.
  destruct (harvest_not_raised drv sha1_hexdigest self Hget Hfind Hdelay
              series_name reviews_url t s0) as (o & Ho & Hexit).
  exists o. split; [exact Ho |]. split; [exact Hexit |].
  destruct Hexit as [-> | [-> | [-> | ->]]]; discriminate.
Qed.

Lemma toy_get_never_raises (url : string) (w : Toy.world) :
  fst (d_get (Toy.driver Toy.three_pages) url w) = Ok tt.
Proof. reflexivity. Qed.

Lemma toy_find_never_raises (by_ : By) (q : string) (w : Toy.world) :
  exists els, fst (d_find_elements (Toy.driver Toy.three_pages) None by_ q w) = Ok els.
Proof.
  cbn [d_find_elements Toy.driver]. unfold Toy.find_all.
  destruct by_; try (eexists; reflexivity).
  destruct (String.eqb q _); [eexists; reflexivity |].
  destruct (String.eqb q _); eexists; reflexivity.
Qed.

Lemma run_survives_element_failures_witness :
  sleeps (delay Toy.scraper) /\
  exists o,
    harvest (Toy.driver Toy.three_pages) Toy.digest Toy.scraper LOOP_FUEL
      "One Piece" "https://myanimelist.net/anime/21/One_Piece/reviews" 600 Toy.fresh
      = Some o /\
    stopped_reason (exit o) <> SessionError.
Proof.
  split; [exists 2000; split; [reflexivity | unfold SLEEP_MAX; lia] |].
  destruct (run_survives_element_failures (Toy.driver Toy.three_pages) Toy.digest
              Toy.scraper "One Piece"
              "https://myanimelist.net/anime/21/One_Piece/reviews" 600 Toy.fresh
              toy_get_never_raises toy_find_never_raises)
    as (o & Ho & _ & Hreason).
  - exists 2000. split; [reflexivity | unfold SLEEP_MAX; lia].
  - exists o. split; assumption.
Defined.

(** X13. When [driver.get] cannot raise and the delay is a length that
    [time.sleep] accepts (a finite float, not negative, not too long for the
    clock), [_goto_next_page] always returns, with [(True, page + 1)]: a
    failure of the link query, of the click or of the wait never reaches the
    caller. *)
Theorem goto_next_page_returns {W Elem : Type} (drv : WebDriver W Elem)
  (self : Scraper) (reviews_url : string) (pg : Z) (s : session W Elem) :
  (forall url w, fst (d_get drv url w) = Ok tt) ->
  sleeps (delay self) ->
  exists s', _goto_next_page drv self reviews_url pg s = (Ok (true, pg + 1), s').
Proof.
  intros Hget Hdelay.
  destruct (goto_next_page_total drv self Hget Hdelay reviews_url pg s)
    as (r & s' & Hrun).
  pose proof (goto_next_page_result drv self reviews_url pg s) as Hres.
  unfold post in Hres. rewrite Hrun in Hres. subst r.
  exists s'. exact Hrun.
Qed.

Lemma goto_next_page_returns_witness :
  sleeps (delay Toy.scraper) /\
  exists s',
    _goto_next_page (Toy.driver Toy.three_pages) Toy.scraper
      "https://myanimelist.net/anime/21/One_Piece/reviews" 7 Toy.fresh
    = (Ok (true, 7 + 1), s').
Proof.
  split; [exists 2000; split; [reflexivity | unfold SLEEP_MAX; lia] |].
  apply (goto_next_page_returns (Toy.driver Toy.three_pages) Toy.scraper
           "https://myanimelist.net/anime/21/One_Piece/reviews" 7 Toy.fresh
           toy_get_never_raises).
  exists 2000. split; [reflexivity | unfold SLEEP_MAX; lia].
Defined.

(* ===================================================================== *)
(** ** The calls a computation makes *)
(* ===================================================================== *)

Section AddsRules.

Context {Elem S : Type}.
Variable tr : S -> list (event Elem).
Variable ok : event Elem -> bool.

Lemma adds_ret {A} (a : A) : adds tr ok (ret a : M S A).
Proof. intro s. apply post_ret. exists []. split; [symmetry; apply app_nil_r | reflexivity]. Qed.

Lemma adds_raise {A} (e : exn) : adds tr ok (@raise S A e).
Proof. intro s. apply post_raise. exists []. split; [symmetry; apply app_nil_r | reflexivity]. Qed.

Lemma adds_chain (s s1 s2 : S) :
  (exists evs, tr s1 = (tr s ++ evs)%list /\ forallb ok evs = true) ->
  (exists evs, tr s2 = (tr s1 ++ evs)%list /\ forallb ok evs = true) ->
  exists evs, tr s2 = (tr s ++ evs)%list /\ forallb ok evs = true.
Proof.
  intros (e1 & H1 & F1) (e2 & H2 & F2). exists (e1 ++ e2)%list. split.
  - rewrite H2, H1. symmetry. apply app_assoc.
  - rewrite forallb_app, F1, F2. reflexivity.
Qed.

Lemma adds_bind {A B} (m : M S A) (k : A -> M S B) :
  adds tr ok m -> (forall a, adds tr ok (k a)) -> adds tr ok (bind m k).
Proof.
  intros Hm Hk s. apply post_bind.
  eapply post_weaken; [apply Hm | | auto].
  intros a s1 H1. eapply post_weaken; [apply Hk | | ];
    intros ? s2 H2; cbn beta in *; eapply adds_chain; eassumption.
Qed.

Lemma adds_try {A} (m : M S A) (h : exn -> M S A) :
  adds tr ok m -> (forall e, adds tr ok (h e)) -> adds tr ok (try_except m h).
Proof.
  intros Hm Hh s. apply post_try.
  eapply post_weaken; [apply Hm | auto | ].
  intros e s1 H1. eapply post_weaken; [apply Hh | | ];
    intros ? s2 H2; cbn beta in *; eapply adds_chain; eassumption.
Qed.

Lemma adds_for_in {X A} (body : X -> A -> M S (ctl A)) :
  (forall x acc, adds tr ok (body x acc)) ->
  forall xs acc, adds tr ok (for_in xs body acc).
Proof.
  intros Hbody xs. induction xs as [| x xs IH]; intro acc.
  - apply adds_ret.
  - cbn [for_in]. apply adds_bind; [apply Hbody |].
    intros [a | a]; [apply IH | apply adds_ret].
Qed.

End AddsRules.

Section AddsCalls.

Context {W Elem : Type}.
Variable drv : WebDriver W Elem.
Variable ok : event Elem -> bool.

Abbreviation Session := (session W Elem).

Lemma adds_call {A} (ev : event Elem) (f : W -> result A * W) :
  ok ev = true -> adds trace ok (call ev f).
Proof.
  intros Hev s. unfold post, call.
  destruct (f (world s)) as [[a | e] w]; cbn [trace];
    exists [ev]; cbn [forallb]; rewrite Hev; split; reflexivity.
Qed.

Lemma adds_sleep (secs : pyfloat) :
  (forall ms, ok (EvSleep ms) = true) -> adds trace ok (sleep drv secs).
Proof.
  intro Hev. unfold sleep. destruct secs as [ms | | |]; try apply adds_raise.
  destruct ((ms <? - SLEEP_MAX) || (SLEEP_MAX <? ms)); [apply adds_raise |].
  destruct (ms <? 0); [apply adds_raise |].
  apply adds_call. apply Hev.
Qed.

Lemma adds_lift {A} (m : M Session A) :
  adds trace ok m -> adds run_trace ok (@lift _ locals _ m).
Proof.
  intros Hm [s l]. specialize (Hm s). unfold post, lift, run_trace in *.
  cbn [fst snd]. destruct (m s) as [[a | e] s1]; exact Hm.
Qed.

Lemma adds_get_locals : adds run_trace ok (@get_locals Session locals).
Proof.
  intro st. apply post_get_locals. exists [].
  split; [symmetry; apply app_nil_r | reflexivity].
Qed.

Lemma adds_set_locals (f : locals -> locals) :
  adds run_trace ok (@set_locals Session _ f).
Proof.
  intro st. apply post_set_locals. exists [].
  split; [symmetry; apply app_nil_r | reflexivity].
Qed.

End AddsCalls.

(** Close a goal [adds trace ok m] for a helper [m] of the scraper: unfold
    the helpers down to the logged calls, then go rule by rule; the side
    conditions [ok ev = true] are computed. *)
Ltac adds_steps :=
  unfold _goto_next_page, click_more_reviews, open_listing,
    parse_review_block, extract_text, read_text, reread_text, extract_score,
    score_of_tokens, extract_recommendation, scan_tags, extract_date,
    _find_review_blocks, find_first_blocks, _expand_review_in_block,
    click_all_read_more, click_round, _prepare_page_filters, choose_option,
    _force_render, _wait_for_reviews,
    driver_get, find_element, find_elements, text_of, get_attribute,
    execute_script, click, is_displayed, wait_presence;
  repeat first
    [ apply adds_ret
    | apply adds_raise
    | apply adds_sleep; intro; reflexivity
    | apply adds_call; reflexivity
    | apply adds_for_in; intros
    | apply adds_bind; [| intro]
    | apply adds_try; [| intro]
    | match goal with
      | |- adds _ _ (if ?b then _ else _) => destruct b
      | |- adds _ _ (match ?o with Some _ => _ | None => _ end) => destruct o
      | |- adds _ _ (let _ := _ in _) => cbv zeta
      end ].

Section AddsHelpers.

Context {W Elem : Type}.
Variable drv : WebDriver W Elem.
Variable sha1_hexdigest : string -> string.
Variable self : Scraper.

(** A property of calls that holds of every call but [driver.quit()]. *)
Variable ok : event Elem -> bool.
Hypothesis ok_not_quit : forall ev, is_quit ev = false -> ok ev = true.

Abbreviation Session := (session W Elem).

Ltac ok_steps :=
  unfold _goto_next_page, click_more_reviews, open_listing,
    parse_review_block, extract_text, read_text, reread_text, extract_score,
    score_of_tokens, extract_recommendation, scan_tags, extract_date,
    _find_review_blocks, find_first_blocks, _expand_review_in_block,
    click_all_read_more, click_round, _prepare_page_filters, choose_option,
    _force_render, _wait_for_reviews,
    driver_get, find_element, find_elements, text_of, get_attribute,
    execute_script, click, is_displayed, wait_presence;
  repeat first
    [ apply adds_ret
    | apply adds_raise
    | apply adds_sleep; intro; apply ok_not_quit; reflexivity
    | apply adds_call; apply ok_not_quit; reflexivity
    | apply adds_for_in; intros
    | apply adds_bind; [| intro]
    | apply adds_try; [| intro]
    | match goal with
      | |- adds _ _ (if ?b then _ else _) => destruct b
      | |- adds _ _ (match ?o with Some _ => _ | None => _ end) => destruct o
      | |- adds _ _ (let _ := _ in _) => cbv zeta
      end ].

Lemma adds_open_listing (url : string) : adds trace ok (open_listing drv self url).
Proof. ok_steps. Qed.

Lemma adds_click_all_read_more : adds trace ok (click_all_read_more drv).
Proof. ok_steps. Qed.

Lemma adds_force_render : adds trace ok (_force_render drv).
Proof. ok_steps. Qed.

Lemma adds_find_review_blocks : adds trace ok (_find_review_blocks drv).
Proof. ok_steps. Qed.

Lemma adds_parse_review_block (block : Elem) :
  adds trace ok (parse_review_block drv block).
Proof. ok_steps. Qed.

Lemma adds_goto_next_page (url : string) (pg : Z) :
  adds trace ok (_goto_next_page drv self url pg).
Proof. ok_steps. Qed.

Lemma adds_parse_blocks (name : string) (t : Z) (blocks : list Elem) :
  adds run_trace ok (parse_blocks drv sha1_hexdigest name t blocks).
Proof.
  unfold parse_blocks. apply adds_for_in. intros block [].
  apply adds_bind; [apply adds_get_locals | intro l].
  destruct (t <=? llen (reviews l)); [apply adds_ret |].
  apply adds_bind; [apply adds_lift, adds_parse_review_block |].
  intros [p |]; [| apply adds_ret].
  apply adds_bind; [apply adds_set_locals | intro; apply adds_ret].
Qed.

Lemma adds_advance (url : string) : adds run_trace ok (advance drv self url).
Proof.
  unfold advance.
  apply adds_bind; [apply adds_get_locals | intro l].
  apply adds_bind; [apply adds_lift, adds_goto_next_page | intro r].
  apply adds_bind; [apply adds_set_locals | intro].
  destruct (negb (fst r)); apply adds_ret.
Qed.

Lemma adds_loop_body (name url : string) (t : Z) :
  adds run_trace ok (loop_body drv sha1_hexdigest self name url t).
Proof.
  unfold loop_body.
  apply adds_bind; [apply adds_lift, adds_click_all_read_more | intro].
  apply adds_bind; [apply adds_lift, adds_force_render | intro].
  apply adds_bind;
    [apply adds_lift, adds_sleep; intro; apply ok_not_quit; reflexivity | intro].
  apply adds_bind; [apply adds_lift, adds_find_review_blocks | intro blocks].
  unfold handle_blocks. destruct (is_nil blocks).
  - apply adds_bind; [apply adds_set_locals | intro].
    apply adds_bind; [apply adds_get_locals | intro l].
    destruct (MAX_EMPTY_PAGES <=? consecutive_empty l);
      [apply adds_ret | apply adds_advance].
  - apply adds_bind; [apply adds_set_locals | intro].
    apply adds_bind; [apply adds_parse_blocks | intro].
    apply adds_bind; [apply adds_get_locals | intro l].
    destruct (t <=? llen (reviews l)); [apply adds_ret | apply adds_advance].
Qed.

Lemma adds_paging_loop (name url : string) (t : Z) (fuel : nat) :
  adds run_trace ok (paging_loop drv sha1_hexdigest self fuel name url t).
Proof.
  induction fuel as [| fuel IH]; [apply adds_ret |].
  cbn [paging_loop].
  apply adds_bind; [apply adds_get_locals | intro l].
  destruct (negb (llen (reviews l) <? t)); [apply adds_ret |].
  destruct (negb (page l <=? MAX_PAGES)); [apply adds_ret |].
  apply adds_bind; [apply adds_loop_body |].
  intros [| x]; [exact IH | apply adds_ret].
Qed.

End AddsHelpers.

Section CallOrder.

Context {W Elem : Type}.
Variable drv : WebDriver W Elem.

Abbreviation Session := (session W Elem).

(** A computation that starts with a logged call: the call is the first
    thing appended, whether or not it raises. *)
Lemma starts_with_call {A B} (ok : event Elem -> bool) (ev : event Elem)
  (f : W -> result A * W) (k : A -> M Session B) :
  (forall a, adds trace ok (k a)) ->
  forall s, post (bind (call ev f) k) s
    (fun _ s' => exists evs, trace s' = (trace s ++ ev :: evs)%list /\
                             forallb ok evs = true)
    (fun _ s' => exists evs, trace s' = (trace s ++ ev :: evs)%list /\
                             forallb ok evs = true).
Proof.
  intros Hk s. unfold post, bind, call.
  destruct (f (world s)) as [[a | e] w].
  - specialize (Hk a (Build_session w (trace s ++ [ev]))). unfold post in Hk.
    destruct (k a (Build_session w (trace s ++ [ev]))) as [[b | e] s'];
      destruct Hk as (evs & Ht & Hok); exists evs; (split; [| exact Hok]);
      rewrite Ht; cbn [trace]; rewrite <- app_assoc; reflexivity.
  - exists []. split; reflexivity.
Qed.

Lemma try_call_first {A B} (ok : event Elem -> bool) (ev : event Elem)
  (f : W -> result A * W) (k : A -> M Session B) (b0 : B) :
  (forall a, adds trace ok (k a)) ->
  forall s, post (try_except (bind (call ev f) k) (fun _ => ret b0)) s
    (fun _ s' => exists evs, trace s' = (trace s ++ ev :: evs)%list /\
                             forallb ok evs = true)
    (fun _ _ => False).
Proof.
  intros Hk s. apply post_try.
  eapply post_weaken; [apply (starts_with_call ok ev f k Hk) | auto |].
  intros e s' H. apply post_ret. exact H.
Qed.

Lemma post_run {A} (m : M Session A) (s : Session) (Q : A -> Session -> Prop) :
  post m s Q (fun _ _ => False) -> exists a s', m s = (Ok a, s') /\ Q a s'.
Proof.
  unfold post. destruct (m s) as [[a | e] s']; [eauto | contradiction].
Qed.

(** X14. [_prepare_page_filters] never raises, and it always makes its
    three queries, in order, whatever fails in between: the query for the
    sort drop-downs first, later the query for the All links, later the
    query for the spoiler buttons. *)
Theorem prepare_page_filters_tries_every_step (s : Session) :
  exists s' b c d,
    _prepare_page_filters drv s = (Ok tt, s') /\
    trace s' =
      (trace s
       ++ EvFindElements None CSS_SELECTOR "select, .sort-select" :: b
       ++ EvFindElements None XPATH
            "//a[contains(.,'All Reviews') or contains(.,'All reviews') or contains(.,'All')]" :: c
       ++ EvFindElements None XPATH
            "//a[contains(.,'Show Spoilers') or contains(.,'Spoilers')]" :: d)%list.
Proof.
  unfold _prepare_page_filters, find_elements.
  set (ok := fun _ : event Elem => true).
  unfold bind at 1.
  match goal with
  | |- context [try_except (bind (call ?ev ?f) ?k) ?h s] =>
      destruct (post_run _ s _ (try_call_first ok ev f k tt
                  ltac:(intro; subst ok; adds_steps) s))
        as ([] & s1 & -> & b & Hb & _)
  end.
  unfold bind at 1.
  match goal with
  | |- context [try_except (bind (call ?ev ?f) ?k) ?h s1] =>
      destruct (post_run _ s1 _ (try_call_first ok ev f k tt
                  ltac:(intro; subst ok; adds_steps) s1))
        as ([] & s2 & -> & c & Hc & _)
  end.
  match goal with
  | |- context [try_except (bind (call ?ev ?f) ?k) ?h s2] =>
      destruct (post_run _ s2 _ (try_call_first ok ev f k tt
                  ltac:(intro; subst ok; adds_steps) s2))
        as ([] & s3 & -> & d & Hd & _)
  end.
  exists s3, b, c, d. split; [reflexivity |].
  rewrite Hd, Hc, Hb. rewrite <- !app_assoc. reflexivity.
Qed.

(** X15. When [_goto_next_page] raises, it has tried the fallback: the
    [driver.get] of the listing URL with [?p=] and the next page number is
    among the calls it made. *)
Theorem goto_next_page_raises_after_fallback (self : Scraper)
  (reviews_url : string) (pg : Z) (s : Session) :
  match _goto_next_page drv self reviews_url pg s with
  | (Ok _, _) => True
  | (Raise _, s') =>
      exists a b,
        trace s' =
          (trace s ++ a ++ EvGet (reviews_url ++ "?p=" ++ of_int (pg + 1)) :: b)%list
  end.
Proof.
  set (ok := fun _ : event Elem => true).
  assert (H : post (_goto_next_page drv self reviews_url pg) s
                (fun _ _ => True)
                (fun _ s' => exists a b,
                   trace s' =
                     (trace s ++ a ++ EvGet (reviews_url ++ "?p=" ++ of_int (pg + 1)) :: b)%list)).
  { unfold _goto_next_page. apply post_bind.
    assert (Hfirst : adds trace ok
              (try_except
                 (links <- find_elements drv None XPATH "//a[contains(., 'More Reviews')]" ;;
                  click_more_reviews drv self pg links)
                 (fun _ => ret None))).
    { subst ok. adds_steps. }
    eapply post_weaken.
    - apply post_and; [apply Hfirst | apply post_try_returns].
    - intros r s1 [(a & Ha & _) _].
      destruct r as [res |]; [apply post_ret; exact I |].
      unfold driver_get, next_url.
      eapply post_weaken.
      + apply (starts_with_call ok). intro. subst ok. adds_steps.
      + auto.
      + intros e s2 (b & Hb & _). exists a, b.
        rewrite Hb, Ha. rewrite <- app_assoc. reflexivity.
    - intros e s1 [_ []]. }
  unfold post in H.
  destruct (_goto_next_page drv self reviews_url pg s) as [[r | e] s']; exact H.
Qed.

End CallOrder.

Section Lifecycle.

Context {W Elem : Type}.
Variable drv : WebDriver W Elem.
Variable sha1_hexdigest : string -> string.
Variable self : Scraper.

Abbreviation Session := (session W Elem).

Lemma not_quit_ok (ev : event Elem) : is_quit ev = false -> not_quit ev = true.
Proof. unfold not_quit. intros ->. reflexivity. Qed.

Lemma try_block_calls (fuel : nat) (name url : string) (t : Z) (s0 : Session) :
  post (try_block drv sha1_hexdigest self fuel name url t) (s0, initial_locals)
    (fun _ st' => exists evs,
       run_trace st' = (trace s0 ++ EvGet url :: evs)%list /\
       forallb not_quit evs = true)
    (fun _ st' => exists evs,
       run_trace st' = (trace s0 ++ EvGet url :: evs)%list /\
       forallb not_quit evs = true).
Proof.
  unfold try_block. apply post_bind.
  assert (Hopen : post (open_listing drv self url) s0
            (fun _ s' => exists evs, trace s' = (trace s0 ++ EvGet url :: evs)%list /\
                                     forallb not_quit evs = true)
            (fun _ s' => exists evs, trace s' = (trace s0 ++ EvGet url :: evs)%list /\
                                     forallb not_quit evs = true)).
  { unfold open_listing, driver_get. apply starts_with_call.
    intro. adds_steps. }
  assert (Hlift : post (lift (open_listing drv self url)) (s0, initial_locals)
            (fun _ st' => exists evs,
               run_trace st' = (trace s0 ++ EvGet url :: evs)%list /\
               forallb not_quit evs = true)
            (fun _ st' => exists evs,
               run_trace st' = (trace s0 ++ EvGet url :: evs)%list /\
               forallb not_quit evs = true)).
  { unfold post, lift, run_trace in *. cbn [fst snd].
    destruct (open_listing drv self url s0) as [[a | e] s1]; exact Hopen. }
  eapply post_weaken; [exact Hlift | | auto].
  intros ? st1 (evs1 & H1 & F1).
  eapply post_weaken;
    [apply (adds_paging_loop drv sha1_hexdigest self not_quit not_quit_ok) | | ];
    intros ? st2 (evs2 & H2 & F2); exists (evs1 ++ evs2)%list;
    (split; [| rewrite forallb_app, F1, F2; reflexivity]);
    rewrite H2, H1; rewrite <- app_assoc; reflexivity.
Qed.

(** X16. In every run of [scrape_reviews_for_series] the first call to
    the browser is [driver.get(reviews_url)] and the last is
    [driver.quit()]; [quit] is called exactly once, so no call is ever made
    on a closed session. *)
Theorem session_opened_first_closed_once (name url : string) (t : Z) (s0 : Session) :
  exists rows s' evs,
    scrape_reviews_for_series drv sha1_hexdigest self name url t s0
      = Some (rows, s') /\
    trace s' = (trace s0 ++ EvGet url :: evs ++ [EvQuit])%list /\
    forallb (fun ev => negb (is_quit ev)) evs = true.
Proof.
  destruct (harvest_spec drv sha1_hexdigest self LOOP_FUEL name url t s0)
    as (o & Ho & _); [unfold LOOP_FUEL; lia |].
  unfold scrape_reviews_for_series. rewrite Ho.
  rewrite harvest_unfold in Ho.
  pose proof (try_block_calls LOOP_FUEL name url t s0) as Hcalls.
  unfold post, run_trace in Hcalls.
  destruct (try_block drv sha1_hexdigest self LOOP_FUEL name url t
              (s0, initial_locals)) as [[[x |] | e] [s1 l1]];
    try discriminate;
    cbn [fst] in Hcalls; destruct Hcalls as (evs & Ht & Hok);
    inversion Ho; subst o; cbn [final closed];
    exists (reviews l1), (quit_session drv s1), evs;
    (split; [reflexivity |]); (split; [| exact Hok]);
    unfold quit_session; cbn [trace]; rewrite Ht;
    rewrite <- app_assoc; reflexivity.
Qed.

End Lifecycle.

Section ExpandOrder.

Context {W Elem : Type}.
Variable drv : WebDriver W Elem.

Abbreviation Session := (session W Elem).

(** A loop whose every pass starts with a logged call and goes on to the
    next element visits the calls of its elements in order. *)
Lemma for_in_visits {X A} (ok : event Elem -> bool) (ev : X -> event Elem)
  (body : X -> A -> M Session (ctl A)) :
  (forall x, ok (ev x) = true) ->
  (forall x acc s,
     post (body x acc) s
       (fun c s' => (exists a, c = Next a) /\
                    exists mid, trace s' = (trace s ++ ev x :: mid)%list /\
                                forallb ok mid = true)
       (fun _ _ => False)) ->
  forall xs acc s,
    post (for_in xs body acc) s
      (fun _ s' => exists delta,
         trace s' = (trace s ++ delta)%list /\
         visits (map ev xs) delta /\ forallb ok delta = true)
      (fun _ _ => False).
Proof.
  intros Hev Hbody xs. induction xs as [| x xs IH]; intros acc s.
  - apply post_ret. exists []. split; [symmetry; apply app_nil_r |].
    split; [constructor | reflexivity].
  - cbn [for_in map]. apply post_bind.
    eapply post_weaken; [apply Hbody | | auto].
    intros c s1 ((a & ->) & mid & Hmid & Fmid).
    eapply post_weaken; [apply IH | | auto].
    intros ? s2 (rest & Hrest & Hvis & Frest).
    exists (ev x :: mid ++ rest)%list. split; [| split].
    + rewrite Hrest, Hmid. rewrite <- app_assoc. reflexivity.
    + constructor. exact Hvis.
    + cbn [forallb]. rewrite Hev, forallb_app, Fmid, Frest. reflexivity.
Qed.

(** One pass of the toggle loop: it starts with the query for its selector
    and always goes on to the next selector. *)
Lemma toggle_pass_spec (block : Elem) (selector : string) (s : Session) :
  post
    (try_except
       (elems <- find_elements drv (Some block) CSS_SELECTOR selector ;;
        for_in elems
          (fun e (_ : unit) =>
             try_except
               (execute_script drv JS_SCROLL_INTO_VIEW_TIGHT [e] ;;
                sleep drv 50 ;;
                execute_script drv JS_CLICK [e] ;;
                sleep drv 80 ;;
                ret (Next tt))
               (fun _ => ret (Next tt)))
          tt ;;
        ret (Next tt))
       (fun _ => ret (Next tt))) s
    (fun c s' =>
       (exists a, c = Next a) /\
       exists mid,
         trace s' = (trace s ++ EvFindElements (Some block) CSS_SELECTOR selector :: mid)%list /\
         forallb not_unhide mid = true)
    (fun _ _ => False).
Proof.
  apply post_try.
  eapply post_weaken.
  - apply post_and with
      (Q' := fun (c : ctl unit) (_ : Session) => exists a, c = Next a)
      (E' := fun (_ : exn) (_ : Session) => True).
    + unfold find_elements. apply (starts_with_call not_unhide).
      intro. adds_steps.
    + apply post_bind.
      eapply post_weaken; [apply post_trivial | | intros; exact I].
      intros elems s1 _. apply post_bind.
      eapply post_weaken; [apply post_trivial | | intros; exact I].
      intros ? s2 _. apply post_ret. exists tt. reflexivity.
  - intros c s1 [H1 H2]. split; assumption.
  - intros e s1 [H1 _]. apply post_ret.
    split; [exists tt; reflexivity | exact H1].
Qed.

(** X17. [_expand_review_in_block] never raises. It queries the block
    for each of the six toggle selectors, in the order of the list, whatever
    fails in between, and then runs the force-unhide script on the block:
    once, as its last call. *)
Theorem expand_review_in_block_tries_every_toggle (block : Elem) (s : Session) :
  exists s' delta,
    _expand_review_in_block drv block s = (Ok tt, s') /\
    trace s' = (trace s ++ delta ++ [EvScript JS_UNHIDE [block]])%list /\
    visits (map (EvFindElements (Some block) CSS_SELECTOR) TOGGLE_SELECTORS) delta /\
    forallb (fun ev => negb (is_unhide ev)) delta = true.
Proof.
  unfold _expand_review_in_block. unfold bind at 1.
  match goal with
  | |- context [for_in TOGGLE_SELECTORS ?body tt s] =>
      destruct (post_run _ s _
                  (for_in_visits not_unhide
                     (EvFindElements (Some block) CSS_SELECTOR) body
                     (fun _ => eq_refl)
                     (fun selector _ s0 => toggle_pass_spec block selector s0)
                     TOGGLE_SELECTORS tt s))
        as ([] & s1 & Hrun & delta & Hdelta & Hvis & Hok)
  end.
  rewrite Hrun. unfold try_except, execute_script, call.
  destruct (d_execute_script drv JS_UNHIDE [block] (world s1)) as [[[] | e] w];
    eexists; exists delta; (split; [reflexivity |]); cbn [trace];
    rewrite Hdelta, <- app_assoc; auto.
Qed.

End ExpandOrder.

Section ReadMorePasses.

Context {W Elem : Type}.
Variable drv : WebDriver W Elem.

Abbreviation Session := (session W Elem).

Lemma count_if_app (p : event Elem -> bool) (tr evs : list (event Elem)) :
  count_if p (tr ++ evs) = (count_if p tr + count_if p evs)%nat.
Proof. unfold count_if. rewrite filter_app, length_app. reflexivity. Qed.

Lemma count_if_none (p : event Elem -> bool) (evs : list (event Elem)) :
  forallb (fun ev => negb (p ev)) evs = true -> count_if p evs = 0%nat.
Proof.
  unfold count_if. induction evs as [| ev evs IH]; [reflexivity |].
  cbn [forallb filter]. intro H. apply andb_true_iff in H. destruct H as [Hev H].
  apply negb_true_iff in Hev. rewrite Hev. apply IH. exact H.
Qed.

Lemma click_round_nonneg (buttons : list Elem) (s : Session) :
  post (click_round drv buttons) s (fun k _ => 0 <= k) (fun _ _ => False).
Proof.
  unfold click_round.
  apply post_for_in with (I := fun (acc : Z) (_ : Session) => 0 <= acc);
    [| auto | lia].
  intros btn acc s1 Hacc. apply post_try.
  apply post_weaken with
    (Q := fun (c : ctl Z) (_ : Session) =>
            match c with Next a => 0 <= a | Break a => 0 <= a end)
    (E := fun (_ : exn) (_ : Session) => True).
  - do 3 post_skip. apply post_ret. lia.
  - auto.
  - intros e s2 _. apply post_ret. exact Hacc.
Qed.

(** One pass of [click_all_read_more], from a total of [total]: the query
    is made once; the pass ends the loop with the total unchanged, or goes
    on with a larger total. *)
Lemma readmore_pass_spec (total : Z) (s : Session) :
  post
    (buttons <- find_elements drv None CSS_SELECTOR "a.js-readmore" ;;
     clicked_round <- click_round drv buttons ;;
     if clicked_round =? 0 then ret (Break (total + clicked_round))
     else sleep drv 150 ;; ret (Next (total + clicked_round))) s
    (fun c s' =>
       count_if is_readmore_query (trace s')
         = S (count_if is_readmore_query (trace s)) /\
       match c with Break a => a = total | Next a => total < a end)
    (fun _ s' =>
       count_if is_readmore_query (trace s')
         = S (count_if is_readmore_query (trace s))).
Proof.
  assert (Hcount : forall (s' : Session) evs,
            trace s' = (trace s ++ EvFindElements None CSS_SELECTOR "a.js-readmore" :: evs)%list ->
            forallb not_readmore_query evs = true ->
            count_if is_readmore_query (trace s')
              = S (count_if is_readmore_query (trace s))).
  { intros s' evs -> Hok.
    change (EvFindElements None CSS_SELECTOR "a.js-readmore" :: evs)
      with ([@EvFindElements Elem None CSS_SELECTOR "a.js-readmore"] ++ evs)%list.
    rewrite !count_if_app, (count_if_none _ evs Hok). cbn. lia. }
  eapply post_weaken.
  - apply post_and with
      (Q' := fun (c : ctl Z) (_ : Session) =>
               match c with Break a => a = total | Next a => total < a end)
      (E' := fun (_ : exn) (_ : Session) => True).
    + unfold find_elements. apply (starts_with_call not_readmore_query).
      intro. adds_steps.
    + apply post_bind.
      eapply post_weaken; [apply post_trivial | | intros; exact I].
      intros buttons s1 _. apply post_bind.
      eapply post_weaken; [apply click_round_nonneg | | intros ? ? []].
      intros k s2 Hk. cbn beta in Hk.
      destruct (k =? 0) eqn:Hzero.
      * apply Z.eqb_eq in Hzero. apply post_ret. lia.
      * apply Z.eqb_neq in Hzero. post_skip. apply post_ret. lia.
  - intros c s' [(evs & Ht & Hok) Hc]. split; [eapply Hcount; eassumption | exact Hc].
  - intros e s' [(evs & Ht & Hok) _]. eapply Hcount; eassumption.
Qed.

(** X18. [click_all_read_more] makes its query for Read more links at
    least once and at most three times, also when it raises; when it
    returns, the number it returns is not negative, and it is zero only if
    the first pass clicked nothing, in which case the query was made once. *)
Theorem click_all_read_more_passes (s : Session) :
  match click_all_read_more drv s with
  | (Ok n, s') =>
      exists passes,
        count_if is_readmore_query (trace s')
          = (count_if is_readmore_query (trace s) + passes)%nat /\
        (1 <= passes <= 3)%nat /\ 0 <= n /\ (n = 0 -> passes = 1%nat)
  | (Raise _, s') =>
      exists passes,
        count_if is_readmore_query (trace s')
          = (count_if is_readmore_query (trace s) + passes)%nat /\
        (1 <= passes <= 3)%nat
  end.
Proof.
  assert (H : post (click_all_read_more drv) s
            (fun n s' => exists passes,
               count_if is_readmore_query (trace s')
                 = (count_if is_readmore_query (trace s) + passes)%nat /\
               (1 <= passes <= 3)%nat /\ 0 <= n /\ (n = 0 -> passes = 1%nat))
            (fun _ s' => exists passes,
               count_if is_readmore_query (trace s')
                 = (count_if is_readmore_query (trace s) + passes)%nat /\
               (1 <= passes <= 3)%nat)).
  { unfold click_all_read_more. cbn [for_in].
    apply post_bind.
    eapply post_weaken; [apply (readmore_pass_spec 0 s) | |
      intros e s1 H1; cbn beta in H1; exists 1%nat; split; [lia | lia]].
    intros [a1 | a1] s1 [H1 Ha1].
    2:{ apply post_ret. exists 1%nat. repeat split; try lia. }
    apply post_bind.
    eapply post_weaken; [apply (readmore_pass_spec a1 s1) | |
      intros e s2 H2; cbn beta in H2; exists 2%nat; split; [lia | lia]].
    intros [a2 | a2] s2 [H2 Ha2].
    2:{ apply post_ret. exists 2%nat. repeat split; try lia. }
    apply post_bind.
    eapply post_weaken; [apply (readmore_pass_spec a2 s2) | |
      intros e s3 H3; cbn beta in H3; exists 3%nat; split; [lia | lia]].
    intros [a3 | a3] s3 [H3 Ha3]; apply post_ret;
      exists 3%nat; repeat split; try lia. }
  unfold post in H.
  destruct (click_all_read_more drv s) as [[n | e] s']; exact H.
Qed.

End ReadMorePasses.

(* ===================================================================== *)
(** ** The entity and identifier tables *)
(* ===================================================================== *)

Lemma known_series_cases (n : string) :
  In n KNOWN_SERIES \/
  (String.eqb n "Naruto" = false /\ String.eqb n "Naruto Shippuden" = false /\
   String.eqb n "One Piece" = false /\ String.eqb n "Bleach" = false /\
   String.eqb n "Bleach TYBW Part 1" = false /\
   String.eqb n "Bleach TYBW Part 2" = false).
Proof.
  unfold KNOWN_SERIES.
  destruct (String.eqb n "Naruto") eqn:H1;
    [apply String.eqb_eq in H1; subst; left; cbn; auto |].
  destruct (String.eqb n "Naruto Shippuden") eqn:H2;
    [apply String.eqb_eq in H2; subst; left; cbn; auto |].
  destruct (String.eqb n "One Piece") eqn:H3;
    [apply String.eqb_eq in H3; subst; left; cbn; auto |].
  destruct (String.eqb n "Bleach") eqn:H4;
    [apply String.eqb_eq in H4; subst; left; cbn; auto |].
  destruct (String.eqb n "Bleach TYBW Part 1") eqn:H5;
    [apply String.eqb_eq in H5; subst; left; cbn; auto 7 |].
  destruct (String.eqb n "Bleach TYBW Part 2") eqn:H6;
    [apply String.eqb_eq in H6; subst; left; cbn; auto 7 |].
  right. auto 7.
Qed.

Lemma unknown_series_not_in (n : string) :
  String.eqb n "Naruto" = false -> String.eqb n "Naruto Shippuden" = false ->
  String.eqb n "One Piece" = false -> String.eqb n "Bleach" = false ->
  String.eqb n "Bleach TYBW Part 1" = false ->
  String.eqb n "Bleach TYBW Part 2" = false ->
  ~ In n KNOWN_SERIES.
Proof.
  intros H1 H2 H3 H4 H5 H6 Hin. unfold KNOWN_SERIES in Hin. cbn in Hin.
  destruct Hin as [<- | [<- | [<- | [<- | [<- | [<- | []]]]]]]; discriminate.
Qed.

(** X19. [_entity_for] maps the six known series names to one of the
    three entities Naruto, One Piece and Bleach, leaves every other name as
    it is, and is idempotent: the entity of an entity is itself. *)
Theorem entity_for_idempotent (n : string) :
  _entity_for (_entity_for n) = _entity_for n /\
  (In n KNOWN_SERIES ->
   _entity_for n = "Naruto" \/ _entity_for n = "One Piece" \/ _entity_for n = "Bleach") /\
  (~ In n KNOWN_SERIES -> _entity_for n = n).
Proof.
  destruct (known_series_cases n) as [Hin | (H1 & H2 & H3 & H4 & H5 & H6)].
  - split; [| split].
    + unfold KNOWN_SERIES in Hin. cbn in Hin.
      destruct Hin as [<- | [<- | [<- | [<- | [<- | [<- | []]]]]]]; reflexivity.
    + intros _. unfold KNOWN_SERIES in Hin. cbn in Hin.
      destruct Hin as [<- | [<- | [<- | [<- | [<- | [<- | []]]]]]]; cbn; auto.
    + intro Hn. contradiction.
  - assert (Hid : _entity_for n = n).
    { unfold _entity_for. rewrite H1, H2, H3, H4, H5, H6. reflexivity. }
    split; [rewrite Hid; exact Hid |]. split; [| intros _; exact Hid].
    intro Hin. exfalso.
    apply (unknown_series_not_in n H1 H2 H3 H4 H5 H6 Hin).
Qed.

(** X20. [_mal_id_for] gives 0 exactly for the names outside its table,
    and it tells the six known series apart: two names with the same
    identifier other than 0 are the same name. *)
Theorem mal_id_for_identifies_series (a b : string) :
  (_mal_id_for a = 0 <-> ~ In a KNOWN_SERIES) /\
  (_mal_id_for a <> 0 -> _mal_id_for a = _mal_id_for b -> a = b).
Proof.
  assert (Hknown : forall n, In n KNOWN_SERIES ->
            (n = "Naruto" /\ _mal_id_for n = 20) \/
            (n = "Naruto Shippuden" /\ _mal_id_for n = 1735) \/
            (n = "One Piece" /\ _mal_id_for n = 21) \/
            (n = "Bleach" /\ _mal_id_for n = 269) \/
            (n = "Bleach TYBW Part 1" /\ _mal_id_for n = 41467) \/
            (n = "Bleach TYBW Part 2" /\ _mal_id_for n = 41468)).
  { intros n Hin. unfold KNOWN_SERIES in Hin. cbn in Hin.
    destruct Hin as [<- | [<- | [<- | [<- | [<- | [<- | []]]]]]]; cbn; auto 10. }
  assert (Hunknown : forall n, ~ In n KNOWN_SERIES -> _mal_id_for n = 0).
  { intros n Hn.
    destruct (known_series_cases n) as [Hin | (H1 & H2 & H3 & H4 & H5 & H6)];
      [contradiction |].
    unfold _mal_id_for. rewrite H1, H2, H3, H4, H5, H6. reflexivity. }
  assert (Hdec : forall n, In n KNOWN_SERIES \/ ~ In n KNOWN_SERIES).
  { intro n.
    destruct (known_series_cases n) as [Hin | (H1 & H2 & H3 & H4 & H5 & H6)];
      [left; exact Hin | right].
    apply (unknown_series_not_in n H1 H2 H3 H4 H5 H6). }
  split.
  - split; [| apply Hunknown].
    intros Hzero Hin.
    destruct (Hknown a Hin) as [[_ H] | [[_ H] | [[_ H] | [[_ H] | [[_ H] | [_ H]]]]]];
      rewrite H in Hzero; discriminate.
  - intros Hnz Heq.
    destruct (Hdec a) as [Ha | Ha]; [| rewrite (Hunknown a Ha) in Hnz; contradiction].
    destruct (Hdec b) as [Hb | Hb].
    + destruct (Hknown a Ha) as [[-> Ia] | [[-> Ia] | [[-> Ia] | [[-> Ia] | [[-> Ia] | [-> Ia]]]]]];
      destruct (Hknown b Hb) as [[-> Ib] | [[-> Ib] | [[-> Ib] | [[-> Ib] | [[-> Ib] | [-> Ib]]]]]];
        try reflexivity; rewrite Ia, Ib in Heq; discriminate.
    + rewrite (Hunknown b Hb) in Heq. rewrite Heq in Hnz. contradiction.
Qed.

(* ===================================================================== *)
(** ** A digit that is no integer *)
(* ===================================================================== *)

Lemma score_of_tokens_refused {W Elem : Type}
  (pre : list string) (tok : string) (rest : list string) (score : option Z)
  (s : session W Elem) :
  Forall passed_over pre -> isdigit tok = true -> to_int tok = None ->
  score_of_tokens (pre ++ tok :: rest) score s =
  (Raise (Exception "invalid literal for int() with base 10"), s).
Proof.
  intros Hpre Hdigit Hint. unfold score_of_tokens.
  induction Hpre as [| t pre Ht Hpre IH]; cbn [app for_in]; unfold bind at 1.
  - rewrite Hdigit, Hint. reflexivity.
  - destruct Ht as [Hnd | (v & Hv & Hout)].
    + rewrite Hnd. cbn. exact IH.
    + destruct (isdigit t); [rewrite Hv, Hout |]; cbn; exact IH.
Qed.

(** X21. A block whose body passed the length gate is still rejected
    when the text of its first score element holds, before any integer from
    1 to 10, a token that [isdigit] accepts and [int] refuses (a superscript
    digit, or a run of more than 4300 digits): the [ValueError] reaches the
    outermost [except] clause and [parse_review_block] returns [None]. *)
Theorem digit_that_is_no_integer_rejects_block {W Elem : Type}
  (drv : WebDriver W Elem) (block : Elem) (s s1 s2 s3 : session W Elem)
  (raw : string) (el : Elem) (txt : option string)
  (pre : list string) (tok : string) (rest : list string) :
  extract_text drv block s = (Ok raw, s1) ->
  too_short raw = false ->
  find_element drv (Some block) CSS_SELECTOR "div.score" s1 = (Ok el, s2) ->
  get_attribute drv el "innerText" s2 = (Ok txt, s3) ->
  split (strip (or_empty txt)) = (pre ++ tok :: rest)%list ->
  Forall (fun t => isdigit t = false \/
                   exists v, to_int t = Some v /\ ((1 <=? v) && (v <=? 10)) = false) pre ->
  isdigit tok = true -> to_int tok = None ->
  parse_review_block drv block s = (Ok None, s3).
Proof.
  intros Htext Hgate Hfind Hattr Hsplit Hpre Hdigit Hint.
  unfold parse_review_block, try_except. unfold bind at 1.
  rewrite Htext, Hgate. unfold bind at 1.
  unfold extract_score. cbn [for_in]. unfold bind at 1. unfold bind at 1.
  unfold try_except at 1. unfold bind at 1. rewrite Hfind.
  unfold bind at 1. rewrite Hattr. unfold ret at 1. cbn beta iota.
  unfold bind at 1. rewrite Hsplit.
  rewrite (score_of_tokens_refused pre tok rest None s3 Hpre Hdigit Hint).
  reflexivity.
Qed.

Lemma digit_that_is_no_integer_rejects_block_witness :
  isdigit ToyScore.SUPERSCRIPT_TWO = true /\
  to_int ToyScore.SUPERSCRIPT_TWO = None /\
  exists s3,
    parse_review_block ToyScore.driver (Toy.Block 0) ToyScore.on_page_1
    = (Ok None, s3).
Proof.
  split; [reflexivity |]. split; [reflexivity |].
  eexists.
  eapply (digit_that_is_no_integer_rejects_block ToyScore.driver (Toy.Block 0)
            ToyScore.on_page_1 _ _ _ _ _ _ [] ToyScore.SUPERSCRIPT_TWO ["9"]).
  - vm_compute. reflexivity.
  - vm_compute. reflexivity.
  - vm_compute. reflexivity.
  - vm_compute. reflexivity.
  - vm_compute. reflexivity.
  - constructor.
  - reflexivity.
  - reflexivity.
Defined.

(* ===================================================================== *)
(** ** The batch of [main] *)
(* ===================================================================== *)

(** A run gives at most [t] records, each under the name asked for. *)
Lemma scrape_rows_bounded {W Elem : Type} (drv : WebDriver W Elem)
  (sha1_hexdigest : string -> string) (self : Scraper)
  (series_name reviews_url : string) (t : Z) (s0 : session W Elem) :
  0 <= t ->
  exists rows s',
    scrape_reviews_for_series drv sha1_hexdigest self series_name reviews_url t s0
      = Some (rows, s') /\
    llen rows <= t /\
    Forall (fun r => series_component r = series_name) rows.
Proof.
  intro Ht.
  destruct (harvest_spec drv sha1_hexdigest self LOOP_FUEL series_name
              reviews_url t s0) as (o & Ho & Hok); [unfold LOOP_FUEL; lia |].
  unfold scrape_reviews_for_series. rewrite Ho.
  exists (reviews (final o)), (closed o). split; [reflexivity |]. split.
  - unfold outcome_ok in Hok.
    destruct (exit o).
    + destruct Hok as (_ & _ & _ & -> & _). cbn. exact Ht.
    + destruct Hok as (_ & _ & _ & Hlt & _). lia.
    + destruct Hok as (_ & _ & _ & Hlt & _). lia.
    + destruct Hok as (_ & _ & _ & []).
    + destruct Hok as (_ & _ & _ & Heq). lia.
    + destruct Hok as [-> | (_ & Hlt & _)]; [cbn; exact Ht | lia].
  - apply (harvest_rows drv sha1_hexdigest self series_name
             (fun _ => True) (fun r => series_component r = series_name)
             (parse_review_block_any drv) (fun pg p _ => eq_refl)
             LOOP_FUEL reviews_url t s0 o Ho).
Qed.

Section BatchFacts.

Context {G W Elem : Type}.
Variable pf : Platform G W.
Variable drv : WebDriver W Elem.
Variable sha1_hexdigest : string -> string.
Variable scraper : Scraper.
Variable out_dir : string.

(** One pass of the loop of [main]: two calls and the rows appended, or a
    failure after the first or the second call. *)
Lemma series_step_spec (sr : series) (acc : list row) (st : os_state G) :
  0 <= s_target_reviews sr ->
  post (series_step pf drv sha1_hexdigest scraper out_dir sr acc) st
    (fun c st' =>
       exists rows,
         series_rows sr rows /\ c = Next (acc ++ rows)%list /\
         os_trace st' = (os_trace st ++ series_calls pf scraper out_dir sr rows)%list /\
         harvested drv pf sha1_hexdigest scraper out_dir [sr] (os_world st)
           [rows] (os_world st'))
    (fun _ st' =>
       exists calls,
         failed_calls pf scraper out_dir sr calls /\
         os_trace st' = (os_trace st ++ calls)%list).
Proof.
  intro Ht. unfold post, series_step, scrape_with_new_driver.
  unfold bind at 1. unfold bind at 1. unfold os_call at 1.
  destruct (p_chrome pf (headless scraper) (os_world st)) as [[w | e] g]
    eqn:Hchrome.
  - destruct (scrape_rows_bounded drv sha1_hexdigest scraper
                (s_series_component sr) (s_reviews_url sr)
                (s_target_reviews sr) (Build_session w []) Ht)
      as (rows & s' & Hrun & Hlen & Hall).
    rewrite Hrun.
    unfold ret at 1. cbn beta iota.
    unfold bind at 1. unfold os_call at 1. cbn [os_world os_trace].
    destruct (p_to_csv pf _ rows g) as [[[] | e] g'] eqn:Hcsv.
    + unfold ret. exists rows. split; [split; assumption |].
      split; [reflexivity |]. cbn [os_trace os_world]. split.
      * unfold series_calls. rewrite <- app_assoc. reflexivity.
      * eapply harvested_cons; [exact Hchrome | exact Hrun | exact Hcsv |].
        apply harvested_nil.
    + exists (series_calls pf scraper out_dir sr rows). split.
      * right. exists rows. split; [split; assumption | reflexivity].
      * cbn [os_trace]. unfold series_calls. rewrite <- app_assoc. reflexivity.
  - exists [OsChrome (headless scraper)]. split; [left; reflexivity |].
    reflexivity.
Qed.

(** The loop of [main] over any list of entries: every entry gives its two
    calls, in order, and the rows are appended in that order; a failure
    ends the loop at the entry where it happens. *)
Lemma batch_loop_spec (entries : list series) :
  Forall (fun sr => 0 <= s_target_reviews sr) entries ->
  forall (acc : list row) (st : os_state G),
  post (for_in entries (series_step pf drv sha1_hexdigest scraper out_dir) acc) st
    (fun all st' =>
       exists rss,
         Forall2 series_rows entries rss /\
         all = (acc ++ List.concat rss)%list /\
         os_trace st' =
           (os_trace st ++ batch_calls pf scraper out_dir entries rss)%list /\
         harvested drv pf sha1_hexdigest scraper out_dir entries (os_world st)
           rss (os_world st'))
    (fun _ st' =>
       exists k sr rss calls,
         nth_error entries k = Some sr /\
         Forall2 series_rows (firstn k entries) rss /\
         failed_calls pf scraper out_dir sr calls /\
         os_trace st' =
           (os_trace st ++
            batch_calls pf scraper out_dir (firstn k entries) rss ++ calls)%list).
Proof.
  induction 1 as [| sr entries Ht Hrest IH]; intros acc st.
  - apply post_ret. exists []. split; [constructor |].
    split; [cbn; rewrite app_nil_r; reflexivity |].
    split; [cbn; rewrite app_nil_r; reflexivity |].
    apply harvested_nil.
  - cbn [for_in]. apply post_bind.
    eapply post_weaken; [apply (series_step_spec sr acc st Ht) | |].
    + intros c st1 (rows & Hrows & -> & Htr & Hone). cbn beta iota.
      eapply post_weaken; [apply (IH (acc ++ rows)%list st1) | |].
      * intros all st2 (rss & Hrss & -> & Htr2 & Hmore). cbn beta.
        exists (rows :: rss). split; [constructor; assumption |].
        split; [cbn [List.concat]; rewrite app_assoc; reflexivity |].
        split.
        -- rewrite Htr2, Htr. cbn [batch_calls].
           rewrite <- !app_assoc. reflexivity.
        -- inversion Hone as [| ? ? ? g1 g2 ? w ? s' ? Hchrome Hrun Hcsv Hnil];
             subst.
           inversion Hnil; subst.
           eapply harvested_cons; eassumption.
      * intros e st2 (k & sr' & rss & calls & Hnth & Hrss & Hcalls & Htr2).
        cbn beta.
        exists (S k), sr', (rows :: rss), calls.
        split; [exact Hnth |].
        split; [cbn [firstn]; constructor; assumption |].
        split; [exact Hcalls |].
        rewrite Htr2, Htr. cbn [firstn batch_calls].
        rewrite <- !app_assoc. reflexivity.
    + intros e st1 (calls & Hcalls & Htr). cbn beta.
      exists 0%nat, sr, [], calls.
      split; [reflexivity |]. split; [constructor |].
      split; [exact Hcalls |]. exact Htr.
Qed.

End BatchFacts.

Lemma series_targets_nonneg :
  Forall (fun sr => 0 <= s_target_reviews sr) SERIES.
Proof. unfold SERIES. repeat constructor; cbn; lia. Qed.

Lemma series_rows_total (rss : list (list row)) :
  Forall2 series_rows SERIES rss -> llen (List.concat rss) <= 1800.
Proof.
  intro H. unfold SERIES in H.
  repeat match goal with
         | H : Forall2 _ (_ :: _) _ |- _ => inversion H; subst; clear H
         | H : Forall2 _ [] _ |- _ => inversion H; subst; clear H
         end.
  repeat match goal with
         | H : series_rows _ _ |- _ => destruct H as [H _]; cbn in H
         end.
  unfold llen in *. cbn [List.concat]. rewrite !length_app. cbn [List.length].
  lia.
Qed.

Lemma append_inj_l (a b c : string) : (a ++ b = a ++ c)%string -> b = c.
Proof.
  induction a as [| ch a IH]; cbn [append]; intro H; [exact H |].
  injection H as H. exact (IH H).
Qed.

(** No file of a series is the combined file. *)
Lemma series_path_not_all {G W : Type} (pf : Platform G W) (sr : series) :
  In sr SERIES ->
  String.eqb (path_join pf (OUT_DIR pf) (series_file (s_series_component sr)))
             (ALL_PATH pf) = false.
Proof.
  intro Hin. apply String.eqb_neq. intro Heq.
  unfold ALL_PATH, path_join in Heq.
  apply append_inj_l in Heq. apply append_inj_l in Heq.
  unfold SERIES in Hin. cbn [In] in Hin.
  repeat (destruct Hin as [<- | Hin]; [vm_compute in Heq; discriminate |]).
  exact Hin.
Qed.

Lemma spares_app (path : string) (a b : list os_event) :
  spares path a -> spares path b -> spares path (a ++ b).
Proof.
  unfold spares. intros Ha Hb. rewrite forallb_app, Ha, Hb. reflexivity.
Qed.

Lemma series_calls_spare_all {G W : Type} (pf : Platform G W) (sr : series)
  (rows : list row) :
  In sr SERIES ->
  spares (ALL_PATH pf) (series_calls pf MAIN_SCRAPER (OUT_DIR pf) sr rows).
Proof.
  intro Hin. unfold spares, series_calls. cbn [forallb writes_to negb andb].
  rewrite (series_path_not_all pf sr Hin). reflexivity.
Qed.

Lemma batch_calls_spare_all {G W : Type} (pf : Platform G W)
  (entries : list series) :
  Forall (fun sr => In sr SERIES) entries ->
  forall rss,
    spares (ALL_PATH pf) (batch_calls pf MAIN_SCRAPER (OUT_DIR pf) entries rss).
Proof.
  induction 1 as [| sr entries Hin Hrest IH]; intros rss; [reflexivity |].
  destruct rss as [| rows rss]; [reflexivity |].
  cbn [batch_calls]. apply spares_app; [| apply IH].
  apply series_calls_spare_all. exact Hin.
Qed.


Lemma firstn_series (k : nat) :
  Forall (fun sr => In sr SERIES) (firstn k SERIES).
Proof.
  apply Forall_forall. intros sr Hin.
  rewrite <- (firstn_skipn k SERIES). apply in_or_app. left. exact Hin.
Qed.

(** X22. A run of [main] that returns has made exactly these calls, in
    this order: the output directory is created; then for each of the six
    entries of [SERIES], in the order of the list, a browser is started,
    [scrape_reviews_for_series] is run on that browser with the name, the
    URL and the target of the entry, and the file of the series is written
    with exactly the rows that this run returned, which are at most the
    target of the entry and all under its name; last the combined file is
    written with the concatenation of the six returned row lists in that
    order, at most 1800 rows. The combined file is written by that last call
    only. *)
Theorem main_writes_each_series_then_all {G W Elem : Type}
  (pf : Platform G W) (drv : WebDriver W Elem)
  (sha1_hexdigest : string -> string) (st : os_state G) :
  match main pf drv sha1_hexdigest st with
  | (Ok _, st') =>
      exists rss g1 g2,
        p_makedirs pf (OUT_DIR pf) (os_world st) = (Ok tt, g1) /\
        harvested drv pf sha1_hexdigest MAIN_SCRAPER (OUT_DIR pf) SERIES g1 rss g2 /\
        p_to_csv pf (ALL_PATH pf) (List.concat rss) g2 = (Ok tt, os_world st') /\
        Forall2 series_rows SERIES rss /\
        llen (List.concat rss) <= 1800 /\
        spares (ALL_PATH pf) (batch_calls pf MAIN_SCRAPER (OUT_DIR pf) SERIES rss) /\
        os_trace st' =
          (os_trace st ++
           OsMakedirs (OUT_DIR pf) ::
           batch_calls pf MAIN_SCRAPER (OUT_DIR pf) SERIES rss ++
           [OsToCsv (ALL_PATH pf) (List.concat rss)])%list
  | (Raise _, _) => True
  end.
Proof.
  unfold main. unfold bind at 1. unfold os_call at 1.
  fold (OUT_DIR pf).
  destruct (p_makedirs pf _ (os_world st)) as [[[] | e] g] eqn:Hmk; [| exact I].
  unfold bind at 1. unfold harvest_all.
  pose proof (batch_loop_spec pf drv sha1_hexdigest MAIN_SCRAPER (OUT_DIR pf)
                SERIES series_targets_nonneg []
                (Build_os_state g (os_trace st ++ [OsMakedirs (OUT_DIR pf)])))
    as Hloop.
  unfold post in Hloop. fold MAIN_SCRAPER. fold (OUT_DIR pf).
  destruct (for_in SERIES _ [] _) as [[all | e] st1]; [| exact I].
  destruct Hloop as (rss & Hrss & -> & Htr & Hrun). cbn [app] in *.
  unfold os_call. fold (ALL_PATH pf).
  destruct (p_to_csv pf _ (List.concat rss) (os_world st1)) as [[[] | e] g']
    eqn:Hcsv; [| exact I].
  exists rss, g, (os_world st1).
  split; [reflexivity |]. split; [exact Hrun |]. split; [exact Hcsv |].
  split; [exact Hrss |].
  split; [apply series_rows_total; exact Hrss |].
  split; [apply batch_calls_spare_all, (firstn_series 6) |].
  cbn [os_trace] in *. rewrite Htr. fold (ALL_PATH pf).
  rewrite <- !app_assoc. reflexivity.
Qed.


(** The batch on a system that writes every file, over a listing of three
    pages of two reviews: six files of six rows and the combined file of
    thirty-six. *)
Example main_on_toy_platform :
  let r := main (ToyOs.platform 6) (Toy.driver Toy.three_pages) Toy.digest
             ToyOs.boot in
  fst r = Ok tt /\
  map ToyOs.outline (os_trace (snd r)) =
    [("makedirs data/raw", 0); ("chrome", 0);
     ("data/raw/naruto_reviews_raw.csv", 6); ("chrome", 0);
     ("data/raw/naruto_shippuden_reviews_raw.csv", 6); ("chrome", 0);
     ("data/raw/one_piece_reviews_raw.csv", 6); ("chrome", 0);
     ("data/raw/bleach_reviews_raw.csv", 6); ("chrome", 0);
     ("data/raw/bleach_tybw_part_1_reviews_raw.csv", 6); ("chrome", 0);
     ("data/raw/bleach_tybw_part_2_reviews_raw.csv", 6);
     ("data/raw/all_reviews_raw.csv", 36)].
Proof. vm_compute. split; reflexivity. Qed.

(** The batch on a system that starts two browsers only: the third start
    raises, two files are written and the combined file is not. *)
Example main_on_toy_platform_two_browsers :
  let r := main (ToyOs.platform 2) (Toy.driver Toy.three_pages) Toy.digest
             ToyOs.boot in
  fst r = Raise (Exception "session not created") /\
  map ToyOs.outline (os_trace (snd r)) =
    [("makedirs data/raw", 0); ("chrome", 0);
     ("data/raw/naruto_reviews_raw.csv", 6); ("chrome", 0);
     ("data/raw/naruto_shippuden_reviews_raw.csv", 6); ("chrome", 0)].
Proof. vm_compute. split; reflexivity. Qed.
